(** * EarthVertex: procedural terrain, pointer bulge and level of detail

    A shallow embedding of the globe renderer's shader functions
    (vertex.glsl, enhancedVertex.glsl, enhancedFragment.glsl), of the
    driver script (PerformanceMonitor, LODManager, the terrain cache,
    texture loading, hover tracking, keyboard controls, init) and of the
    helper modules (Helpers.js, ErrorHandler.js).

    GLSL [float] values are modelled as real numbers: the shader code uses
    [sin], [cos], [floor] and [sqrt], which live in [R].  The driver
    script's numbers are modelled as rationals ([Q]) and the integer-valued
    ones (vertex resolutions, frame counters) as [Z], so that the driver
    model evaluates on concrete inputs. *)

From Stdlib Require Import Reals Lra Lqa Lia ZArith List Bool.
From Stdlib Require Import QArith String.
From Stdlib Require Qround DecimalString DecimalZ DecimalPos.
Import ListNotations.

(* ------------------------------------------------------------------ *)
(** ** GLSL vectors and built-in functions *)

Module Glsl.
Local Open Scope R_scope.

Record vec2 := Vec2 { x2 : R; y2 : R }.
Record vec3 := Vec3 { vx : R; vy : R; vz : R }.
Record vec4 := Vec4 { x4 : R; y4 : R; z4 : R; w4 : R }.

(** A texture sampler: [texture2D(s, uv)] is [s uv], an rgba value. *)
Definition sampler2D := vec2 -> vec4.
Definition texture2D (s : sampler2D) (uv : vec2) : vec4 := s uv.
Definition chan_r (c : vec4) : R := x4 c.

(** [vec3(s)]: the same scalar in all three components. *)
Definition splat3 (s : R) : vec3 := Vec3 s s s.
Definition splat4 (s : R) : vec4 := Vec4 s s s s.

Definition map3 (f : R -> R) (v : vec3) : vec3 :=
  Vec3 (f (vx v)) (f (vy v)) (f (vz v)).
Definition zip3 (f : R -> R -> R) (a b : vec3) : vec3 :=
  Vec3 (f (vx a) (vx b)) (f (vy a) (vy b)) (f (vz a) (vz b)).
Definition map4 (f : R -> R) (v : vec4) : vec4 :=
  Vec4 (f (x4 v)) (f (y4 v)) (f (z4 v)) (f (w4 v)).
Definition zip4 (f : R -> R -> R) (a b : vec4) : vec4 :=
  Vec4 (f (x4 a) (x4 b)) (f (y4 a) (y4 b)) (f (z4 a) (z4 b)) (f (w4 a) (w4 b)).

Definition add3 := zip3 Rplus.
Definition sub3 := zip3 Rminus.
Definition mul3 := zip3 Rmult.
(** vector * scalar and vector + scalar *)
Definition scale3 (v : vec3) (s : R) : vec3 := map3 (fun c => c * s) v.
Definition adds3 (v : vec3) (s : R) : vec3 := map3 (fun c => c + s) v.

Definition add4 := zip4 Rplus.
Definition sub4 := zip4 Rminus.
Definition mul4 := zip4 Rmult.
Definition scale4 (v : vec4) (s : R) : vec4 := map4 (fun c => c * s) v.
Definition adds4 (v : vec4) (s : R) : vec4 := map4 (fun c => c + s) v.
Definition subs4 (v : vec4) (s : R) : vec4 := map4 (fun c => c - s) v.

Definition dot3 (a b : vec3) : R := vx a * vx b + vy a * vy b + vz a * vz b.
Definition length3 (v : vec3) : R := sqrt (dot3 v v).
Definition normalize3 (v : vec3) : vec3 := map3 (fun c => c / length3 v) v.

Definition floor (x : R) : R := IZR (Zfloor x).
Definition fract (x : R) : R := x - floor x.
(** [mod(x, y) = x - y * floor(x / y)] *)
Definition mod_ (x y : R) : R := x - y * floor (x / y).
(** [mix(x, y, a) = x * (1 - a) + y * a] *)
Definition mix (x y a : R) : R := x * (1 - a) + y * a.
(** [step(edge, x)] is 0 when [x < edge] and 1 otherwise. *)
Definition step (edge x : R) : R := if Rlt_dec x edge then 0 else 1.

End Glsl.

(* ------------------------------------------------------------------ *)
(** ** enhancedVertex.glsl / enhancedFragment.glsl *)

Module EnhancedShader.
Import Glsl.
Local Open Scope R_scope.

(** The lattice hash of [perlinNoise]: [fract(sin(a) * 43758.5453)]. *)
Definition hash (a : R) : R := fract (sin a * 43758.5453).

Definition perlinNoise (pos : vec3) : R :=
  let i := map3 floor pos in
  let f := map3 fract pos in
  let u := mul3 (mul3 f f) (map3 (fun c => 3 - 2 * c) f) in
  let k := Vec3 1 57 21 in
  let a := dot3 (map3 floor (add3 i (Vec3 0 0 0))) k in
  let b := dot3 (map3 floor (add3 i (Vec3 1 0 0))) k in
  let c := dot3 (map3 floor (add3 i (Vec3 0 1 0))) k in
  let d := dot3 (map3 floor (add3 i (Vec3 1 1 0))) k in
  let e := dot3 (map3 floor (add3 i (Vec3 0 0 1))) k in
  let f1 := dot3 (map3 floor (add3 i (Vec3 1 0 1))) k in
  let g := dot3 (map3 floor (add3 i (Vec3 0 1 1))) k in
  let h := dot3 (map3 floor (add3 i (Vec3 1 1 1))) k in
  mix (mix (mix (hash a) (hash b) (vx u))
           (mix (hash c) (hash d) (vx u)) (vy u))
      (mix (mix (hash e) (hash f1) (vx u))
           (mix (hash g) (hash h) (vx u)) (vy u)) (vz u).

(** The body of the [for] loop of [fractalNoise], run [k] more times on
    the loop variables [noise], [amp] and [freq]. *)
Fixpoint fractalNoise_loop (k : nat) (pos : vec3) (amplitude : R)
    (noise amp freq : R) : R :=
  match k with
  | O => noise
  | S k' =>
      fractalNoise_loop k' pos amplitude
        (noise + perlinNoise (scale3 pos freq) * amp)
        (amp * amplitude) (freq * 2)
  end.

(** [for (int i = 0; i < octaves; i++)] runs [max octaves 0] times. *)
Definition fractalNoise (pos : vec3) (frequency amplitude : R) (octaves : Z) : R :=
  fractalNoise_loop (Z.to_nat octaves) pos amplitude 0 1 frequency.

(** The seven terrain types, in the order of the integer codes the shader
    returns. *)
Inductive TerrainCategory :=
  Ocean | Mountain | Forest | Plains | Desert | Tundra | Canyon.

Definition category_of_code (c : Z) : option TerrainCategory :=
  match c with
  | 0%Z => Some Ocean
  | 1%Z => Some Mountain
  | 2%Z => Some Forest
  | 3%Z => Some Plains
  | 4%Z => Some Desert
  | 5%Z => Some Tundra
  | 6%Z => Some Canyon
  | _ => None
  end.

(** [terrainValue] of [classifyEnhancedTerrain]. *)
Definition terrainValue (worldPos : vec3) (elevation : R) : R :=
  let noisePos := scale3 worldPos 4 in
  let terrainNoise := perlinNoise noisePos in
  let elevationNoise := perlinNoise (scale3 worldPos 8) in
  elevation + terrainNoise * 0.3 + elevationNoise * 0.2.

Definition classifyEnhancedTerrain (uAlphaMap : sampler2D)
    (uv : vec2) (worldPos : vec3) (elevation : R) : Z :=
  let alpha := chan_r (texture2D uAlphaMap uv) in
  if Rlt_dec alpha 0.5 then 0%Z else
  let tv := terrainValue worldPos elevation in
  if Rgt_dec tv 0.8 then 1%Z else
  if Rgt_dec tv 0.6 then 2%Z else
  if Rgt_dec tv 0.4 then 3%Z else
  if Rgt_dec tv 0.2 then 4%Z else
  if Rgt_dec tv 0.0 then 5%Z else
  6%Z.

(** Quadratic falloff of the enhanced vertex shader. *)
Definition smoothFalloff (distance radius : R) : R :=
  if Rge_dec distance radius then 0.0 else
  let normalizedDist := distance / radius in
  (1.0 - normalizedDist) * (1.0 - normalizedDist).

Definition calculateBulgeDisplacement (uTime : R)
    (worldPos normal mousePos : vec3) (strength radius intensity : R) : vec3 :=
  let distance := length3 (sub3 worldPos mousePos) in
  let falloff := smoothFalloff distance radius in
  if Rle_dec falloff 0.001 then splat3 0.0 else
  let animationOffset := sin (uTime * 2.0) * 0.1 + 0.9 in
  let bulgeAmount := strength * falloff * intensity * animationOffset in
  let horizontalDisplacement :=
    Vec3 (sin (uTime * 3.0) * 0.02)
         (cos (uTime * 2.5) * 0.02)
         (sin (uTime * 1.8) * 0.02) in
  add3 (scale3 normal bulgeAmount)
       (scale3 (scale3 horizontalDisplacement falloff) strength).

End EnhancedShader.

(* ------------------------------------------------------------------ *)
(** ** vertex.glsl: classic periodic Perlin noise and the cubic bulge *)

Module VertexShader.
Import Glsl.
Local Open Scope R_scope.

Definition mod289 (x : R) : R := x - floor (x * (1.0 / 289.0)) * 289.0.
Definition mod289_3 : vec3 -> vec3 := map3 mod289.
Definition mod289_4 : vec4 -> vec4 := map4 mod289.

Definition permute (x : vec4) : vec4 :=
  mod289_4 (mul4 (adds4 (scale4 x 34.0) 10.0) x).

Definition taylorInvSqrt (r : vec4) : vec4 :=
  map4 (fun c => 1.79284291400159 - 0.85373472095314 * c) r.

Definition fade1 (t : R) : R := t * t * t * (t * (t * 6.0 - 15.0) + 10.0).
Definition fade : vec3 -> vec3 := map3 fade1.

(** The gradient block of [pnoise], written twice in the source (for
    [ixy0] and for [ixy1]): from the hashed lattice indices to the four
    lanes of gradient components [(gx, gy, gz)]. *)
Definition gradients (ixy : vec4) : vec4 * vec4 * vec4 :=
  let gx := scale4 ixy (1.0 / 7.0) in
  let gy := subs4 (map4 fract (scale4 (map4 floor gx) (1.0 / 7.0))) 0.5 in
  let gx := map4 fract gx in
  let gz := sub4 (sub4 (splat4 0.5) (map4 Rabs gx)) (map4 Rabs gy) in
  let sz := zip4 step gz (splat4 0.0) in
  let gx := sub4 gx (mul4 sz (subs4 (map4 (step 0.0) gx) 0.5)) in
  let gy := sub4 gy (mul4 sz (subs4 (map4 (step 0.0) gy) 0.5)) in
  (gx, gy, gz).

Definition pnoise (P rep : vec3) : R :=
  let Pi0 := zip3 mod_ (map3 floor P) rep in
  let Pi1 := zip3 mod_ (add3 Pi0 (splat3 1.0)) rep in
  let Pi0 := mod289_3 Pi0 in
  let Pi1 := mod289_3 Pi1 in
  let Pf0 := map3 fract P in
  let Pf1 := sub3 Pf0 (splat3 1.0) in
  let ix := Vec4 (vx Pi0) (vx Pi1) (vx Pi0) (vx Pi1) in
  let iy := Vec4 (vy Pi0) (vy Pi0) (vy Pi1) (vy Pi1) in
  let iz0 := splat4 (vz Pi0) in
  let iz1 := splat4 (vz Pi1) in

  let ixy := permute (add4 (permute ix) iy) in
  let ixy0 := permute (add4 ixy iz0) in
  let ixy1 := permute (add4 ixy iz1) in

  let '(gx0, gy0, gz0) := gradients ixy0 in
  let '(gx1, gy1, gz1) := gradients ixy1 in

  let g000 := Vec3 (x4 gx0) (x4 gy0) (x4 gz0) in
  let g100 := Vec3 (y4 gx0) (y4 gy0) (y4 gz0) in
  let g010 := Vec3 (z4 gx0) (z4 gy0) (z4 gz0) in
  let g110 := Vec3 (w4 gx0) (w4 gy0) (w4 gz0) in
  let g001 := Vec3 (x4 gx1) (x4 gy1) (x4 gz1) in
  let g101 := Vec3 (y4 gx1) (y4 gy1) (y4 gz1) in
  let g011 := Vec3 (z4 gx1) (z4 gy1) (z4 gz1) in
  let g111 := Vec3 (w4 gx1) (w4 gy1) (w4 gz1) in

  let norm0 := taylorInvSqrt
    (Vec4 (dot3 g000 g000) (dot3 g010 g010) (dot3 g100 g100) (dot3 g110 g110)) in
  let g000 := scale3 g000 (x4 norm0) in
  let g010 := scale3 g010 (y4 norm0) in
  let g100 := scale3 g100 (z4 norm0) in
  let g110 := scale3 g110 (w4 norm0) in
  let norm1 := taylorInvSqrt
    (Vec4 (dot3 g001 g001) (dot3 g011 g011) (dot3 g101 g101) (dot3 g111 g111)) in
  let g001 := scale3 g001 (x4 norm1) in
  let g011 := scale3 g011 (y4 norm1) in
  let g101 := scale3 g101 (z4 norm1) in
  let g111 := scale3 g111 (w4 norm1) in

  let n000 := dot3 g000 Pf0 in
  let n100 := dot3 g100 (Vec3 (vx Pf1) (vy Pf0) (vz Pf0)) in
  let n010 := dot3 g010 (Vec3 (vx Pf0) (vy Pf1) (vz Pf0)) in
  let n110 := dot3 g110 (Vec3 (vx Pf1) (vy Pf1) (vz Pf0)) in
  let n001 := dot3 g001 (Vec3 (vx Pf0) (vy Pf0) (vz Pf1)) in
  let n101 := dot3 g101 (Vec3 (vx Pf1) (vy Pf0) (vz Pf1)) in
  let n011 := dot3 g011 (Vec3 (vx Pf0) (vy Pf1) (vz Pf1)) in
  let n111 := dot3 g111 Pf1 in

  let fade_xyz := fade Pf0 in
  let n_z := zip4 (fun a b => mix a b (vz fade_xyz))
                  (Vec4 n000 n100 n010 n110) (Vec4 n001 n101 n011 n111) in
  let n_yz := Vec2 (mix (x4 n_z) (z4 n_z) (vy fade_xyz))
                   (mix (y4 n_z) (w4 n_z) (vy fade_xyz)) in
  let n_xyz := mix (x2 n_yz) (y2 n_yz) (vx fade_xyz) in
  2.2 * n_xyz.

(** Cubic falloff of the vertex shader. *)
Definition smoothFalloff (distance radius : R) : R :=
  if Rge_dec distance radius then 0.0 else
  let normalizedDist := distance / radius in
  let falloff := 1.0 - normalizedDist in
  falloff * falloff * falloff.

(** The noise term of [calculateBulgeDisplacement]. *)
Definition bulgeNoise (uTime : R) (worldPos : vec3) : R :=
  let noisePos := adds3 (scale3 worldPos 2.0) (uTime * 0.3) in
  pnoise noisePos (splat3 10.0) * 0.05.

(** [bulgeAmount] once the early exit has not been taken. *)
Definition bulgeAmount (uTime : R) (worldPos : vec3)
    (strength falloff intensity : R) : R :=
  let animationOffset := sin (uTime * 1.5) * 0.05 + 0.95 in
  let noise := bulgeNoise uTime worldPos in
  strength * falloff * intensity * animationOffset * (1.0 + noise) * 2.2.

Definition calculateBulgeDisplacement (uTime : R)
    (worldPos normal mousePos : vec3) (strength radius intensity : R) : vec3 :=
  let distance := length3 (sub3 worldPos mousePos) in
  let falloff := smoothFalloff distance radius in
  if Rle_dec falloff 0.001 then splat3 0.0 else
  let bulgeDirection := normalize3 normal in
  scale3 bulgeDirection (bulgeAmount uTime worldPos strength falloff intensity).

End VertexShader.

(* ------------------------------------------------------------------ *)
(** ** script.js: the driver (performance monitor, LOD, hover, init) *)

Module Script.
Local Open Scope Q_scope.
Local Open Scope bool_scope.

(** *** Scene objects *)

Record Vector3 := mkVector3 { px : Q; py : Q; pz : Q }.

(** [new THREE.SphereGeometry(radius, widthSegments, heightSegments)] *)
Record Geometry := mkGeometry
  { radius : Q; widthSegments : Z; heightSegments : Z }.

(** The scalar and vector uniforms of the enhanced shader material (the
    three texture uniforms are opaque handles and are left out). *)
Record Uniforms := mkUniforms
  { uTime : Q; uSize : Q; uMouse : Vector3;
    uBulgeStrength : Q; uBulgeRadius : Q; uBulgeIntensity : Q;
    uWaterEffect : Q;
    uTerrainDiversity : Q; uTerrainAnimation : Q;
    uSnowLine : Q; uOceanDepth : Q; uForestDensity : Q;
    uDesertDunes : Q; uMountainSharpness : Q;
    uDetailLevel : Q; uTerrainDensity : Q;
    uAmbientLight : Q; uDirectionalLight : Q;
    uContrast : Q; uBrightness : Q; uSaturation : Q;
    uLODLevel : Q; uSimplifyTerrain : Q }.

(** [uniforms.uTerrainDiversity.value = v] *)
Definition set_uTerrainDiversity (v : Q) (u : Uniforms) : Uniforms :=
  mkUniforms (uTime u) (uSize u) (uMouse u)
    (uBulgeStrength u) (uBulgeRadius u) (uBulgeIntensity u)
    (uWaterEffect u)
    v (uTerrainAnimation u)
    (uSnowLine u) (uOceanDepth u) (uForestDensity u)
    (uDesertDunes u) (uMountainSharpness u)
    (uDetailLevel u) (uTerrainDensity u)
    (uAmbientLight u) (uDirectionalLight u)
    (uContrast u) (uBrightness u) (uSaturation u)
    (uLODLevel u) (uSimplifyTerrain u).

(** A [ShaderMaterial] has a [uniforms] object, a [PointsMaterial] has
    none ([material.uniforms] is [undefined]). *)
Inductive Material :=
| ShaderMaterial (u : Uniforms)
| PointsMaterial (color : Z) (size : Q).

Definition uniforms (m : Material) : option Uniforms :=
  match m with
  | ShaderMaterial u => Some u
  | PointsMaterial _ _ => None
  end.

Record Mesh := mkMesh { geometry : Geometry; material : Material }.

(** [earthMesh && earthMesh.material && earthMesh.material.uniforms] *)
Definition meshUniforms (m : option Mesh) : option Uniforms :=
  match m with
  | Some mesh => uniforms (material mesh)
  | None => None
  end.

(** Assignment to [uTerrainDiversity] guarded by the test above. *)
Definition writeDiversity (f : Q -> Q) (m : option Mesh) : option Mesh :=
  match m with
  | Some mesh =>
      match material mesh with
      | ShaderMaterial u =>
          Some (mkMesh (geometry mesh)
                  (ShaderMaterial (set_uTerrainDiversity (f (uTerrainDiversity u)) u)))
      | PointsMaterial _ _ => m
      end
  | None => m
  end.

(** *** Performance monitor and LOD manager objects *)

Record PerformanceMonitor := mkPerformanceMonitor
  { frameCount : Z; lastFPSUpdate : Q; currentFPS : Z; isOptimizing : bool }.

Definition new_PerformanceMonitor : PerformanceMonitor :=
  mkPerformanceMonitor 0 0 60 false.

Record LODLevel := mkLODLevel { distance : Q; vertices : Z; label : string }.

(** [this.lodLevels], assigned once in the constructor and never written
    again. *)
Definition lodLevels : list LODLevel :=
  [ mkLODLevel 15 100 "Far";
    mkLODLevel 10 150 "Medium";
    mkLODLevel 7 200 "Near";
    mkLODLevel 0 300 "Close" ].

Record LODManager := mkLODManager
  { currentLOD : Z; targetLOD : Z; needsGeometryUpdate : bool }.

Definition new_LODManager : LODManager := mkLODManager 300 300 false.

(** *** Observable effects, in the order they happen *)

Inductive JsError :=
| CanvasNotFound | RendererSetupFailed | ControlsSetupFailed
| WebGLUnavailable | TextureLoadError | ShaderMaterialError.

Inductive Effect :=
| AutoOptimizationTriggered (fps : Z)   (* console.warn of triggerOptimization *)
| DiversityReduced (v : Q)              (* console.log of triggerOptimization *)
| LODUpdate (lod : Z)                   (* console.log of LODManager.update *)
| NewSphereGeometry (g : Geometry)
| DisposeGeometry (g : Geometry)
| GroupAdd (m : Mesh)                   (* group.add(earthMesh) *)
| InitializationError (e : JsError)     (* console.error of init's catch *)
| AnimationStarted.                     (* animate(0) *)

(** *** Module-level state of the script *)

Record State := mkState
  { performanceMonitor : PerformanceMonitor;
    lodManager : LODManager;
    canvas : bool;                 (* [canvas] is non-null *)
    renderer : bool;               (* [renderer] is non-null *)
    controls : bool;               (* [controls] is non-null *)
    earthMesh : option Mesh;
    hoverTracking : bool;          (* listeners of setupHoverTracking installed *)
    targetMouse : Vector3;
    isMouseOverEarth : bool;
    targetBulgeStrength : Q;
    lastRaycastTime : Q;
    optimizingResets : list Q;     (* due times of pending
                                      [setTimeout(() => isOptimizing = false, 3000)] *)
    trace : list Effect }.

Definition initialState : State :=
  mkState new_PerformanceMonitor new_LODManager false false false
    None false (mkVector3 0 0 0) false 0.0 0 [] [].

Definition set_performanceMonitor (v : PerformanceMonitor) (s : State) : State :=
  mkState v (lodManager s) (canvas s) (renderer s) (controls s)
    (earthMesh s) (hoverTracking s) (targetMouse s)
    (isMouseOverEarth s) (targetBulgeStrength s) (lastRaycastTime s)
    (optimizingResets s) (trace s).
Definition set_lodManager (v : LODManager) (s : State) : State :=
  mkState (performanceMonitor s) v (canvas s) (renderer s) (controls s)
    (earthMesh s) (hoverTracking s) (targetMouse s)
    (isMouseOverEarth s) (targetBulgeStrength s) (lastRaycastTime s)
    (optimizingResets s) (trace s).
Definition set_canvas (v : bool) (s : State) : State :=
  mkState (performanceMonitor s) (lodManager s) v (renderer s) (controls s)
    (earthMesh s) (hoverTracking s) (targetMouse s)
    (isMouseOverEarth s) (targetBulgeStrength s) (lastRaycastTime s)
    (optimizingResets s) (trace s).
Definition set_renderer (v : bool) (s : State) : State :=
  mkState (performanceMonitor s) (lodManager s) (canvas s) v (controls s)
    (earthMesh s) (hoverTracking s) (targetMouse s)
    (isMouseOverEarth s) (targetBulgeStrength s) (lastRaycastTime s)
    (optimizingResets s) (trace s).
Definition set_controls (v : bool) (s : State) : State :=
  mkState (performanceMonitor s) (lodManager s) (canvas s) (renderer s) v
    (earthMesh s) (hoverTracking s) (targetMouse s)
    (isMouseOverEarth s) (targetBulgeStrength s) (lastRaycastTime s)
    (optimizingResets s) (trace s).
Definition set_earthMesh (v : option Mesh) (s : State) : State :=
  mkState (performanceMonitor s) (lodManager s) (canvas s) (renderer s)
    (controls s) v (hoverTracking s) (targetMouse s)
    (isMouseOverEarth s) (targetBulgeStrength s) (lastRaycastTime s)
    (optimizingResets s) (trace s).
Definition set_hoverTracking (v : bool) (s : State) : State :=
  mkState (performanceMonitor s) (lodManager s) (canvas s) (renderer s)
    (controls s) (earthMesh s) v (targetMouse s)
    (isMouseOverEarth s) (targetBulgeStrength s) (lastRaycastTime s)
    (optimizingResets s) (trace s).
Definition set_targetMouse (v : Vector3) (s : State) : State :=
  mkState (performanceMonitor s) (lodManager s) (canvas s) (renderer s)
    (controls s) (earthMesh s) (hoverTracking s) v
    (isMouseOverEarth s) (targetBulgeStrength s) (lastRaycastTime s)
    (optimizingResets s) (trace s).
Definition set_isMouseOverEarth (v : bool) (s : State) : State :=
  mkState (performanceMonitor s) (lodManager s) (canvas s) (renderer s)
    (controls s) (earthMesh s) (hoverTracking s)
    (targetMouse s) v (targetBulgeStrength s) (lastRaycastTime s)
    (optimizingResets s) (trace s).
Definition set_targetBulgeStrength (v : Q) (s : State) : State :=
  mkState (performanceMonitor s) (lodManager s) (canvas s) (renderer s)
    (controls s) (earthMesh s) (hoverTracking s)
    (targetMouse s) (isMouseOverEarth s) v (lastRaycastTime s)
    (optimizingResets s) (trace s).
Definition set_lastRaycastTime (v : Q) (s : State) : State :=
  mkState (performanceMonitor s) (lodManager s) (canvas s) (renderer s)
    (controls s) (earthMesh s) (hoverTracking s)
    (targetMouse s) (isMouseOverEarth s) (targetBulgeStrength s) v
    (optimizingResets s) (trace s).
Definition set_optimizingResets (v : list Q) (s : State) : State :=
  mkState (performanceMonitor s) (lodManager s) (canvas s) (renderer s)
    (controls s) (earthMesh s) (hoverTracking s)
    (targetMouse s) (isMouseOverEarth s) (targetBulgeStrength s)
    (lastRaycastTime s) v (trace s).
Definition emit (e : Effect) (s : State) : State :=
  mkState (performanceMonitor s) (lodManager s) (canvas s) (renderer s)
    (controls s) (earthMesh s) (hoverTracking s)
    (targetMouse s) (isMouseOverEarth s) (targetBulgeStrength s)
    (lastRaycastTime s) (optimizingResets s) (trace s ++ [e]).

(** [a < b] on numbers, as a boolean. *)
Definition Qltb (a b : Q) : bool := negb (Qle_bool b a).

(** *** PerformanceMonitor *)

(** [triggerOptimization], called at time [now]; the reset callback it
    schedules cannot run before [now + 3000]. *)
Definition triggerOptimization (now : Q) (s : State) : State :=
  let pm := performanceMonitor s in
  let s := emit (AutoOptimizationTriggered (currentFPS pm)) s in
  let s := set_performanceMonitor
             (mkPerformanceMonitor (frameCount pm) (lastFPSUpdate pm)
                (currentFPS pm) true) s in
  let s := match meshUniforms (earthMesh s) with
           | Some u =>
               let s := set_earthMesh
                          (writeDiversity (fun v => v * 0.7) (earthMesh s)) s in
               emit (DiversityReduced (uTerrainDiversity u * 0.7)) s
           | None => s
           end in
  set_optimizingResets (optimizingResets s ++ [now + 3000]) s.

(** [PerformanceMonitor.update]; [now] is what [performance.now()]
    returns.  (The memory estimate and the side-panel refresh do not
    touch the state modelled here.) *)
Definition PerformanceMonitor_update (now : Q) (s : State) : State :=
  let pm := performanceMonitor s in
  let frameCount' := (frameCount pm + 1)%Z in
  if Qle_bool 1000 (now - lastFPSUpdate pm) then
    let s := set_performanceMonitor
               (mkPerformanceMonitor 0 now frameCount' (isOptimizing pm)) s in
    if (frameCount' <? 45)%Z && negb (isOptimizing pm)
    then triggerOptimization now s
    else s
  else
    set_performanceMonitor
      (mkPerformanceMonitor frameCount' (lastFPSUpdate pm) (currentFPS pm)
         (isOptimizing pm)) s.

(** The event loop at time [now] runs the reset callbacks that are due. *)
Definition runTimers (now : Q) (s : State) : State :=
  let due := filter (fun t => Qle_bool t now) (optimizingResets s) in
  let later := filter (fun t => negb (Qle_bool t now)) (optimizingResets s) in
  match due with
  | [] => s
  | _ :: _ =>
      let pm := performanceMonitor s in
      set_optimizingResets later
        (set_performanceMonitor
           (mkPerformanceMonitor (frameCount pm) (lastFPSUpdate pm)
              (currentFPS pm) false) s)
  end.

(** What happens to the monitor over time: animation frames and timer
    callbacks, each with the clock value at which it runs. *)
Inductive MonitorEvent :=
| Frame (now : Q)
| Timers (now : Q).

Definition eventTime (e : MonitorEvent) : Q :=
  match e with Frame t => t | Timers t => t end.

Definition monitorStep (s : State) (e : MonitorEvent) : State :=
  match e with
  | Frame now => PerformanceMonitor_update now s
  | Timers now => runTimers now s
  end.

Definition monitorRun (es : list MonitorEvent) (s : State) : State :=
  fold_left monitorStep es s.

(** Number of mitigations recorded in a trace. *)
Fixpoint mitigations (tr : list Effect) : nat :=
  match tr with
  | [] => 0
  | AutoOptimizationTriggered _ :: tr' => S (mitigations tr')
  | _ :: tr' => mitigations tr'
  end.

(** *** LODManager *)

(** The [for (let level of this.lodLevels)] loop with its early return. *)
Fixpoint scanLevels (levels : list LODLevel) (cameraDistance : Q) : option Z :=
  match levels with
  | [] => None
  | level :: rest =>
      if Qle_bool (distance level) cameraDistance
      then Some (vertices level)
      else scanLevels rest cameraDistance
  end.

Definition calculateOptimalLOD (cameraDistance : Q) : Z :=
  match scanLevels lodLevels cameraDistance with
  | Some v => v
  | None => 300%Z
  end.

(** [LODManager.update]; [cameraDistance] is the value of
    [camera.position.distanceTo(earthPosition)]. *)
Definition LODManager_update (cameraDistance : Q) (s : State) : State :=
  let m := lodManager s in
  let target := calculateOptimalLOD cameraDistance in
  if (50 <=? Z.abs (target - currentLOD m))%Z then
    emit (LODUpdate target) (set_lodManager (mkLODManager target target true) s)
  else
    set_lodManager (mkLODManager (currentLOD m) target (needsGeometryUpdate m)) s.

Definition createGeometry (s : State) : Geometry * State :=
  let m := lodManager s in
  let g := mkGeometry 2.75 (currentLOD m) (currentLOD m) in
  (g, set_lodManager (mkLODManager (currentLOD m) (targetLOD m) false)
        (emit (NewSphereGeometry g) s)).

(** The LOD part of one [animate] frame: the update and the geometry
    swap that follows it. *)
Definition animate_LOD (cameraDistance : Q) (s : State) : State :=
  let s := LODManager_update cameraDistance s in
  match earthMesh s with
  | Some mesh =>
      if needsGeometryUpdate (lodManager s) then
        let '(newGeometry, s) := createGeometry s in
        let s := emit (DisposeGeometry (geometry mesh)) s in
        set_earthMesh (Some (mkMesh newGeometry (material mesh))) s
      else s
  | None => s
  end.

(** Number of geometry constructions recorded in a trace. *)
Fixpoint regenerations (tr : list Effect) : nat :=
  match tr with
  | [] => 0
  | NewSphereGeometry _ :: tr' => S (regenerations tr')
  | _ :: tr' => regenerations tr'
  end.

(** *** Hover tracking *)

Definition RAYCAST_THROTTLE : Q := 16.

Section Hover.
(** The scene as the raycaster sees it when the update runs:
    [intersectObject mesh x y] is the list of world-space intersection
    points of the ray through the NDC point [(x, y)], nearest first;
    [worldToLocal] is [group.worldToLocal]; the rectangle is
    [canvas.getBoundingClientRect()]. *)
Variable intersectObject : Mesh -> Q -> Q -> list Vector3.
Variable worldToLocal : Vector3 -> Vector3.
Variables rect_left rect_top rect_width rect_height : Q.

(** [updateHoverPosition]; [currentTime] is [performance.now()]. *)
Definition updateHoverPosition (currentTime clientX clientY : Q)
    (s : State) : State :=
  if Qltb (currentTime - lastRaycastTime s) RAYCAST_THROTTLE then s else
  let s := set_lastRaycastTime currentTime s in
  match earthMesh s with
  | None => s
  | Some mesh =>
      let x := clientX - rect_left in
      let y := clientY - rect_top in
      let ndc_x := (x / rect_width) * 2 - 1 in
      let ndc_y := - (y / rect_height) * 2 + 1 in
      match intersectObject mesh ndc_x ndc_y with
      | intersectionPoint :: _ =>
          let localPoint := worldToLocal intersectionPoint in
          let s := set_targetMouse localPoint s in
          let s := set_targetBulgeStrength 1.0 s in
          let s := set_isMouseOverEarth true s in
          set_earthMesh (writeDiversity (fun _ => 1.5) (earthMesh s)) s
      | [] =>
          let s := set_targetBulgeStrength 0.0 s in
          let s := set_isMouseOverEarth false s in
          set_earthMesh (writeDiversity (fun _ => 1.0) (earthMesh s)) s
      end
  end.

(** Whether the ray of this update hits the earth mesh. *)
Definition rayHits (clientX clientY : Q) (mesh : Mesh) : list Vector3 :=
  intersectObject mesh
    (((clientX - rect_left) / rect_width) * 2 - 1)
    (- ((clientY - rect_top) / rect_height) * 2 + 1).
End Hover.

(** The [mouseleave] listener of [setupHoverTracking]. *)
Definition onMouseLeave (s : State) : State :=
  set_isMouseOverEarth false (set_targetBulgeStrength 0.0 s).

(** *** Initialisation

    [init] is an [async] function whose body is one [try]/[catch].  Its
    steps run in a small state-and-exception monad: a step ends normally,
    throws, or never resumes (an [await] on a promise that never
    settles). *)

Inductive Completion (A : Type) :=
| Normal (a : A)
| Throw (e : JsError)
| Suspended.
Arguments Normal {A} a.
Arguments Throw {A} e.
Arguments Suspended {A}.

Definition M (A : Type) := State -> Completion A * State.

Definition ret {A} (a : A) : M A := fun s => (Normal a, s).
Definition throw {A} (e : JsError) : M A := fun s => (Throw e, s).
Definition modify (f : State -> State) : M unit := fun s => (Normal tt, f s).
Definition bind {A B} (c : M A) (k : A -> M B) : M B :=
  fun s =>
    match c s with
    | (Normal a, s') => k a s'
    | (Throw e, s') => (Throw e, s')
    | (Suspended, s') => (Suspended, s')
    end.
(** [try { body } catch (error) { handler }] *)
Definition try_catch {A} (body : M A) (handler : JsError -> M A) : M A :=
  fun s =>
    match body s with
    | (Throw e, s') => handler e s'
    | r => r
    end.

Declare Scope js_scope.
Delimit Scope js_scope with js.
Notation "x <- c ;; k" := (bind c (fun x => k))
  (at level 61, c at next level, right associativity) : js_scope.
Notation "c ;; k" := (bind c (fun _ => k))
  (at level 61, right associativity) : js_scope.

(** **** Texture loading *)

(** One completion callback of [textureLoader.load]. *)
Inductive LoadEvent := OnLoad | OnError.
Inductive Settlement := Resolved | Rejected.

(** The closure variables of [loadTextures] and the state of its
    promise (a promise settles once; later calls to [resolve] or
    [reject] are ignored). *)
Record Loader := mkLoader
  { loadedCount : nat; hasError : bool; settled : option Settlement }.

Definition totalTextures : nat := 4.

Definition settle (r : Settlement) (l : Loader) : Loader :=
  match settled l with
  | None => mkLoader (loadedCount l) (hasError l) (Some r)
  | Some _ => l
  end.

Definition checkAllLoaded (l : Loader) : Loader :=
  let l := mkLoader (S (loadedCount l)) (hasError l) (settled l) in
  if Nat.eqb (loadedCount l) totalTextures && negb (hasError l)
  then settle Resolved l
  else l.

Definition handleError (l : Loader) : Loader :=
  if negb (hasError l)
  then settle Rejected (mkLoader (loadedCount l) true (settled l))
  else l.

Definition loaderStep (l : Loader) (e : LoadEvent) : Loader :=
  match e with
  | OnLoad => checkAllLoaded l
  | OnError => handleError l
  end.

(** The promise of [loadTextures] after the callbacks [events] have run
    in that order. *)
Definition loadTextures (events : list LoadEvent) : option Settlement :=
  settled (fold_left loaderStep events (mkLoader 0 false None)).

(** **** Mesh creation *)

Definition bulgeRadius : Q := 0.9.
Definition bulgeIntensity : Q := 0.3.

Definition initialUniforms : Uniforms :=
  mkUniforms 0.0 1.2 (mkVector3 0 0 0)
    0.0 bulgeRadius bulgeIntensity
    0.3
    1.0 1.0
    0.7 1.0 1.0
    1.0 1.0
    1.0 1.5
    0.7 1.0
    1.4 1.5 1.3
    1.0 0.0.

(** The fallback mesh of [createBasicEarthMesh]. *)
Definition basicEarthMesh : Mesh :=
  mkMesh (mkGeometry 2.75 200 200) (PointsMaterial 0x4a90e2 1.0).

Definition createBasicEarthMesh : M unit :=
  modify (fun s =>
    let pointsGeometry := geometry basicEarthMesh in
    let s := emit (NewSphereGeometry pointsGeometry) s in
    let s := set_earthMesh (Some basicEarthMesh) s in
    emit (GroupAdd basicEarthMesh) s).

(** What the page and the browser do during one run of [init]. *)
Record Env := mkEnv
  { canvasPresent : nat -> bool;   (* does the n-th [querySelector] find the canvas *)
    webglAvailable : bool;         (* [new THREE.WebGLRenderer] succeeds *)
    shaderMaterialOk : bool;       (* [new THREE.ShaderMaterial] succeeds *)
    textureEvents : list LoadEvent }.

Section Init.
Variable env : Env.
Local Open Scope js_scope.

Definition waitForCanvas (attempt : nat) : M bool :=
  fun s =>
    if canvasPresent env attempt
    then (Normal true, set_canvas true s)
    else (Normal false, s).

(** The [while (!waitForCanvas())] loop after [canvasWaitCount] failed
    attempts.  The 51st failed attempt throws, so [attemptsLeft], which
    is [50 - canvasWaitCount], further failures are tolerated. *)
Fixpoint canvasWaitLoop (attemptsLeft canvasWaitCount : nat) : M unit :=
  found <- waitForCanvas canvasWaitCount ;;
  if found then ret tt else
  match attemptsLeft with
  | O => throw CanvasNotFound
  | S n => canvasWaitLoop n (S canvasWaitCount)
  end.

Definition setupRenderer : M bool :=
  fun s =>
    if negb (canvas s) then (Normal false, s)
    else if webglAvailable env then (Normal true, set_renderer true s)
    else (Throw WebGLUnavailable, s).

Definition setupControls : M bool :=
  fun s =>
    if negb (canvas s) then (Normal false, s)
    else (Normal true, set_controls true s).

(** [await loadTextures()] *)
Definition awaitTextures : M unit :=
  fun s =>
    match loadTextures (textureEvents env) with
    | Some Resolved => (Normal tt, s)
    | Some Rejected => (Throw TextureLoadError, s)
    | None => (Suspended, s)
    end.

Definition createEarthMesh : M unit :=
  pointsGeometry <- (fun s => let '(g, s') := createGeometry s in (Normal g, s')) ;;
  pointsMaterial <- (if shaderMaterialOk env
                     then ret (ShaderMaterial initialUniforms)
                     else throw ShaderMaterialError) ;;
  modify (fun s =>
    let mesh := mkMesh pointsGeometry pointsMaterial in
    let s := set_earthMesh (Some mesh) s in
    let s := emit (GroupAdd mesh) s in
    set_hoverTracking true s).

Definition init : M unit :=
  try_catch
    (canvasWaitLoop 50 0 ;;
     rendererReady <- setupRenderer ;;
     (if rendererReady : bool then ret tt else throw RendererSetupFailed) ;;
     controlsReady <- setupControls ;;
     (if controlsReady : bool then ret tt else throw ControlsSetupFailed) ;;
     awaitTextures ;;
     createEarthMesh ;;
     modify (emit AnimationStarted))
    (fun error =>
       modify (emit (InitializationError error)) ;;
       createBasicEarthMesh).
End Init.

End Script.

(* ------------------------------------------------------------------ *)
(** ** Scenes, event sequences and invariants used in the statements *)

Module ScriptSpec.
Import Script.
Local Open Scope Q_scope.

(** A scene whose earth mesh is the enhanced shader mesh at the initial
    resolution. *)
Definition sceneWithShaderMesh : State :=
  set_earthMesh
    (Some (mkMesh (mkGeometry 2.75 300 300) (ShaderMaterial initialUniforms)))
    initialState.

(** Frames every 22 ms: 44 of them inside the first window. *)
Definition ticks44 : list Q :=
  map (fun k => inject_Z (22 * Z.of_nat k)) (seq 1 44).

(** The same window as a run of 45 frame events, the last at 1000 ms. *)
Definition window45 : list MonitorEvent := map Frame ticks44 ++ [Frame 1000].

(** Frames every 33 ms: 29 of them inside the first window. *)
Definition ticks29 : list Q :=
  map (fun k => inject_Z (33 * Z.of_nat k)) (seq 1 29).

(** The monitor is optimizing and no reset is due before [T]. *)
Definition coolingUntil (T : Q) (s : State) : Prop :=
  isOptimizing (performanceMonitor s) = true /\
  Forall (fun t => T <= t) (optimizingResets s).

(** At most one reset is pending, and none when the monitor is not
    optimizing. *)
Definition monitorInv (s : State) : Prop :=
  (List.length (optimizingResets s) <= 1)%nat /\
  (isOptimizing (performanceMonitor s) = false -> optimizingResets s = []).

(** An environment in which the elevation map fails to load. *)
Definition envTextureFails : Env :=
  mkEnv (fun n => Nat.leb 2 n) true true [OnLoad; OnLoad; OnError; OnLoad].

End ScriptSpec.

(* ------------------------------------------------------------------ *)
(** ** Specification-side definitions for the shaders *)

Module ShaderSpec.
Import Glsl.
Import EnhancedShader.
Local Open Scope R_scope.

(** Stated from the specification: [n] octaves of the base noise, octave
    [i] at frequency [f * 2^i] and amplitude [a^i]. *)
Fixpoint octaveSum (p : vec3) (f a : R) (n : nat) : R :=
  match n with
  | O => 0
  | S i => octaveSum p f a i
           + perlinNoise (scale3 (scale3 p f) (2 ^ i)) * a ^ i
  end.

(** The properties asked of a falloff of degree [k] at radius [r]. *)
Definition falloffSpec (k : nat) (falloff : R -> R -> R) (r : R) : Prop :=
  (forall d, r <= d -> falloff d r = 0) /\
  (forall d, 0 <= d < r -> falloff d r = ((r - d) / r) ^ k) /\
  (forall d1 d2, 0 <= d1 <= d2 -> falloff d2 r <= falloff d1 r) /\
  falloff 0 r = 1 /\
  (forall eps, 0 < eps ->
     exists delta, 0 < delta /\
       forall d, 0 <= d -> r - delta < d < r ->
         Rabs (falloff d r - falloff r r) < eps).

(** A number, or all components of a vector, within [-M, M]. *)
Definition within (M x : R) : Prop := - M <= x <= M.
Definition within3 (M : R) (v : vec3) : Prop :=
  within M (vx v) /\ within M (vy v) /\ within M (vz v).
Definition within4 (M : R) (v : vec4) : Prop :=
  within M (x4 v) /\ within M (y4 v) /\ within M (z4 v) /\ within M (w4 v).

End ShaderSpec.

(* ------------------------------------------------------------------ *)
(** ** enhancedVertex.glsl and enhancedFragment.glsl: terrain
       displacement, lighting and colour adjustment *)

Module EnhancedTerrain.
Import Glsl.
Import EnhancedShader.
Local Open Scope R_scope.

(** [clamp(x, lo, hi) = min(max(x, lo), hi)] *)
Definition clamp (x lo hi : R) : R := Rmin (Rmax x lo) hi.

(** [mix] of two vectors with a scalar weight. *)
Definition mix3 (a b : vec3) (t : R) : vec3 := zip3 (fun x y => mix x y t) a b.
(** vector - scalar *)
Definition subs3 (v : vec3) (s : R) : vec3 := map3 (fun c => c - s) v.

(** Stated for the bounds on fractal noise: [1 + a + ... + a^(n-1)]. *)
Fixpoint geomSum (a : R) (n : nat) : R :=
  match n with
  | O => 0
  | S i => geomSum a i + a ^ i
  end.

Section Uniforms.
Variables uTime uTerrainDiversity uTerrainAnimation : R.
Variables uAmbientLight uDirectionalLight : R.

(** The terrain-specific noise of the [switch (terrainType)]; a type
    outside 0..6 matches no case. *)
Definition terrainNoise (noisePos : vec3) (terrainType : Z) : option R :=
  match terrainType with
  | 0%Z =>
      let waveNoise1 := perlinNoise (scale3 noisePos 6.0) * 0.3 in
      let waveNoise2 := fractalNoise (scale3 noisePos 12.0) 1.0 0.6 4 * 0.15 in
      Some (waveNoise1 + waveNoise2)
  | 1%Z =>
      let mountainNoise1 := perlinNoise (scale3 noisePos 4.0) * 0.6 in
      let mountainNoise2 := fractalNoise (scale3 noisePos 8.0) 1.0 0.5 5 * 0.3 in
      let ridgeNoise := perlinNoise (scale3 noisePos 16.0) * 0.2 in
      Some (mountainNoise1 + mountainNoise2 + ridgeNoise)
  | 2%Z =>
      let forestNoise1 := perlinNoise (scale3 noisePos 3.0) * 0.4 in
      let forestNoise2 := fractalNoise (scale3 noisePos 6.0) 1.0 0.7 3 * 0.25 in
      let treeNoise := perlinNoise (scale3 noisePos 20.0) * 0.15 in
      Some (forestNoise1 + forestNoise2 + treeNoise)
  | 3%Z =>
      let plainsNoise1 := perlinNoise (scale3 noisePos 3.0) * 0.25 in
      let plainsNoise2 := fractalNoise (scale3 noisePos 4.0) 1.0 0.8 2 * 0.15 in
      Some (plainsNoise1 + plainsNoise2)
  | 4%Z =>
      let duneNoise1 := perlinNoise (scale3 noisePos 5.0) * 0.4 in
      let duneNoise2 := fractalNoise (scale3 noisePos 10.0) 1.0 0.6 4 * 0.25 in
      let windNoise := perlinNoise (scale3 noisePos 25.0) * 0.15 in
      Some (duneNoise1 + duneNoise2 + windNoise)
  | 5%Z =>
      let tundraNoise1 := perlinNoise (scale3 noisePos 3.5) * 0.3 in
      let tundraNoise2 := fractalNoise (scale3 noisePos 7.0) 1.0 0.5 3 * 0.2 in
      let iceNoise := perlinNoise (scale3 noisePos 18.0) * 0.1 in
      Some (tundraNoise1 + tundraNoise2 + iceNoise)
  | 6%Z =>
      let canyonNoise1 := perlinNoise (scale3 noisePos 4.5) * 0.8 in
      let canyonNoise2 := fractalNoise (scale3 noisePos 9.0) 1.0 0.4 5 * 0.4 in
      let erosionNoise := perlinNoise (scale3 noisePos 22.0) * 0.25 in
      Some (canyonNoise1 + canyonNoise2 + erosionNoise)
  | _ => None
  end.

Definition calculateEnhancedTerrain (position normal : vec3) (uv : vec2)
    (elevation : R) (terrainType : Z) : vec3 :=
  let displacement := splat3 0.0 in
  let displacement := add3 displacement (scale3 (scale3 normal elevation) 0.8) in
  if Rgt_dec uTerrainDiversity 0.0 then
    let noisePos := adds3 position (uTime * 0.05) in
    let displacement :=
      match terrainNoise noisePos terrainType with
      | Some noise =>
          add3 displacement (scale3 (scale3 normal noise) uTerrainDiversity)
      | None => displacement
      end in
    if Rgt_dec uTerrainAnimation 0.0 then
      let breathingNoise :=
        perlinNoise (adds3 (scale3 noisePos 1.5) (uTime * 0.1)) * 0.15 in
      let atmosphericNoise :=
        fractalNoise (adds3 (scale3 noisePos 2.5) (uTime * 0.08)) 1.0 0.6 2 * 0.1 in
      add3 displacement
        (scale3 (scale3 normal (breathingNoise + atmosphericNoise))
           uTerrainAnimation)
    else displacement
  else displacement.

Definition calculateLighting (position normal : vec3) : R :=
  let lightDirection := normalize3 (Vec3 1.0 1.0 0.5) in
  let directional := Rmax 0.0 (dot3 normal lightDirection) * uDirectionalLight in
  let ambient := uAmbientLight in
  clamp (ambient + directional) 0.0 1.0.
End Uniforms.

(** Colour adjustment functions of the enhanced fragment shader. *)
Definition adjustContrast (color : vec3) (contrast : R) : vec3 :=
  adds3 (scale3 (subs3 color 0.5) contrast) 0.5.

Definition adjustSaturation (color : vec3) (saturation : R) : vec3 :=
  let gray := dot3 color (Vec3 0.299 0.587 0.114) in
  mix3 (splat3 gray) color saturation.

Definition adjustBrightness (color : vec3) (brightness : R) : vec3 :=
  scale3 color brightness.

End EnhancedTerrain.

(* ------------------------------------------------------------------ *)
(** ** script.js / Helpers.js: interpolation helpers

    [lerp] and [smoothInterpolation] use [Math.exp], so they are
    modelled on real numbers. *)

Module Interpolation.
Local Open Scope R_scope.

Definition lerp (start end_ factor : R) : R :=
  start + (end_ - start) * factor.

(** [speed] has the default value 8.0 in the source. *)
Definition smoothInterpolation (current target deltaTime speed : R) : R :=
  let factor := Rmin 1.0 (1.0 - exp (- speed * deltaTime)) in
  lerp current target factor.

(** [deltaTime] of [animate]: the frame interval in seconds, at most
    0.016. *)
Definition frameDeltaTime (currentTime lastTime : R) : R :=
  Rmin ((currentTime - lastTime) * 0.001) 0.016.

(** The smoothing of [bulgeStrength] in one [animate] frame. *)
Definition animate_bulgeStrength (currentTime lastTime : R)
    (bulgeStrength targetBulgeStrength : R) : R :=
  smoothInterpolation bulgeStrength targetBulgeStrength
    (frameDeltaTime currentTime lastTime) 8.0.

(** The clock never goes back from one frame to the next. *)
Fixpoint framesInOrder (lastTime : R) (times : list R) : Prop :=
  match times with
  | [] => True
  | currentTime :: rest =>
      lastTime <= currentTime /\ framesInOrder currentTime rest
  end.

(** [bulgeStrength] after the frames with the given clock values, the
    target staying where it is. *)
Fixpoint bulgeFrames (times : list R) (lastTime bulgeStrength target : R) : R :=
  match times with
  | [] => bulgeStrength
  | currentTime :: rest =>
      bulgeFrames rest currentTime
        (animate_bulgeStrength currentTime lastTime bulgeStrength target)
        target
  end.

End Interpolation.

(* ------------------------------------------------------------------ *)
(** ** script.js: the terrain cache *)

Module TerrainCache.
Local Open Scope Q_scope.

(** An integer in a template literal: its decimal digits, with a
    leading minus sign when negative. *)
Definition showInt (z : Z) : string :=
  DecimalString.NilZero.string_of_int (Z.to_int z).

Definition generateKey (u v terrainDiversity : Q) : string :=
  let uInt := Qround.Qfloor (u * 100) in
  let vInt := Qround.Qfloor (v * 100) in
  let diversityInt := Qround.Qfloor (terrainDiversity * 10) in
  (showInt uInt ++ "_" ++ showInt vInt ++ "_" ++ showInt diversityInt)%string.

Section Cache.
Variable TerrainData : Type.
(** Whether a stored value is truthy in [if (result)]. *)
Variable truthy : TerrainData -> bool.

(** A [Map] with string keys, its entries in insertion order. *)
Definition JsMap := list (string * TerrainData).

Definition mapKeys (m : JsMap) : list string := map fst m.

Definition mapGet (key : string) (m : JsMap) : option TerrainData :=
  option_map snd (find (fun e => String.eqb (fst e) key) m).

(** [Map.set]: an existing key keeps its place, a new one goes last. *)
Fixpoint mapSet (key : string) (data : TerrainData) (m : JsMap) : JsMap :=
  match m with
  | [] => [(key, data)]
  | (k, d) :: rest =>
      if String.eqb k key then (k, data) :: rest
      else (k, d) :: mapSet key data rest
  end.

Definition mapDelete (key : string) (m : JsMap) : JsMap :=
  filter (fun e => negb (String.eqb (fst e) key)) m.

Record EnhancedTerrainCache := mkCache
  { terrainCache : JsMap; cacheSize : Z; cacheHitRate : Q; totalRequests : Z }.

Definition maxCacheSize : Z := 20000.

Definition newCache : EnhancedTerrainCache := mkCache [] 0 0 0.

Definition get (u v terrainDiversity : Q) (c : EnhancedTerrainCache)
    : option TerrainData * EnhancedTerrainCache :=
  let key := generateKey u v terrainDiversity in
  let totalRequests' := (totalRequests c + 1)%Z in
  let result := mapGet key (terrainCache c) in
  let hit := match result with Some r => truthy r | None => false end in
  (result,
   mkCache (terrainCache c) (cacheSize c)
     (if hit then cacheHitRate c * 0.9 + 0.1 else cacheHitRate c)
     totalRequests').

Definition set (u v terrainDiversity : Q) (terrainData : TerrainData)
    (c : EnhancedTerrainCache) : EnhancedTerrainCache :=
  let c :=
    if (maxCacheSize <=? cacheSize c)%Z then
      let keysToDelete := firstn 1000 (mapKeys (terrainCache c)) in
      mkCache (fold_left (fun m key => mapDelete key m) keysToDelete
                 (terrainCache c))
        (cacheSize c - 1000) (cacheHitRate c) (totalRequests c)
    else c in
  let key := generateKey u v terrainDiversity in
  mkCache (mapSet key terrainData (terrainCache c)) (cacheSize c + 1)
    (cacheHitRate c) (totalRequests c).

Definition clear (c : EnhancedTerrainCache) : EnhancedTerrainCache :=
  mkCache [] 0 0 0.

(** Calls on the cache, and a run of them. *)
Inductive CacheOp :=
| OpGet (u v terrainDiversity : Q)
| OpSet (u v terrainDiversity : Q) (terrainData : TerrainData)
| OpClear.

Definition cacheStep (c : EnhancedTerrainCache) (op : CacheOp)
    : EnhancedTerrainCache :=
  match op with
  | OpGet u v d => snd (get u v d c)
  | OpSet u v d data => set u v d data c
  | OpClear => clear c
  end.

Definition cacheRun (ops : list CacheOp) (c : EnhancedTerrainCache)
    : EnhancedTerrainCache :=
  fold_left cacheStep ops c.

(** Keys are unique, the counter is between the number of entries and
    the maximum, and the hit rate is in [0, 1]. *)
Definition cacheInv (c : EnhancedTerrainCache) : Prop :=
  NoDup (mapKeys (terrainCache c)) /\
  (Z.of_nat (List.length (terrainCache c)) <= cacheSize c <= maxCacheSize)%Z /\
  0 <= cacheHitRate c <= 1.

End Cache.

Arguments mapKeys {TerrainData} m.
Arguments mapGet {TerrainData} key m.
Arguments mapSet {TerrainData} key data m.
Arguments mapDelete {TerrainData} key m.
Arguments mkCache {TerrainData} _ _ _ _.
Arguments terrainCache {TerrainData} _.
Arguments cacheSize {TerrainData} _.
Arguments cacheHitRate {TerrainData} _.
Arguments totalRequests {TerrainData} _.
Arguments get {TerrainData} truthy u v terrainDiversity c.
Arguments set {TerrainData} u v terrainDiversity terrainData c.
Arguments clear {TerrainData} c.
Arguments OpGet {TerrainData} u v terrainDiversity.
Arguments OpSet {TerrainData} u v terrainDiversity terrainData.
Arguments OpClear {TerrainData}.
Arguments cacheStep {TerrainData} truthy c op.
Arguments cacheRun {TerrainData} truthy ops c.
Arguments cacheInv {TerrainData} c.

(** The separator of the key parts, and the strings that contain a
    given character. *)
Definition underscore : Ascii.ascii :=
  Ascii.Ascii true true true true true false true false.

Fixpoint hasChar (c : Ascii.ascii) (s : string) : Prop :=
  match s with
  | EmptyString => False
  | String a rest => a = c \/ hasChar c rest
  end.

(** Two sample points fall into the same cell of the key grid. *)
Definition sameCell (u v d u' v' d' : Q) : Prop :=
  Qround.Qfloor (u * 100) = Qround.Qfloor (u' * 100) /\
  Qround.Qfloor (v * 100) = Qround.Qfloor (v' * 100) /\
  Qround.Qfloor (d * 10) = Qround.Qfloor (d' * 10).

End TerrainCache.

(* ------------------------------------------------------------------ *)
(** ** script.js: keyboard controls and reset *)

Module Controls.
Import Script.
Local Open Scope Q_scope.
Local Open Scope bool_scope.

(** [Math.min] and [Math.max] on numbers. *)
Definition jsMin (a b : Q) : Q := if Qle_bool a b then a else b.
Definition jsMax (a b : Q) : Q := if Qle_bool a b then b else a.

Definition set_uTerrainAnimation (v : Q) (u : Uniforms) : Uniforms :=
  mkUniforms (uTime u) (uSize u) (uMouse u)
    (uBulgeStrength u) (uBulgeRadius u) (uBulgeIntensity u)
    (uWaterEffect u)
    (uTerrainDiversity u) v
    (uSnowLine u) (uOceanDepth u) (uForestDensity u)
    (uDesertDunes u) (uMountainSharpness u)
    (uDetailLevel u) (uTerrainDensity u)
    (uAmbientLight u) (uDirectionalLight u)
    (uContrast u) (uBrightness u) (uSaturation u)
    (uLODLevel u) (uSimplifyTerrain u).

Definition set_uContrast (v : Q) (u : Uniforms) : Uniforms :=
  mkUniforms (uTime u) (uSize u) (uMouse u)
    (uBulgeStrength u) (uBulgeRadius u) (uBulgeIntensity u)
    (uWaterEffect u)
    (uTerrainDiversity u) (uTerrainAnimation u)
    (uSnowLine u) (uOceanDepth u) (uForestDensity u)
    (uDesertDunes u) (uMountainSharpness u)
    (uDetailLevel u) (uTerrainDensity u)
    (uAmbientLight u) (uDirectionalLight u)
    v (uBrightness u) (uSaturation u)
    (uLODLevel u) (uSimplifyTerrain u).

Definition set_uBrightness (v : Q) (u : Uniforms) : Uniforms :=
  mkUniforms (uTime u) (uSize u) (uMouse u)
    (uBulgeStrength u) (uBulgeRadius u) (uBulgeIntensity u)
    (uWaterEffect u)
    (uTerrainDiversity u) (uTerrainAnimation u)
    (uSnowLine u) (uOceanDepth u) (uForestDensity u)
    (uDesertDunes u) (uMountainSharpness u)
    (uDetailLevel u) (uTerrainDensity u)
    (uAmbientLight u) (uDirectionalLight u)
    (uContrast u) v (uSaturation u)
    (uLODLevel u) (uSimplifyTerrain u).

(** The uniform assignments of [resetToEnhancedDefaults], in the order
    of the source; the other uniforms keep their values. *)
Definition resetUniforms (u : Uniforms) : Uniforms :=
  mkUniforms (uTime u) (uSize u) (uMouse u)
    (uBulgeStrength u) (uBulgeRadius u) (uBulgeIntensity u)
    (uWaterEffect u)
    1.0 (uTerrainAnimation u)
    0.7 1.0 1.0
    1.0 1.0
    1.0 1.5
    0.7 1.0
    1.4 1.5 1.3
    (uLODLevel u) (uSimplifyTerrain u).

(** An update of the uniforms object of the shader material.  The
    [keydown] listener is installed by [createEarthMesh] with the
    uniforms of the material it has just put on the earth mesh, so the
    object written is the one the mesh carries. *)
Definition writeUniforms (f : Uniforms -> Uniforms) (m : option Mesh)
    : option Mesh :=
  match m with
  | Some mesh =>
      match material mesh with
      | ShaderMaterial u => Some (mkMesh (geometry mesh) (ShaderMaterial (f u)))
      | PointsMaterial _ _ => m
      end
  | None => m
  end.

(** The keys the listener distinguishes, after [toLowerCase]. *)
Inductive Key :=
| KeyT | KeyG | KeyF | KeyB | KeyV | KeyC | KeyX | KeyL
| KeyP | KeyR | KeyH | KeyD | KeyA | KeyOther.

(** [toLowerCase] on the ASCII letters. *)
Definition lowerChar (c : Ascii.ascii) : Ascii.ascii :=
  let n := Ascii.nat_of_ascii c in
  if Nat.leb 65 n && Nat.leb n 90 then Ascii.ascii_of_nat (n + 32) else c.

Fixpoint toLowerCase (s : string) : string :=
  match s with
  | EmptyString => EmptyString
  | String c rest => String (lowerChar c) (toLowerCase rest)
  end.

(** The [switch] on [event.key.toLowerCase()]. *)
Definition keyOf (eventKey : string) : Key :=
  let k := toLowerCase eventKey in
  if String.eqb k "t" then KeyT
  else if String.eqb k "g" then KeyG
  else if String.eqb k "f" then KeyF
  else if String.eqb k "b" then KeyB
  else if String.eqb k "v" then KeyV
  else if String.eqb k "c" then KeyC
  else if String.eqb k "x" then KeyX
  else if String.eqb k "l" then KeyL
  else if String.eqb k "p" then KeyP
  else if String.eqb k "r" then KeyR
  else if String.eqb k "h" then KeyH
  else if String.eqb k "d" then KeyD
  else if String.eqb k "a" then KeyA
  else KeyOther.

Section Page.
(** The values the terrain cache would hold; the script itself never
    stores any. *)
Variable TerrainData : Type.

(** The script state together with the two globals that only the key
    handlers touch. *)
Record Page := mkPage
  { scene : State;
    debugMode : bool;
    terrainCache : TerrainCache.EnhancedTerrainCache TerrainData }.

Definition onScene (f : State -> State) (p : Page) : Page :=
  mkPage (f (scene p)) (debugMode p) (terrainCache p).

Definition onUniforms (f : Uniforms -> Uniforms) (p : Page) : Page :=
  onScene (fun s => set_earthMesh (writeUniforms f (earthMesh s)) s) p.

Definition resetToEnhancedDefaults (p : Page) : Page :=
  let p := onUniforms resetUniforms p in
  let p := onScene (fun s =>
             set_lodManager
               (mkLODManager 300 (targetLOD (lodManager s)) true) s) p in
  mkPage (scene p) (debugMode p) (TerrainCache.clear (terrainCache p)).

(** The [keydown] listener of [setupEnhancedControls] (its console
    output is left out). *)
Definition keydown (key : Key) (p : Page) : Page :=
  match key with
  | KeyT =>
      onUniforms (fun u =>
        let diversity := uTerrainDiversity u in
        set_uTerrainDiversity (if Qltb 0.5 diversity then 0.0 else 1.5) u) p
  | KeyG =>
      onUniforms (fun u =>
        set_uTerrainDiversity (jsMin 1.0 (uTerrainDiversity u + 0.1)) u) p
  | KeyF =>
      onUniforms (fun u =>
        set_uTerrainDiversity (jsMax 0.0 (uTerrainDiversity u - 0.1)) u) p
  | KeyB =>
      onUniforms (fun u =>
        set_uBrightness (jsMin 2.0 (uBrightness u + 0.1)) u) p
  | KeyV =>
      onUniforms (fun u =>
        set_uBrightness (jsMax 0.5 (uBrightness u - 0.1)) u) p
  | KeyC =>
      onUniforms (fun u =>
        set_uContrast (jsMin 2.0 (uContrast u + 0.1)) u) p
  | KeyX =>
      onUniforms (fun u =>
        set_uContrast (jsMax 0.5 (uContrast u - 0.1)) u) p
  | KeyL =>
      onScene (fun s =>
        let currentLOD := currentLOD (lodManager s) in
        let nextLOD := if (300 <=? currentLOD)%Z then 150%Z
                       else if (150 <=? currentLOD)%Z then 100%Z
                       else 300%Z in
        set_lodManager
          (mkLODManager nextLOD (targetLOD (lodManager s)) true) s) p
  | KeyP => p
  | KeyR => resetToEnhancedDefaults p
  | KeyH => p
  | KeyD => mkPage (scene p) (negb (debugMode p)) (terrainCache p)
  | KeyA =>
      onUniforms (fun u =>
        let animation := uTerrainAnimation u in
        set_uTerrainAnimation (if Qltb 0.5 animation then 0.0 else 1.0) u) p
  | KeyOther => p
  end.

(** The monitor and level-of-detail part of one [animate] frame:
    [performanceMonitor.update()] with the clock at [now], then the LOD
    update and the geometry swap. *)
Definition animate_systems (now cameraDistance : Q) (s : State) : State :=
  animate_LOD cameraDistance (PerformanceMonitor_update now s).

Section Events.
Variable intersectObject : Mesh -> Q -> Q -> list Vector3.
Variable worldToLocal : Vector3 -> Vector3.
Variables rect_left rect_top rect_width rect_height : Q.

(** What can happen to the page once the shader mesh is installed. *)
Inductive PageEvent :=
| KeyDown (eventKey : string)
| HoverUpdate (currentTime clientX clientY : Q)
| MouseLeave
| AnimationFrame (now cameraDistance : Q)
| TimersDue (now : Q).

Definition pageStep (p : Page) (e : PageEvent) : Page :=
  match e with
  | KeyDown eventKey => keydown (keyOf eventKey) p
  | HoverUpdate currentTime clientX clientY =>
      onScene (updateHoverPosition intersectObject worldToLocal
                 rect_left rect_top rect_width rect_height
                 currentTime clientX clientY) p
  | MouseLeave => onScene onMouseLeave p
  | AnimationFrame now cameraDistance =>
      onScene (animate_systems now cameraDistance) p
  | TimersDue now => onScene (runTimers now) p
  end.

Definition pageRun (es : list PageEvent) (p : Page) : Page :=
  fold_left pageStep es p.
End Events.
End Page.

Arguments mkPage {TerrainData} _ _ _.
Arguments scene {TerrainData} _.
Arguments debugMode {TerrainData} _.
Arguments terrainCache {TerrainData} _.
Arguments onScene {TerrainData} f p.
Arguments onUniforms {TerrainData} f p.
Arguments resetToEnhancedDefaults {TerrainData} p.
Arguments keydown {TerrainData} key p.
Arguments pageStep {TerrainData} _ _ _ _ _ _ p e.
Arguments pageRun {TerrainData} _ _ _ _ _ _ es p.

End Controls.

(* ------------------------------------------------------------------ *)
(** ** Invariants and outcomes used in the statements about the page *)

Module PageSpec.
Import Script Controls.
Local Open Scope Q_scope.

Definition isError (e : LoadEvent) : bool :=
  match e with OnError => true | OnLoad => false end.


(** A resolution of the level table. *)
Definition onTable (v : Z) : Prop := In v (map vertices lodLevels).

(** The ranges the key handlers keep the adjustable uniforms in. *)
Definition uniformsInRange (u : Uniforms) : Prop :=
  0 <= uTerrainDiversity u <= 1.5 /\
  0.5 <= uBrightness u <= 2 /\
  0.5 <= uContrast u <= 2 /\
  (uTerrainAnimation u = 0.0 \/ uTerrainAnimation u = 1.0).

(** The optimizing flag is set exactly while one reset timer is
    pending. *)
Definition flagMatchesTimer (s : State) : Prop :=
  if isOptimizing (performanceMonitor s)
  then exists t, optimizingResets s = [t]
  else optimizingResets s = [].

(** The earth mesh is a shader mesh with its adjustable uniforms in
    range, the current resolution is one of the table, and the
    optimizing flag matches the pending timer. *)
Definition sceneInv (s : State) : Prop :=
  (exists g u, earthMesh s = Some (mkMesh g (ShaderMaterial u)) /\
               uniformsInRange u) /\
  onTable (currentLOD (lodManager s)) /\
  flagMatchesTimer s.

Definition pageInv {TerrainData} (p : Page TerrainData) : Prop :=
  sceneInv (scene p).

(** An environment in which nothing fails, and the page right after
    [init] has run in it. *)
Definition envAllGood : Env :=
  mkEnv (fun _ => true) true true [OnLoad; OnLoad; OnLoad; OnLoad].

Definition pageAfterInit {TerrainData} : Page TerrainData :=
  mkPage (snd (init envAllGood initialState)) false
    (TerrainCache.newCache TerrainData).

End PageSpec.

(* ------------------------------------------------------------------ *)
(** ** Helpers.js: numeric helpers *)

Module Helpers.
Local Open Scope R_scope.

Definition clamp (value min max : R) : R := Rmin (Rmax value min) max.

Definition degToRad (degrees : R) : R := degrees * (PI / 180).

Definition radToDeg (radians : R) : R := radians * (180 / PI).



End Helpers.

(* ------------------------------------------------------------------ *)
(** ** Helpers.js: throttle and debounce *)

Module Timing.
Local Open Scope Q_scope.

Section Wrappers.
Variables A B : Type.
Variable func : A -> B.
Variable delay : Q.

(** One call of the function returned by [throttle]; [lastCall] is its
    closure variable and [now] the value of [Date.now()].  The call
    returns [undefined] when it is dropped. *)
Definition throttled (now : Q) (args : A) (lastCall : Q) : option B * Q :=
  if Qle_bool delay (now - lastCall)
  then (Some (func args), now)
  else (None, lastCall).

(** Calls at the given clock values, from [lastCall = 0]: the clock
    values and results of the calls that went through. *)
Fixpoint throttledRun (calls : list (Q * A)) (lastCall : Q) : list (Q * B) :=
  match calls with
  | [] => []
  | (now, args) :: rest =>
      match throttled now args lastCall with
      | (Some b, lastCall') => (now, b) :: throttledRun rest lastCall'
      | (None, lastCall') => throttledRun rest lastCall'
      end
  end.

(** The function returned by [debounce]: the pending timer (its due
    time and the arguments it will pass) and the results of the calls
    of [func] made so far. *)
Record Debounced := mkDebounced
  { pending : option (Q * A); results : list B }.

Inductive DebounceEvent :=
| Call (now : Q) (args : A)     (* the debounced function is called *)
| Tick (now : Q).               (* the event loop runs the timers due at [now] *)

Definition debounceStep (d : Debounced) (e : DebounceEvent) : Debounced :=
  match e with
  | Call now args => mkDebounced (Some (now + delay, args)) (results d)
  | Tick now =>
      match pending d with
      | Some (due, args) =>
          if Qle_bool due now
          then mkDebounced None (results d ++ [func args])
          else d
      | None => d
      end
  end.

Definition debounceRun (es : list DebounceEvent) (d : Debounced) : Debounced :=
  fold_left debounceStep es d.
End Wrappers.

Arguments throttled {A B} func delay now args lastCall.
Arguments throttledRun {A B} func delay calls lastCall.
Arguments mkDebounced {A B} _ _.
Arguments pending {A B} _.
Arguments results {A B} _.
Arguments Call {A} now args.
Arguments Tick {A} now.
Arguments debounceStep {A B} func delay d e.
Arguments debounceRun {A B} func delay es d.

(** Consecutive entries of a list of clock values are at least [gap]
    apart. *)
Fixpoint spaced (gap last : Q) (times : list Q) : Prop :=
  match times with
  | [] => True
  | t :: rest => gap <= t - last /\ spaced gap t rest
  end.

End Timing.

(* ------------------------------------------------------------------ *)
(** ** ErrorHandler.js *)

Module ErrorHandling.
Local Open Scope Z_scope.

Record JsErrorObject := mkJsErrorObject { message : string; stack : string }.

Record LogEntry := mkLogEntry
  { timestamp : Z; context : string;
    entryMessage : string; entryStack : string; count : Z }.

Record ErrorHandler := mkErrorHandler
  { errorCount : Z; errorLog : list LogEntry; isSafeMode : bool }.

Definition maxErrors : Z := 5.

Definition newErrorHandler : ErrorHandler := mkErrorHandler 0 [] false.

(** What the handler finds on [window] during one call. *)
Inductive MonitorOnWindow :=
| NoMonitor            (* [window.performanceMonitor] is falsy *)
| DisableReturns       (* its [disable()] returns *)
| DisableThrows.       (* calling [disable] throws *)

Record HandlerEnv := mkHandlerEnv
  { monitorOnWindow : MonitorOnWindow;
    rendererSceneCamera : bool;   (* [window.renderer && window.scene && window.camera] *)
    renderThrows : bool }.        (* [window.renderer.render(...)] throws *)

Inductive Outcome := Returned | Threw.

(** [now] is the value of [Date.now()]. *)
Definition logError (now : Z) (error : JsErrorObject) (ctx : string)
    (h : ErrorHandler) : ErrorHandler :=
  let log := errorLog h ++
             [mkLogEntry now ctx (message error) (stack error) (errorCount h)] in
  let log := if (50 <? Z.of_nat (List.length log)) then tl log else log in
  mkErrorHandler (errorCount h) log (isSafeMode h).

Definition enterSafeMode (env : HandlerEnv) (h : ErrorHandler)
    : Outcome * ErrorHandler :=
  let h := mkErrorHandler (errorCount h) (errorLog h) true in
  match monitorOnWindow env with
  | DisableThrows => (Threw, h)
  | _ => (Returned, h)
  end.

Definition fallbackToBasicGlobe (h : ErrorHandler) : ErrorHandler :=
  mkErrorHandler (errorCount h) (errorLog h) true.

Definition recoverGlobeRendering (env : HandlerEnv) (h : ErrorHandler)
    : ErrorHandler :=
  if rendererSceneCamera env then
    if renderThrows env then fallbackToBasicGlobe h else h
  else h.

(** [attemptRecovery]; the other three recoveries only write to the
    page and the console. *)
Definition attemptRecovery (env : HandlerEnv) (ctx : string)
    (h : ErrorHandler) : ErrorHandler :=
  if String.eqb ctx "Globe Rendering"%string then recoverGlobeRendering env h
  else h.

Definition handle (env : HandlerEnv) (now : Z) (error : JsErrorObject)
    (ctx : string) (h : ErrorHandler) : Outcome * ErrorHandler :=
  let h := mkErrorHandler (errorCount h + 1) (errorLog h) (isSafeMode h) in
  let h := logError now error ctx h in
  let '(o, h) := if maxErrors <? errorCount h
                 then enterSafeMode env h
                 else (Returned, h) in
  match o with
  | Threw => (Threw, h)
  | Returned => (Returned, attemptRecovery env ctx h)
  end.

Definition exitSafeMode (h : ErrorHandler) : ErrorHandler :=
  mkErrorHandler 0 (errorLog h) false.

Definition reset (h : ErrorHandler) : ErrorHandler :=
  mkErrorHandler 0 [] false.

Inductive HandlerCall :=
| Handle (env : HandlerEnv) (now : Z) (error : JsErrorObject) (ctx : string)
| ExitSafeMode
| Reset.

Definition handlerStep (h : ErrorHandler) (c : HandlerCall) : ErrorHandler :=
  match c with
  | Handle env now error ctx => snd (handle env now error ctx h)
  | ExitSafeMode => exitSafeMode h
  | Reset => reset h
  end.

Definition handlerRun (cs : list HandlerCall) (h : ErrorHandler)
    : ErrorHandler :=
  fold_left handlerStep cs h.

(** The entries a run of [handle] calls writes, the first of them with
    count [base + 1]. *)
Fixpoint entriesFrom (base : Z)
    (inputs : list (HandlerEnv * Z * JsErrorObject * string))
    : list LogEntry :=
  match inputs with
  | [] => []
  | (_, now, error, ctx) :: rest =>
      mkLogEntry now ctx (message error) (stack error) (base + 1)
      :: entriesFrom (base + 1) rest
  end.

Definition handleAll
    (inputs : list (HandlerEnv * Z * JsErrorObject * string))
    (h : ErrorHandler) : ErrorHandler :=
  fold_left (fun h i => let '(env, now, error, ctx) := i in
                        snd (handle env now error ctx h)) inputs h.

(** The last [n] elements of a list. *)
Definition lastn {A} (n : nat) (l : list A) : list A :=
  skipn (List.length l - n) l.

(** The log holds at most 50 entries, and the handler is in safe mode
    whenever the counter is above [maxErrors]. *)
Definition handlerInv (h : ErrorHandler) : Prop :=
  (List.length (errorLog h) <= 50)%nat /\
  0 <= errorCount h /\
  (maxErrors < errorCount h -> isSafeMode h = true).

End ErrorHandling.

(* ================================================================== *)
(** * Properties of the driver script *)

Module ScriptProps.
Import Script.
Import ScriptSpec.
Import Lqa.
Local Open Scope Q_scope.

(** ** Comparisons on [Q] as booleans *)

Lemma Qle_bool_true (a b : Q) : Qle_bool a b = true <-> a <= b.
Proof. apply Qle_bool_iff. Qed.

Lemma Qle_bool_false (a b : Q) : Qle_bool a b = false <-> b < a.
Proof.
  split; intro H.
  - apply Qnot_le_lt. intro Hle. apply Qle_bool_iff in Hle. congruence.
  - destruct (Qle_bool a b) eqn:E; [|reflexivity].
    apply Qle_bool_iff in E. exfalso. exact (Qlt_not_le _ _ H E).
Qed.

Lemma Qltb_true (a b : Q) : Qltb a b = true <-> a < b.
Proof.
  unfold Qltb. rewrite negb_true_iff. apply Qle_bool_false.
Qed.

Lemma Qltb_false (a b : Q) : Qltb a b = false <-> b <= a.
Proof.
  unfold Qltb. rewrite negb_false_iff. apply Qle_bool_true.
Qed.

(** Turn boolean comparisons in the context into order facts. *)
Ltac qbool :=
  repeat match goal with
         | H : Qle_bool _ _ = true |- _ => apply Qle_bool_true in H
         | H : Qle_bool _ _ = false |- _ => apply Qle_bool_false in H
         | H : Qltb _ _ = true |- _ => apply Qltb_true in H
         | H : Qltb _ _ = false |- _ => apply Qltb_false in H
         end.

(** ** Level of detail *)

(** The scan returns the first level of the list whose distance is at
    most the camera distance, if there is one. *)
Lemma scanLevels_first (levels : list LODLevel) (d : Q) :
  match scanLevels levels d with
  | Some v =>
      exists pre level post,
        levels = pre ++ level :: post /\
        Forall (fun l => d < distance l) pre /\
        distance level <= d /\ v = vertices level
  | None => Forall (fun l => d < distance l) levels
  end.
Proof.
  induction levels as [|l rest IH]; simpl.
  - constructor.
  - destruct (Qle_bool (distance l) d) eqn:E.
    + exists [], l, rest. repeat split; auto.
      now apply Qle_bool_true.
    + apply Qle_bool_false in E.
      destruct (scanLevels rest d) as [v|].
      * destruct IH as (pre & level & post & -> & Hpre & Hle & ->).
        exists (l :: pre), level, post. repeat split; auto.
      * constructor; assumption.
Qed.

Lemma scanLevels_none (levels : list LODLevel) (d : Q) :
  Forall (fun l => d < distance l) levels -> scanLevels levels d = None.
Proof.
  induction 1 as [|l rest Hl _ IH]; simpl; [reflexivity|].
  apply Qle_bool_false in Hl. now rewrite Hl.
Qed.

(** C4. For every camera distance [d >= 0], [calculateOptimalLOD]
    returns the resolution of the first band of the table
    (15,100), (10,150), (7,200), (0,300) whose minimum distance is at most
    [d]; when no band matches it returns 300; and in the table the
    resolutions strictly increase as the band distance decreases. *)
Theorem calculateOptimalLOD_first_band (d : Q) (Hd : 0 <= d) :
  map (fun l => (distance l, vertices l)) lodLevels
    = [(15, 100%Z); (10, 150%Z); (7, 200%Z); (0, 300%Z)] /\
  (exists pre level post,
      lodLevels = pre ++ level :: post /\
      Forall (fun l => d < distance l) pre /\
      distance level <= d /\
      calculateOptimalLOD d = vertices level) /\
  (forall d', Forall (fun l => d' < distance l) lodLevels ->
      calculateOptimalLOD d' = 300%Z) /\
  (forall i j a b, (i < j)%nat ->
      nth_error lodLevels i = Some a -> nth_error lodLevels j = Some b ->
      distance b < distance a /\ (vertices a < vertices b)%Z).
Proof.
  split; [reflexivity|]. split; [|split].
  - unfold calculateOptimalLOD.
    pose proof (scanLevels_first lodLevels d) as H.
    destruct (scanLevels lodLevels d) as [v|].
    + destruct H as (pre & level & post & E & Hpre & Hle & ->).
      now exists pre, level, post.
    + exfalso.
      assert (Hlast : d < 0).
      { unfold lodLevels in H.
        repeat match goal with
               | H : Forall _ (_ :: _) |- _ => inversion H; subst; clear H
               end.
        assumption. }
      exact (Qlt_not_le _ _ Hlast Hd).
  - intros d' H. unfold calculateOptimalLOD.
    now rewrite (scanLevels_none _ _ H).
  - intros i j a b Hij Ha Hb.
    destruct i as [|[|[|[|i]]]]; simpl in Ha; try discriminate;
      try (destruct i; discriminate);
      destruct j as [|[|[|[|j]]]]; simpl in Hb; try discriminate;
      try (destruct j; discriminate); try lia;
      inversion Ha; inversion Hb; subst; simpl; split;
      try reflexivity.
Qed.

(** The bands of the table, one by one. *)
Lemma calculateOptimalLOD_bands (d : Q) :
  (15 <= d -> calculateOptimalLOD d = 100%Z) /\
  (10 <= d -> d < 15 -> calculateOptimalLOD d = 150%Z) /\
  (7 <= d -> d < 10 -> calculateOptimalLOD d = 200%Z) /\
  (d < 7 -> calculateOptimalLOD d = 300%Z).
Proof.
  unfold calculateOptimalLOD, lodLevels, scanLevels; simpl.
  repeat split; intros;
    destruct (Qle_bool 15 d) eqn:E15; destruct (Qle_bool 10 d) eqn:E10;
    destruct (Qle_bool 7 d) eqn:E7; destruct (Qle_bool 0 d) eqn:E0;
    try reflexivity; exfalso; qbool; lra.
Qed.

Lemma calculateOptimalLOD_first_band_witness :
  0 <= 12 /\
  exists pre level post,
    lodLevels = pre ++ level :: post /\
    Forall (fun l => 12 < distance l) pre /\
    distance level <= 12 /\
    calculateOptimalLOD 12 = vertices level.
Proof.
  assert (H : 0 <= 12) by discriminate.
  split; [exact H|].
  exact (proj1 (proj2 (calculateOptimalLOD_first_band 12 H))).
Defined.

(** The resolutions [calculateOptimalLOD] can return. *)
Lemma calculateOptimalLOD_values (d : Q) :
  In (calculateOptimalLOD d) [100%Z; 150%Z; 200%Z; 300%Z].
Proof.
  unfold calculateOptimalLOD, lodLevels, scanLevels; simpl.
  repeat match goal with
         | |- context [Qle_bool ?a ?b] => destruct (Qle_bool a b)
         end; tauto.
Qed.

Lemma regenerations_app (tr1 tr2 : list Effect) :
  regenerations (tr1 ++ tr2) = (regenerations tr1 + regenerations tr2)%nat.
Proof.
  induction tr1 as [|e tr1 IH]; simpl; [reflexivity|].
  destruct e; simpl; rewrite IH; reflexivity.
Qed.

(** With a current resolution taken from the table, a target that
    differs from it differs by at least the threshold. *)
Lemma hysteresis_on_table (d : Q) (current : Z) :
  In current [100%Z; 150%Z; 200%Z; 300%Z] ->
  (Z.abs (calculateOptimalLOD d - current) < 50)%Z ->
  calculateOptimalLOD d = current.
Proof.
  intros Hc Hlt. pose proof (calculateOptimalLOD_values d) as Ht.
  simpl in Hc, Ht. lia.
Qed.



(** ** Performance monitor *)

Lemma mitigations_app (tr1 tr2 : list Effect) :
  mitigations (tr1 ++ tr2) = (mitigations tr1 + mitigations tr2)%nat.
Proof.
  induction tr1 as [|e tr1 IH]; simpl; [reflexivity|].
  destruct e; simpl; rewrite IH; reflexivity.
Qed.

Lemma meshUniforms_writeDiversity (f : Q -> Q) (m : option Mesh) :
  meshUniforms (writeDiversity f m)
  = option_map (fun u => set_uTerrainDiversity (f (uTerrainDiversity u)) u)
      (meshUniforms m).
Proof.
  destruct m as [[g [u|c sz]]|]; reflexivity.
Qed.

(** A frame that does not close the one-second window only counts. *)
Lemma update_inside_window (now : Q) (s : State) :
  now - lastFPSUpdate (performanceMonitor s) < 1000 ->
  PerformanceMonitor_update now s
  = set_performanceMonitor
      (mkPerformanceMonitor (frameCount (performanceMonitor s) + 1)
         (lastFPSUpdate (performanceMonitor s))
         (currentFPS (performanceMonitor s))
         (isOptimizing (performanceMonitor s))) s.
Proof.
  intros H. unfold PerformanceMonitor_update.
  apply Qle_bool_false in H. now rewrite H.
Qed.

Lemma frames_inside_window (ts : list Q) (s : State) :
  Forall (fun t => t - lastFPSUpdate (performanceMonitor s) < 1000) ts ->
  monitorRun (map Frame ts) s
  = set_performanceMonitor
      (mkPerformanceMonitor
         (frameCount (performanceMonitor s) + Z.of_nat (List.length ts))
         (lastFPSUpdate (performanceMonitor s))
         (currentFPS (performanceMonitor s))
         (isOptimizing (performanceMonitor s))) s.
Proof.
  revert s. induction ts as [|t ts IH]; intros s H.
  - simpl. rewrite Z.add_0_r. destruct s as [[] ?]; reflexivity.
  - inversion H as [|? ? Ht Hts]; subst.
    unfold monitorRun in *. cbn [map fold_left monitorStep].
    rewrite (update_inside_window _ _ Ht).
    rewrite IH by exact Hts. cbn.
    replace (frameCount (performanceMonitor s) + 1 + Z.of_nat (List.length ts))%Z
      with (frameCount (performanceMonitor s) + Z.pos (Pos.of_succ_nat (List.length ts)))%Z
      by lia.
    reflexivity.
Qed.

Lemma no_reset_due (T now : Q) (l : list Q) :
  Forall (fun t => T <= t) l -> now < T ->
  filter (fun t => Qle_bool t now) l = [].
Proof.
  intros H Hnow. induction H as [|t l Ht _ IH]; simpl; [reflexivity|].
  assert (E : Qle_bool t now = false) by (apply Qle_bool_false; lra).
  now rewrite E.
Qed.

Lemma cooldown_step (T : Q) (s : State) (e : MonitorEvent) :
  coolingUntil T s -> eventTime e < T ->
  coolingUntil T (monitorStep s e) /\
  trace (monitorStep s e) = trace s /\
  earthMesh (monitorStep s e) = earthMesh s.
Proof.
  intros [Hopt Hres] He. destruct e as [now|now]; simpl in *.
  - unfold PerformanceMonitor_update. rewrite Hopt.
    rewrite andb_false_r.
    destruct (Qle_bool 1000 (now - lastFPSUpdate (performanceMonitor s)));
      (split; [split; [reflexivity|exact Hres]|split; reflexivity]).
  - unfold runTimers. rewrite (no_reset_due T now _ Hres He).
    split; [split; assumption|split; reflexivity].
Qed.

Lemma cooldown_run (T : Q) (es : list MonitorEvent) (s : State) :
  coolingUntil T s -> Forall (fun e => eventTime e < T) es ->
  coolingUntil T (monitorRun es s) /\
  trace (monitorRun es s) = trace s /\
  earthMesh (monitorRun es s) = earthMesh s.
Proof.
  revert s. induction es as [|e es IH]; intros s Hc Hes.
  - repeat split; apply Hc.
  - inversion Hes as [|? ? He Hes']; subst.
    destruct (cooldown_step T s e Hc He) as (Hc' & Htr & Hm).
    destruct (IH _ Hc' Hes') as (Hc'' & Htr' & Hm').
    unfold monitorRun in *. simpl.
    split; [exact Hc''|]. split; congruence.
Qed.

(** The frame that closes a window, written out. *)
Lemma update_closing_window (now : Q) (s : State) :
  1000 <= now - lastFPSUpdate (performanceMonitor s) ->
  let pm := performanceMonitor s in
  let fps := (frameCount pm + 1)%Z in
  let s0 := set_performanceMonitor
              (mkPerformanceMonitor 0 now fps (isOptimizing pm)) s in
  PerformanceMonitor_update now s
  = if (fps <? 45)%Z && negb (isOptimizing pm)
    then triggerOptimization now s0 else s0.
Proof.
  intros H. unfold PerformanceMonitor_update.
  apply Qle_bool_true in H. now rewrite H.
Qed.

Lemma writeDiversity_no_uniforms (f : Q -> Q) (m : option Mesh) :
  meshUniforms m = None -> writeDiversity f m = m.
Proof.
  destruct m as [[g [u|c sz]]|]; simpl; intros H; congruence.
Qed.

(** What one call of [triggerOptimization] does. *)
Lemma triggerOptimization_effects (now : Q) (s : State) :
  let pm := performanceMonitor s in
  let s' := triggerOptimization now s in
  performanceMonitor s'
    = mkPerformanceMonitor (frameCount pm) (lastFPSUpdate pm) (currentFPS pm) true /\
  optimizingResets s' = optimizingResets s ++ [now + 3000] /\
  earthMesh s' = writeDiversity (fun v => v * 0.7) (earthMesh s) /\
  mitigations (trace s') = S (mitigations (trace s)).
Proof.
  intros pm s'. subst s'. unfold triggerOptimization.
  cbn [performanceMonitor set_performanceMonitor emit earthMesh].
  destruct (meshUniforms (earthMesh s)) as [u|] eqn:Hu; cbn;
    rewrite !mitigations_app; cbn.
  - repeat split; lia.
  - rewrite (writeDiversity_no_uniforms _ _ Hu). repeat split; lia.
Qed.

Lemma triggerOptimization_lastRaycastTime (now : Q) (s : State) :
  lastRaycastTime (triggerOptimization now s) = lastRaycastTime s.
Proof.
  unfold triggerOptimization.
  cbn [performanceMonitor set_performanceMonitor emit earthMesh].
  destruct (meshUniforms (earthMesh s)); reflexivity.
Qed.

(** C6 (amended). A one-second window is [ts] frames inside the window
    followed by the frame at [tlast] that closes it.  The monitor then
    reports the number of frames of the window as the FPS.  With 45
    frames or more no mitigation is triggered.  With fewer than 45 and no
    mitigation in cooldown, exactly one mitigation is triggered, the
    terrain diversity is multiplied by 0.7, and whatever happens before
    the 3000 ms cooldown has elapsed triggers no further mitigation.
    With fewer than 45 frames during a cooldown nothing is triggered. *)
Theorem monitor_window_mitigation (s : State) (ts : list Q) (tlast : Q)
    (Hin : Forall (fun t => t - lastFPSUpdate (performanceMonitor s) < 1000) ts)
    (Hclose : 1000 <= tlast - lastFPSUpdate (performanceMonitor s)) :
  let pm := performanceMonitor s in
  let fps := (frameCount pm + Z.of_nat (List.length ts) + 1)%Z in
  let s' := monitorRun (map Frame ts ++ [Frame tlast]) s in
  currentFPS (performanceMonitor s') = fps /\
  ((45 <= fps)%Z ->
     trace s' = trace s /\ earthMesh s' = earthMesh s /\
     isOptimizing (performanceMonitor s') = isOptimizing pm /\
     optimizingResets s' = optimizingResets s) /\
  ((fps < 45)%Z -> isOptimizing pm = false -> optimizingResets s = [] ->
     mitigations (trace s') = S (mitigations (trace s)) /\
     isOptimizing (performanceMonitor s') = true /\
     meshUniforms (earthMesh s')
       = option_map (fun u => set_uTerrainDiversity (uTerrainDiversity u * 0.7) u)
           (meshUniforms (earthMesh s)) /\
     forall es, Forall (fun e => eventTime e < tlast + 3000) es ->
       mitigations (trace (monitorRun es s')) = mitigations (trace s') /\
       earthMesh (monitorRun es s') = earthMesh s') /\
  ((fps < 45)%Z -> isOptimizing pm = true ->
     trace s' = trace s /\ earthMesh s' = earthMesh s).
Proof.
  intros pm fps s'. subst s'. unfold monitorRun.
  rewrite fold_left_app. fold (monitorRun (map Frame ts) s).
  rewrite (frames_inside_window ts s Hin). fold pm.
  cbn [fold_left monitorStep].
  rewrite update_closing_window by exact Hclose.
  cbn [performanceMonitor set_performanceMonitor frameCount isOptimizing
       lastFPSUpdate currentFPS].
  fold fps.
  destruct (fps <? 45)%Z eqn:E.
  - apply Z.ltb_lt in E.
    destruct (isOptimizing pm) eqn:Hopt; cbn [negb andb].
    + split; [reflexivity|]. split; [lia|]. split; [discriminate|].
      intros _ _. split; reflexivity.
    + match goal with
      | |- context [triggerOptimization tlast ?st] =>
          set (s0 := st);
          destruct (triggerOptimization_effects tlast s0)
            as (Hpm & Hres & Hmesh & Hmit)
      end.
      rewrite Hpm. split; [reflexivity|]. split; [lia|]. split; [|discriminate].
      intros _ _ Hnone.
      split; [exact Hmit|]. split; [reflexivity|].
      split; [rewrite Hmesh; apply meshUniforms_writeDiversity|].
      intros es Hes.
      destruct (cooldown_run (tlast + 3000) es (triggerOptimization tlast s0))
        as (_ & Htr & Hm); [|exact Hes|].
      * split; [rewrite Hpm; reflexivity|].
        rewrite Hres. subst s0. cbn. rewrite Hnone.
        repeat constructor. lra.
      * unfold monitorRun in Htr, Hm. rewrite Htr, Hm. split; reflexivity.
  - apply Z.ltb_ge in E. cbn [andb].
    split; [reflexivity|]. split; [|split; intros; lia].
    intros _. repeat split.
Qed.

Lemma ticks44_inside : Forall (fun t => t - 0 < 1000) ticks44.
Proof.
  apply Forall_forall. intros t Ht.
  unfold ticks44 in Ht. apply in_map_iff in Ht.
  destruct Ht as (k & <- & Hk). apply in_seq in Hk.
  unfold Qlt. cbn -[Z.mul Z.add Z.of_nat]. lia.
Qed.

Lemma ticks29_inside : Forall (fun t => t - 0 < 1000) ticks29.
Proof.
  apply Forall_forall. intros t Ht.
  unfold ticks29 in Ht. apply in_map_iff in Ht.
  destruct Ht as (k & <- & Hk). apply in_seq in Hk.
  unfold Qlt. cbn -[Z.mul Z.add Z.of_nat]. lia.
Qed.

Lemma monitor_window_mitigation_witness :
  (let s' := monitorRun (map Frame ticks44 ++ [Frame 1000]) sceneWithShaderMesh in
   currentFPS (performanceMonitor s') = 45%Z /\
   trace s' = [] /\
   earthMesh s' = earthMesh sceneWithShaderMesh) /\
  (let s' := monitorRun (map Frame ticks29 ++ [Frame 1000]) sceneWithShaderMesh in
   currentFPS (performanceMonitor s') = 30%Z /\
   mitigations (trace s') = 1%nat /\
   option_map uTerrainDiversity (meshUniforms (earthMesh s')) = Some (1.0 * 0.7) /\
   mitigations (trace (monitorRun [Frame 1500; Frame 2100; Timers 3900] s')) = 1%nat).
Proof.
  assert (Hclose : 1000 <= 1000 - 0) by discriminate.
  pose proof (monitor_window_mitigation sceneWithShaderMesh ticks44 1000
                ticks44_inside Hclose) as H.
  pose proof (monitor_window_mitigation sceneWithShaderMesh ticks29 1000
                ticks29_inside Hclose) as H'.
  cbv zeta in H, H'.
  destruct H as (Hfps & Hge & _). destruct H' as (Hfps' & _ & Hlt & _).
  assert (L : (45 <= frameCount (performanceMonitor sceneWithShaderMesh)
                 + Z.of_nat (List.length ticks44) + 1)%Z)
    by (vm_compute; discriminate).
  assert (L' : (frameCount (performanceMonitor sceneWithShaderMesh)
                 + Z.of_nat (List.length ticks29) + 1 < 45)%Z)
    by (vm_compute; reflexivity).
  destruct (Hge L) as (Htr & Hm & _).
  destruct (Hlt L' eq_refl eq_refl) as (Hmit & _ & Hdiv & Hcool).
  assert (Hes : Forall (fun e => eventTime e < 1000 + 3000)
                  [Frame 1500; Frame 2100; Timers 3900])
    by (repeat constructor).
  destruct (Hcool _ Hes) as (Hmit' & _).
  split.
  - split; [exact Hfps|]. split; [exact Htr|exact Hm].
  - split; [exact Hfps'|]. split; [exact Hmit|].
    split; [rewrite Hdiv; reflexivity|].
    rewrite Hmit'. exact Hmit.
Defined.

(** C6 as stated fails: after a window of exactly 45 frames, with no
    mitigation in cooldown, the monitor reports 45 but triggers no
    mitigation and leaves the terrain diversity at 1.0. *)
Lemma fps45_triggers_no_mitigation :
  let s := sceneWithShaderMesh in
  let s' := monitorRun window45 s in
  List.length window45 = 45%nat /\
  isOptimizing (performanceMonitor s) = false /\
  optimizingResets s = [] /\
  currentFPS (performanceMonitor s') = 45%Z /\
  mitigations (trace s') <> 1%nat /\
  option_map uTerrainDiversity (meshUniforms (earthMesh s')) = Some 1.0 /\
  option_map uTerrainDiversity (meshUniforms (earthMesh s)) = Some 1.0.
Proof.
  vm_compute. repeat split; discriminate.
Qed.

Lemma monitorInv_step (s : State) (e : MonitorEvent) :
  monitorInv s -> monitorInv (monitorStep s e).
Proof.
  intros [Hlen Hnone]. destruct e as [now|now]; simpl.
  - unfold PerformanceMonitor_update.
    destruct (Qle_bool 1000 (now - lastFPSUpdate (performanceMonitor s)));
      [|split; assumption].
    destruct ((frameCount (performanceMonitor s) + 1 <? 45)%Z
              && negb (isOptimizing (performanceMonitor s))) eqn:E;
      [|split; assumption].
    apply andb_true_iff in E. destruct E as [_ E].
    apply negb_true_iff in E.
    match goal with
    | |- monitorInv (triggerOptimization now ?st) =>
        destruct (triggerOptimization_effects now st) as (Hpm & Hres & _)
    end.
    unfold monitorInv. rewrite Hpm, Hres. cbn. rewrite (Hnone E).
    split; [simpl; lia|discriminate].
  - unfold runTimers.
    destruct (optimizingResets s) as [|t [|t' l]] eqn:El;
      [| |simpl in Hlen; lia].
    + simpl. unfold monitorInv. rewrite El. split; [simpl; lia|auto].
    + simpl. destruct (Qle_bool t now); simpl.
      * split; [simpl; lia|reflexivity].
      * unfold monitorInv. rewrite El. split; [simpl; lia|exact Hnone].
Qed.

Lemma monitorInv_reachable (es : list MonitorEvent) :
  monitorInv (monitorRun es initialState).
Proof.
  assert (H0 : monitorInv initialState) by (split; [simpl; lia|reflexivity]).
  revert H0. generalize initialState. unfold monitorRun.
  induction es as [|e es IH]; intros s Hs; simpl; [exact Hs|].
  apply IH. now apply monitorInv_step.
Qed.

(** ** Hover tracking *)

Section HoverProps.
Variable intersectObject : Mesh -> Q -> Q -> list Vector3.
Variable worldToLocal : Vector3 -> Vector3.
Variables rect_left rect_top rect_width rect_height : Q.

Let hover := updateHoverPosition intersectObject worldToLocal
               rect_left rect_top rect_width rect_height.
Let hits := rayHits intersectObject rect_left rect_top rect_width rect_height.

(** An update inside the throttle interval is discarded. *)
Lemma hover_throttled (currentTime clientX clientY : Q) (s : State) :
  currentTime - lastRaycastTime s < RAYCAST_THROTTLE ->
  hover currentTime clientX clientY s = s.
Proof.
  intros H. unfold hover, updateHoverPosition.
  apply Qltb_true in H. now rewrite H.
Qed.

(** C7. For every hover update that the throttle lets through: if the
    ray hits the earth mesh the target bulge strength becomes 1.0 and
    the target pointer position becomes the local-space image of the
    nearest intersection point; if it does not hit, the target bulge
    strength becomes 0.0; and every pointer-leave event sets the target
    bulge strength to 0.0. *)
Theorem hover_sets_targets (currentTime clientX clientY : Q)
    (s : State) (mesh : Mesh)
    (Hthrottle : RAYCAST_THROTTLE <= currentTime - lastRaycastTime s)
    (Hmesh : earthMesh s = Some mesh) :
  let s' := hover currentTime clientX clientY s in
  (forall p rest, hits clientX clientY mesh = p :: rest ->
     targetBulgeStrength s' = 1.0 /\
     targetMouse s' = worldToLocal p /\
     isMouseOverEarth s' = true) /\
  (hits clientX clientY mesh = [] ->
     targetBulgeStrength s' = 0.0 /\
     isMouseOverEarth s' = false /\
     targetMouse s' = targetMouse s) /\
  (forall s0, targetBulgeStrength (onMouseLeave s0) = 0.0 /\
              isMouseOverEarth (onMouseLeave s0) = false).
Proof.
  intros s'. subst s'. unfold hover, hits, rayHits, updateHoverPosition.
  apply Qltb_false in Hthrottle. rewrite Hthrottle.
  cbn [earthMesh set_lastRaycastTime]. rewrite Hmesh.
  split; [|split].
  - intros p rest Hp. rewrite Hp. repeat split.
  - intros Hp. rewrite Hp. repeat split.
  - intros s0. split; reflexivity.
Qed.

(** C10. Every hover update that the throttle lets through overwrites
    the terrain-diversity uniform: with 1.5 when the ray hits the earth
    mesh and with 1.0 when it does not, whatever the value was; in
    particular the value left by a mitigation of the performance
    monitor (the old value times 0.7) is gone after the next hover
    update. *)
Theorem hover_overwrites_diversity (currentTime clientX clientY : Q)
    (s : State) (mesh : Mesh) (u : Uniforms)
    (Hthrottle : RAYCAST_THROTTLE <= currentTime - lastRaycastTime s)
    (Hmesh : earthMesh s = Some mesh)
    (Hu : material mesh = ShaderMaterial u) :
  let diversity st := option_map uTerrainDiversity (meshUniforms (earthMesh st)) in
  let s' := hover currentTime clientX clientY s in
  (hits clientX clientY mesh <> [] -> diversity s' = Some 1.5) /\
  (hits clientX clientY mesh = [] -> diversity s' = Some 1.0) /\
  forall now,
    let sm := triggerOptimization now s in
    let mesh' := mkMesh (geometry mesh)
                   (ShaderMaterial
                      (set_uTerrainDiversity (uTerrainDiversity u * 0.7) u)) in
    let sm' := hover currentTime clientX clientY sm in
    earthMesh sm = Some mesh' /\
    diversity sm = Some (uTerrainDiversity u * 0.7) /\
    (hits clientX clientY mesh' <> [] -> diversity sm' = Some 1.5) /\
    (hits clientX clientY mesh' = [] -> diversity sm' = Some 1.0).
Proof.
  assert (G : forall st m v,
             RAYCAST_THROTTLE <= currentTime - lastRaycastTime st ->
             earthMesh st = Some m -> material m = ShaderMaterial v ->
             let d x := option_map uTerrainDiversity (meshUniforms (earthMesh x)) in
             (hits clientX clientY m <> [] ->
                d (hover currentTime clientX clientY st) = Some 1.5) /\
             (hits clientX clientY m = [] ->
                d (hover currentTime clientX clientY st) = Some 1.0)).
  { intros st m v Ht Hm Hv d. subst d.
    unfold hover, hits, rayHits, updateHoverPosition.
    apply Qltb_false in Ht. rewrite Ht.
    cbn [earthMesh set_lastRaycastTime]. rewrite Hm.
    split; intros Hp.
    - destruct (intersectObject m _ _) as [|p rest]; [congruence|].
      cbn. rewrite Hm. cbn. rewrite Hv. reflexivity.
    - rewrite Hp. cbn. rewrite Hm. cbn. rewrite Hv. reflexivity. }
  intros diversity s'. subst s'.
  destruct (G s mesh u Hthrottle Hmesh Hu) as [G1 G2].
  split; [exact G1|]. split; [exact G2|].
  intros now sm mesh' sm'. subst sm'.
  destruct (triggerOptimization_effects now s) as (_ & _ & Hm' & _).
  fold sm in Hm'.
  assert (Em : earthMesh sm = Some mesh').
  { rewrite Hm', Hmesh. simpl. rewrite Hu. reflexivity. }
  assert (Et : RAYCAST_THROTTLE <= currentTime - lastRaycastTime sm).
  { subst sm. rewrite triggerOptimization_lastRaycastTime. exact Hthrottle. }
  destruct (G sm mesh' _ Et Em eq_refl) as [G1' G2'].
  split; [exact Em|]. split; [|split; assumption].
  unfold diversity. rewrite Em. reflexivity.
Qed.
End HoverProps.

Lemma hover_sets_targets_witness :
  let hit := fun (_ : Mesh) (_ _ : Q) => [mkVector3 1 2 3; mkVector3 4 5 6] in
  let miss := fun (_ : Mesh) (_ _ : Q) => @nil Vector3 in
  let toLocal := fun p => mkVector3 (px p - 1) (py p) (pz p) in
  let s1 := updateHoverPosition hit toLocal 0 0 500 500 100 250 250
              sceneWithShaderMesh in
  let s2 := updateHoverPosition miss toLocal 0 0 500 500 120 900 900 s1 in
  (targetBulgeStrength s1 = 1.0 /\ targetMouse s1 = mkVector3 (1 - 1) 2 3) /\
  targetBulgeStrength s2 = 0.0.
Proof.
  intros hit miss toLocal s1 s2.
  assert (T1 : RAYCAST_THROTTLE <= 100 - lastRaycastTime sceneWithShaderMesh)
    by discriminate.
  assert (T2 : RAYCAST_THROTTLE <= 120 - lastRaycastTime s1) by discriminate.
  destruct (hover_sets_targets hit toLocal 0 0 500 500 100 250 250
              sceneWithShaderMesh _ T1 eq_refl) as (H1 & _ & _).
  destruct (hover_sets_targets miss toLocal 0 0 500 500 120 900 900
              s1 _ T2 eq_refl) as (_ & H2 & _).
  destruct (H1 _ _ eq_refl) as (Ha & Hb & _).
  destruct (H2 eq_refl) as (Hc & _).
  split; [split; [exact Ha|exact Hb]|exact Hc].
Defined.

Lemma hover_overwrites_diversity_witness :
  let hit := fun (_ : Mesh) (_ _ : Q) => [mkVector3 1 2 3] in
  let toLocal := fun p : Vector3 => p in
  let diversity st := option_map uTerrainDiversity (meshUniforms (earthMesh st)) in
  let sm := triggerOptimization 1000 sceneWithShaderMesh in
  diversity sm = Some (1.0 * 0.7) /\
  diversity (updateHoverPosition hit toLocal 0 0 500 500 1010 250 250 sm)
    = Some 1.5.
Proof.
  intros hit toLocal diversity sm.
  assert (T : RAYCAST_THROTTLE <= 1010 - lastRaycastTime sceneWithShaderMesh)
    by discriminate.
  destruct (hover_overwrites_diversity hit toLocal 0 0 500 500 1010 250 250
              sceneWithShaderMesh _ initialUniforms T eq_refl eq_refl)
    as (_ & _ & H).
  destruct (H 1000) as (_ & Hd & Hhit & _).
  split; [exact Hd|].
  apply Hhit. discriminate.
Defined.

(** ** Initialisation *)

(** Once settled, the promise keeps its outcome. *)
Lemma settled_sticky (es : list LoadEvent) (l : Loader) (r : Settlement) :
  settled l = Some r -> settled (fold_left loaderStep es l) = Some r.
Proof.
  revert l. induction es as [|e es IH]; intros l H; simpl; [exact H|].
  apply IH. destruct e; simpl.
  - unfold checkAllLoaded, settle; simpl.
    destruct (_ && _); simpl; rewrite ?H; simpl; auto.
  - unfold handleError, settle; simpl.
    destruct (negb (hasError l)); simpl; rewrite ?H; simpl; auto.
Qed.

Lemma loader_rejects (es : list LoadEvent) (n : nat) :
  In OnError es -> (n + List.length es <= totalTextures)%nat ->
  settled (fold_left loaderStep es (mkLoader n false None)) = Some Rejected.
Proof.
  revert n. induction es as [|e es IH]; intros n Hin Hlen; [destruct Hin|].
  cbn [List.length] in Hlen.
  destruct e; cbn [fold_left loaderStep].
  - destruct Hin as [Hin|Hin]; [discriminate|].
    assert (Hpos : (1 <= List.length es)%nat)
      by (destruct es; [destruct Hin|simpl; lia]).
    unfold checkAllLoaded. cbn [loadedCount hasError settled].
    replace (Nat.eqb (S n) totalTextures) with false
      by (symmetry; apply Nat.eqb_neq; lia).
    cbn [andb]. apply IH; [exact Hin|lia].
  - apply settled_sticky. reflexivity.
Qed.

(** If any of the (at most four) texture callbacks is an error, the
    promise of [loadTextures] is rejected. *)
Lemma loadTextures_rejected (es : list LoadEvent) :
  In OnError es -> (List.length es <= totalTextures)%nat ->
  loadTextures es = Some Rejected.
Proof.
  intros Hin Hlen. unfold loadTextures. now apply loader_rejects.
Qed.

(** The wait loop either finds the canvas or throws; it changes nothing
    else. *)
Lemma canvasWaitLoop_outcome (env : Env) (n c : nat) (s : State) :
  canvasWaitLoop env n c s = (Normal tt, set_canvas true s) \/
  canvasWaitLoop env n c s = (Throw CanvasNotFound, s).
Proof.
  revert c. induction n as [|n IH]; intros c; simpl;
    unfold bind, waitForCanvas; destruct (canvasPresent env c); auto.
Qed.

Lemma canvasWaitLoop_found (env : Env) (n c k : nat) (s : State) :
  (c <= k <= c + n)%nat -> canvasPresent env k = true ->
  canvasWaitLoop env n c s = (Normal tt, set_canvas true s).
Proof.
  revert c. induction n as [|n IH]; intros c Hk Hp; simpl;
    unfold bind, waitForCanvas.
  - replace c with k by lia. now rewrite Hp.
  - destruct (canvasPresent env c) eqn:E; [reflexivity|].
    apply IH; [|exact Hp].
    assert (k <> c) by congruence. lia.
Qed.

(** C9. If any required texture fails to load, [init] does not end with
    an exception: it returns normally, and when it returns the earth
    mesh is the fallback sphere (radius 2.75, 200 x 200 segments, lower
    than the 300 of the primary path) with a points material that has no
    uniforms; the animation loop is not started.  When the canvas and
    the renderer were available the error that was caught is the texture
    error. *)
Theorem init_texture_failure_fallback (env : Env) (s : State)
    (Herr : In OnError (textureEvents env))
    (Hlen : (List.length (textureEvents env) <= totalTextures)%nat) :
  exists e s',
    init env s = (Normal tt, s') /\
    earthMesh s' = Some basicEarthMesh /\
    meshUniforms (earthMesh s') = None /\
    geometry basicEarthMesh = mkGeometry 2.75 200 200 /\
    (widthSegments (geometry basicEarthMesh) < currentLOD new_LODManager)%Z /\
    trace s' = trace s ++ [InitializationError e;
                           NewSphereGeometry (geometry basicEarthMesh);
                           GroupAdd basicEarthMesh] /\
    ((exists k, (k <= 50)%nat /\ canvasPresent env k = true) ->
     webglAvailable env = true -> e = TextureLoadError).
Proof.
  pose proof (loadTextures_rejected _ Herr Hlen) as Hrej.
  pose (fallback := fun (e : JsError) (s1 : State) =>
          emit (GroupAdd basicEarthMesh)
            (set_earthMesh (Some basicEarthMesh)
               (emit (NewSphereGeometry (geometry basicEarthMesh))
                  (emit (InitializationError e) s1)))).
  assert (Htrace : forall e s1, trace s1 = trace s ->
            trace (fallback e s1)
            = trace s ++ [InitializationError e;
                          NewSphereGeometry (geometry basicEarthMesh);
                          GroupAdd basicEarthMesh]).
  { intros e s1 H1. unfold fallback. cbn [trace emit set_earthMesh].
    rewrite H1, <- !app_assoc. reflexivity. }
  unfold init, try_catch, bind.
  destruct (canvasWaitLoop_outcome env 50 0 s) as [E|E].
  - destruct (webglAvailable env) eqn:Ew.
    + exists TextureLoadError.
      exists (fallback TextureLoadError
                (set_controls true (set_renderer true (set_canvas true s)))).
      rewrite E. unfold setupRenderer, setupControls, awaitTextures.
      cbn [canvas set_canvas set_renderer negb]. rewrite Ew, Hrej.
      split; [reflexivity|]. split; [reflexivity|]. split; [reflexivity|].
      split; [reflexivity|]. split; [reflexivity|].
      split; [apply Htrace; reflexivity|reflexivity].
    + exists WebGLUnavailable.
      exists (fallback WebGLUnavailable (set_canvas true s)).
      rewrite E. unfold setupRenderer.
      cbn [canvas set_canvas negb]. rewrite Ew.
      split; [reflexivity|]. split; [reflexivity|]. split; [reflexivity|].
      split; [reflexivity|]. split; [reflexivity|].
      split; [apply Htrace; reflexivity|discriminate].
  - exists CanvasNotFound. exists (fallback CanvasNotFound s).
    rewrite E.
    split; [reflexivity|]. split; [reflexivity|]. split; [reflexivity|].
    split; [reflexivity|]. split; [reflexivity|].
    split; [apply Htrace; reflexivity|].
    intros (k & Hk & Hp) _. exfalso.
    rewrite (canvasWaitLoop_found env 50 0 k s) in E by (try lia; exact Hp).
    discriminate.
Qed.

Lemma init_texture_failure_fallback_witness :
  exists s',
    init envTextureFails initialState = (Normal tt, s') /\
    earthMesh s' = Some basicEarthMesh /\
    trace s' = [InitializationError TextureLoadError;
                NewSphereGeometry (geometry basicEarthMesh);
                GroupAdd basicEarthMesh].
Proof.
  assert (Herr : In OnError (textureEvents envTextureFails))
    by (simpl; tauto).
  assert (Hlen : (List.length (textureEvents envTextureFails) <= totalTextures)%nat)
    by (vm_compute; lia).
  destruct (init_texture_failure_fallback envTextureFails initialState Herr Hlen)
    as (e & s' & Hinit & Hmesh & _ & _ & _ & Htr & He).
  exists s'. split; [exact Hinit|]. split; [exact Hmesh|].
  rewrite Htr, He.
  - reflexivity.
  - exists 2%nat. split; [lia|reflexivity].
  - reflexivity.
Defined.

(** Whenever [init] returns, there is an earth mesh; in particular the
    hover listeners are never installed without one. *)
Lemma init_returns_with_mesh (env : Env) (s' : State) :
  init env initialState = (Normal tt, s') ->
  exists mesh, earthMesh s' = Some mesh.
Proof.
  unfold init, try_catch, bind.
  destruct (canvasWaitLoop_outcome env 50 0 initialState) as [E|E];
    rewrite E; clear E.
  - unfold setupRenderer, setupControls, awaitTextures, createEarthMesh, bind.
    cbn [canvas set_canvas set_renderer negb].
    destruct (webglAvailable env).
    + cbn [canvas set_canvas set_renderer set_controls negb].
      destruct (loadTextures (textureEvents env)) as [[|]|].
      * destruct (shaderMaterialOk env); cbn;
          intros H; injection H as <-; eexists; reflexivity.
      * cbn. intros H; injection H as <-; eexists; reflexivity.
      * discriminate.
    + cbn. intros H; injection H as <-; eexists; reflexivity.
  - cbn. intros H; injection H as <-; eexists; reflexivity.
Qed.

(** On the primary path [init] installs the shader mesh with its
    uniforms and starts the animation. *)
Example init_success :
  let env := mkEnv (fun _ => true) true true [OnLoad; OnLoad; OnLoad; OnLoad] in
  exists s',
    init env initialState = (Normal tt, s') /\
    meshUniforms (earthMesh s') = Some initialUniforms /\
    hoverTracking s' = true /\
    trace s' = [NewSphereGeometry (mkGeometry 2.75 300 300);
                GroupAdd (mkMesh (mkGeometry 2.75 300 300)
                            (ShaderMaterial initialUniforms));
                AnimationStarted].
Proof.
  eexists. repeat split.
Qed.

End ScriptProps.

(* ================================================================== *)
(** * Properties of the shaders *)

Module ShaderProps.
Import Glsl.
Import ShaderSpec.
Import Lra.
Local Open Scope R_scope.

(** ** Built-in functions *)

Lemma floor_bound (x : R) : floor x <= x < floor x + 1.
Proof. unfold floor. apply Zfloor_bound. Qed.

Lemma fract_range (x : R) : 0 <= fract x < 1.
Proof. unfold fract. pose proof (floor_bound x). lra. Qed.

Lemma floor_IZR (z : Z) : floor (IZR z) = IZR z.
Proof. unfold floor. now rewrite ZfloorZ. Qed.

Lemma fract_IZR (z : Z) : fract (IZR z) = 0.
Proof. unfold fract. rewrite floor_IZR. lra. Qed.

Lemma mix_0 (a b : R) : mix a b 0 = a.
Proof. unfold mix. lra. Qed.

(** A mix with a weight in [0, 1] stays between its end points. *)
Lemma mix_bound (M a b t : R) :
  0 <= t <= 1 -> within M a -> within M b -> within M (mix a b t).
Proof.
  unfold within, mix. intros Ht Ha Hb. nra.
Qed.

Lemma scale3_scale3 (p : vec3) (a b : R) :
  scale3 (scale3 p a) b = scale3 p (a * b).
Proof.
  unfold scale3, map3; simpl. f_equal; ring.
Qed.

Lemma scale3_1 (p : vec3) : scale3 p 1 = p.
Proof.
  destruct p as [x y z]. unfold scale3, map3; simpl. f_equal; ring.
Qed.

(** ** Terrain classification *)

Import EnhancedShader.

Lemma perlinNoise_origin : perlinNoise (Vec3 0 0 0) = 0.
Proof.
  assert (F0 : floor 0 = 0) by apply (floor_IZR 0).
  assert (R0 : fract 0 = 0) by apply (fract_IZR 0).
  unfold perlinNoise, map3, mul3, add3, zip3, dot3; simpl.
  repeat rewrite ?F0, ?R0, ?Rplus_0_l, ?Rplus_0_r, ?Rmult_0_l, ?mix_0.
  unfold hash. rewrite sin_0, Rmult_0_l. exact R0.
Qed.

(** The noise of the classifier is one octave of fractal noise. *)
Lemma perlinNoise_single_octave (p : vec3) (a : R) :
  fractalNoise p 1 a 1 = perlinNoise p.
Proof.
  unfold fractalNoise. simpl. rewrite scale3_1. ring.
Qed.

(** C1. If the land mask sampled at the texture coordinate is below 0.5
    the classifier returns Ocean whatever the elevation; otherwise, with
    [terrainValue = elevation + 0.3 * noise(4 * position)
    + 0.2 * noise(8 * position)], it returns Mountain above 0.8, else
    Forest above 0.6, else Plains above 0.4, else Desert above 0.2, else
    Tundra above 0.0, else Canyon; so every input yields one of the seven
    categories. *)
Theorem classifyEnhancedTerrain_categories (uAlphaMap : sampler2D)
    (uv : vec2) (worldPos : vec3) (elevation : R) :
  let alpha := chan_r (texture2D uAlphaMap uv) in
  let tv := elevation + 0.3 * perlinNoise (scale3 worldPos 4)
                      + 0.2 * perlinNoise (scale3 worldPos 8) in
  let code := classifyEnhancedTerrain uAlphaMap uv worldPos elevation in
  let category := category_of_code code in
  (alpha < 0.5 -> category = Some Ocean) /\
  (0.5 <= alpha ->
     (0.8 < tv -> category = Some Mountain) /\
     (0.6 < tv <= 0.8 -> category = Some Forest) /\
     (0.4 < tv <= 0.6 -> category = Some Plains) /\
     (0.2 < tv <= 0.4 -> category = Some Desert) /\
     (0.0 < tv <= 0.2 -> category = Some Tundra) /\
     (tv <= 0.0 -> category = Some Canyon)) /\
  (exists c, category = Some c) /\
  (0 <= code <= 6)%Z.
Proof.
  intros alpha tv code category.
  subst category code. unfold classifyEnhancedTerrain.
  fold alpha.
  replace (terrainValue worldPos elevation) with tv
    by (unfold tv, terrainValue; ring).
  destruct (Rlt_dec alpha 0.5) as [Ha|Ha].
  { split; [reflexivity|]. split; [intros; lra|].
    split; [eexists; reflexivity|lia]. }
  split; [intros; lra|].
  destruct (Rgt_dec tv 0.8); [|destruct (Rgt_dec tv 0.6);
    [|destruct (Rgt_dec tv 0.4); [|destruct (Rgt_dec tv 0.2);
      [|destruct (Rgt_dec tv 0.0)]]]];
    (split; [intros _; repeat split; intros; try reflexivity; exfalso; lra|]);
    (split; [eexists; reflexivity|lia]).
Qed.

Lemma classifyEnhancedTerrain_categories_witness :
  let water : sampler2D := fun _ => Vec4 0.1 0 0 1 in
  let land : sampler2D := fun _ => Vec4 0.9 0 0 1 in
  category_of_code
    (classifyEnhancedTerrain water (Vec2 0.5 0.5) (Vec3 0 0 0) 0.95) = Some Ocean /\
  category_of_code
    (classifyEnhancedTerrain land (Vec2 0.5 0.5) (Vec3 0 0 0) 0.7) = Some Forest.
Proof.
  intros water land.
  destruct (classifyEnhancedTerrain_categories water (Vec2 0.5 0.5) (Vec3 0 0 0) 0.95)
    as (Hocean & _).
  destruct (classifyEnhancedTerrain_categories land (Vec2 0.5 0.5) (Vec3 0 0 0) 0.7)
    as (_ & Hland & _).
  split.
  - apply Hocean. unfold water, chan_r, texture2D; simpl. lra.
  - assert (Ha : 0.5 <= chan_r (texture2D land (Vec2 0.5 0.5)))
      by (unfold land, chan_r, texture2D; simpl; lra).
    destruct (Hland Ha) as (_ & Hforest & _).
    apply Hforest.
    replace (scale3 (Vec3 0 0 0) 4) with (Vec3 0 0 0)
      by (unfold scale3, map3; simpl; f_equal; ring).
    replace (scale3 (Vec3 0 0 0) 8) with (Vec3 0 0 0)
      by (unfold scale3, map3; simpl; f_equal; ring).
    rewrite perlinNoise_origin. lra.
Defined.

(** ** Fractal noise *)

(** The loop of [fractalNoise] after [i] iterations, with [k] to go. *)
Lemma fractalNoise_loop_sum (p : vec3) (f a : R) (k i : nat) :
  fractalNoise_loop k p a (octaveSum p f a i) (a ^ i) (f * 2 ^ i)
  = octaveSum p f a (i + k).
Proof.
  revert i. induction k as [|k IH]; intros i.
  - rewrite Nat.add_0_r. reflexivity.
  - cbn [fractalNoise_loop].
    replace (i + S k)%nat with (S i + k)%nat by lia.
    rewrite <- IH. cbn [octaveSum pow].
    rewrite scale3_scale3.
    f_equal; ring.
Qed.

(** C8. For every position [p], base frequency [f], persistence [a] and
    octave count [n >= 0], [fractalNoise p f a n] is the sum over
    [i = 0 .. n-1] of [perlinNoise (p * f * 2^i) * a^i]. *)
Theorem fractalNoise_octaves (p : vec3) (f a : R) (n : Z) (Hn : (0 <= n)%Z) :
  fractalNoise p f a n = octaveSum p f a (Z.to_nat n).
Proof.
  unfold fractalNoise.
  pose proof (fractalNoise_loop_sum p f a (Z.to_nat n) 0) as H.
  cbn [octaveSum pow Nat.add] in H.
  rewrite Rmult_1_r in H. exact H.
Qed.

(** A negative octave count runs no iteration. *)
Lemma fractalNoise_no_octave (p : vec3) (f a : R) (n : Z) :
  (n <= 0)%Z -> fractalNoise p f a n = 0.
Proof.
  intros Hn. unfold fractalNoise.
  replace (Z.to_nat n) with O by lia. reflexivity.
Qed.

Lemma fractalNoise_octaves_witness :
  (0 <= 3)%Z /\
  fractalNoise (Vec3 1 2 3) 1 0.5 3
  = 0 + perlinNoise (scale3 (scale3 (Vec3 1 2 3) 1) (2 ^ 0)) * 0.5 ^ 0
      + perlinNoise (scale3 (scale3 (Vec3 1 2 3) 1) (2 ^ 1)) * 0.5 ^ 1
      + perlinNoise (scale3 (scale3 (Vec3 1 2 3) 1) (2 ^ 2)) * 0.5 ^ 2.
Proof.
  assert (H : (0 <= 3)%Z) by lia.
  split; [exact H|].
  exact (fractalNoise_octaves (Vec3 1 2 3) 1 0.5 3 H).
Defined.

(** ** Bulge falloff *)

Lemma div_facts (d r : R) :
  0 < r ->
  (0 <= d -> 0 <= d / r) /\ (d < r -> d / r < 1) /\
  1 - d / r = (r - d) / r.
Proof.
  intros Hr. assert (Hi : 0 < / r) by now apply Rinv_0_lt_compat.
  unfold Rdiv. repeat split.
  - intros Hd. nra.
  - intros Hd.
    assert (r * / r = 1) by (apply Rinv_r; lra). nra.
  - assert (r * / r = 1) by (apply Rinv_r; lra). nra.
Qed.

Lemma div_mono (d1 d2 r : R) : 0 < r -> d1 <= d2 -> d1 / r <= d2 / r.
Proof.
  intros Hr Hd. assert (Hi : 0 < / r) by now apply Rinv_0_lt_compat.
  unfold Rdiv. nra.
Qed.

Lemma pow_le_self (x : R) (k : nat) : 0 <= x <= 1 -> x ^ S k <= x.
Proof.
  intros Hx.
  assert (H0 : 0 <= x ^ k) by (apply pow_le; lra).
  assert (H1 : x ^ k <= 1).
  { rewrite <- (pow1 k). apply pow_incr. lra. }
  simpl. nra.
Qed.

(** A function that is 0 from the radius on and the [S k]-th power of
    [(r - d) / r] below it has the shape asked for. *)
Lemma power_falloff (k : nat) (falloff : R -> R -> R) (r : R) :
  0 < r ->
  (forall d, r <= d -> falloff d r = 0) ->
  (forall d, d < r -> falloff d r = ((r - d) / r) ^ S k) ->
  falloffSpec (S k) falloff r.
Proof.
  intros Hr Hzero Hpow.
  assert (Hx : forall d, 0 <= d -> d < r -> 0 < (r - d) / r <= 1).
  { intros d H0 Hd. destruct (div_facts d r Hr) as (A & B & E).
    rewrite <- E. specialize (A H0). specialize (B Hd). lra. }
  split; [exact Hzero|]. split; [intros d [_ Hd]; now apply Hpow|].
  split; [|split].
  - intros d1 d2 [H1 H12].
    destruct (Rlt_le_dec d2 r) as [H2|H2].
    + rewrite !Hpow by lra. apply pow_incr.
      pose proof (Hx d2 ltac:(lra) H2).
      split; [lra|]. apply div_mono; lra.
    + rewrite (Hzero d2 H2).
      destruct (Rlt_le_dec d1 r) as [H1'|H1'].
      * rewrite Hpow by lra. apply pow_le.
        pose proof (Hx d1 H1 H1'). lra.
      * rewrite Hzero by lra. lra.
  - rewrite Hpow by lra. replace ((r - 0) / r) with 1 by (field; lra).
    apply pow1.
  - intros eps Heps. exists (eps * r). split; [nra|].
    intros d H0 [Hlo Hhi].
    rewrite (Hzero r) by lra. rewrite Hpow by lra.
    pose proof (Hx d H0 Hhi) as [Hp Hq].
    assert (Hsmall : (r - d) / r < eps).
    { apply (Rmult_lt_reg_r r); [exact Hr|].
      unfold Rdiv. rewrite Rmult_assoc, Rinv_l by lra. lra. }
    rewrite Rminus_0_r, Rabs_pos_eq by (apply pow_le; lra).
    pose proof (pow_le_self ((r - d) / r) k ltac:(lra)). lra.
Qed.

(** C2. For every radius [r > 0]: both falloff functions (the cubic one
    of the vertex shader and the quadratic one of the enhanced vertex
    shader) are exactly 0 for [d >= r], equal [((r - d) / r)^3],
    respectively [((r - d) / r)^2], on [0, r), are non-increasing in [d],
    equal 1 at [d = 0], and tend to 0 (their value at [r]) as [d]
    approaches [r] from below. *)
Theorem smoothFalloff_shape (r : R) (Hr : 0 < r) :
  falloffSpec 3 VertexShader.smoothFalloff r /\
  falloffSpec 2 EnhancedShader.smoothFalloff r.
Proof.
  split; apply power_falloff; try exact Hr.
  - intros d Hd. unfold VertexShader.smoothFalloff.
    destruct (Rge_dec d r); lra.
  - intros d Hd. unfold VertexShader.smoothFalloff.
    destruct (Rge_dec d r) as [H|H]; [lra|].
    destruct (div_facts d r Hr) as (_ & _ & E).
    replace (1.0 - d / r) with ((r - d) / r) by (rewrite <- E; lra).
    simpl. ring.
  - intros d Hd. unfold EnhancedShader.smoothFalloff.
    destruct (Rge_dec d r); lra.
  - intros d Hd. unfold EnhancedShader.smoothFalloff.
    destruct (Rge_dec d r) as [H|H]; [lra|].
    destruct (div_facts d r Hr) as (_ & _ & E).
    replace (1.0 - d / r) with ((r - d) / r) by (rewrite <- E; lra).
    simpl. ring.
Qed.

Lemma smoothFalloff_shape_witness :
  0 < 0.9 /\
  falloffSpec 3 VertexShader.smoothFalloff 0.9 /\
  falloffSpec 2 EnhancedShader.smoothFalloff 0.9.
Proof.
  assert (H : 0 < 0.9) by lra.
  split; [exact H|exact (smoothFalloff_shape 0.9 H)].
Defined.

(** ** Classic Perlin noise is bounded *)

Import VertexShader.

(** One lane of the gradient block. *)
Lemma gradient_lane (a b : R) :
  0 <= a < 1 -> 0 <= b < 1 ->
  let gy := b - 0.5 in
  let gz := 0.5 - Rabs a - Rabs gy in
  let sz := step gz 0.0 in
  within 1 (a - sz * (step 0.0 a - 0.5)) /\
  within 1 (gy - sz * (step 0.0 gy - 0.5)) /\
  within 1 gz.
Proof.
  intros Ha Hb gy gz sz. subst sz gz gy. unfold within, step, Rabs.
  repeat match goal with
         | |- context [Rlt_dec ?x ?y] => destruct (Rlt_dec x y)
         | |- context [Rcase_abs ?x] => destruct (Rcase_abs x)
         end; lra.
Qed.

Lemma gradients_within (ixy : vec4) :
  let '(gx, gy, gz) := gradients ixy in
  within4 1 gx /\ within4 1 gy /\ within4 1 gz.
Proof.
  destruct ixy as [jx jy jz jw].
  cbv beta iota zeta delta
    [gradients within4 sub4 mul4 subs4 scale4 zip4 map4 splat4 x4 y4 z4 w4].
  pose proof (fun j => gradient_lane (fract (j * (1.0 / 7.0)))
                         (fract (floor (j * (1.0 / 7.0)) * (1.0 / 7.0)))
                         (fract_range _) (fract_range _)) as L.
  cbv zeta in L.
  pose proof (L jx) as (X1 & X2 & X3).
  pose proof (L jy) as (Y1 & Y2 & Y3).
  pose proof (L jz) as (Z1 & Z2 & Z3).
  pose proof (L jw) as (W1 & W2 & W3).
  repeat match goal with |- _ /\ _ => split end; assumption.
Qed.

(** A gradient rescaled by [taylorInvSqrt], dotted with an offset. *)
Lemma corner_bound (g v : vec3) :
  within3 1 g -> within3 1 v ->
  within 5.4
    (dot3 (scale3 g (1.79284291400159 - 0.85373472095314 * dot3 g g)) v).
Proof.
  unfold within3, within.
  intros (Gx & Gy & Gz) (Vx & Vy & Vz).
  destruct g as [gx gy gz], v as [x y z]; cbn [vx vy vz] in *.
  unfold dot3, scale3, map3; cbn [vx vy vz].
  set (n := 1.79284291400159 - 0.85373472095314 * (gx * gx + gy * gy + gz * gz)).
  assert (Hn : - 1.8 <= n <= 1.8) by (subst n; nra).
  assert (Hx : - 1.8 <= gx * n <= 1.8) by nra.
  assert (Hy : - 1.8 <= gy * n <= 1.8) by nra.
  assert (Hz : - 1.8 <= gz * n <= 1.8) by nra.
  assert (- 1.8 <= gx * n * x <= 1.8) by nra.
  assert (- 1.8 <= gy * n * y <= 1.8) by nra.
  assert (- 1.8 <= gz * n * z <= 1.8) by nra.
  lra.
Qed.

Lemma fade1_range (t : R) : 0 <= t <= 1 -> 0 <= fade1 t <= 1.
Proof.
  intros Ht. unfold fade1.
  assert (E0 : t * t * t * (t * (t * 6.0 - 15.0) + 10.0)
               = (t * t * t) * (6 * ((t - 5 / 4) * (t - 5 / 4)) + 5 / 8))
    by lra.
  assert (E1 : 1 - t * t * t * (t * (t * 6.0 - 15.0) + 10.0)
               = ((1 - t) * (1 - t) * (1 - t)) * (6 * (t * t) + 3 * t + 1))
    by lra.
  assert (P0 : 0 <= t * t * t) by (repeat apply Rmult_le_pos; lra).
  assert (P1 : 0 <= (1 - t) * (1 - t) * (1 - t))
    by (repeat apply Rmult_le_pos; lra).
  assert (Q0 : 0 <= 6 * ((t - 5 / 4) * (t - 5 / 4)) + 5 / 8) by nra.
  assert (Q1 : 0 <= 6 * (t * t) + 3 * t + 1) by nra.
  pose proof (Rmult_le_pos _ _ P0 Q0).
  pose proof (Rmult_le_pos _ _ P1 Q1).
  lra.
Qed.

(** [pnoise] is 2.2 times an interpolation of eight corner values. *)
Lemma pnoise_bound (P rep : vec3) : within 11.88 (pnoise P rep).
Proof.
  unfold pnoise. cbv zeta.
  match goal with
  | |- context [gradients ?i0] =>
      pose proof (gradients_within i0) as G0;
      destruct (gradients i0) as [[gx0 gy0] gz0]
  end.
  match goal with
  | |- context [gradients ?i1] =>
      pose proof (gradients_within i1) as G1;
      destruct (gradients i1) as [[gx1 gy1] gz1]
  end.
  destruct G0 as ((A1 & A2 & A3 & A4) & (B1 & B2 & B3 & B4) & (C1 & C2 & C3 & C4)).
  destruct G1 as ((D1 & D2 & D3 & D4) & (E1 & E2 & E3 & E4) & (F1 & F2 & F3 & F4)).
  unfold taylorInvSqrt, fade, sub3, splat3, zip4, zip3, map4, map3.
  cbn [x4 y4 z4 w4 vx vy vz x2 y2].
  pose proof (fract_range (vx P)) as Px.
  pose proof (fract_range (vy P)) as Py.
  pose proof (fract_range (vz P)) as Pz.
  pose proof (fade1_range (fract (vx P)) ltac:(lra)) as Fx.
  pose proof (fade1_range (fract (vy P)) ltac:(lra)) as Fy.
  pose proof (fade1_range (fract (vz P)) ltac:(lra)) as Fz.
  match goal with
  | |- within _ (2.2 * ?m) => assert (Hm : within 5.4 m)
  end.
  { repeat (apply mix_bound; [assumption| |]);
      apply corner_bound; unfold within3; cbn [vx vy vz];
      (split; [|split]); try assumption; unfold within; lra. }
  unfold within in *. lra.
Qed.

(** ** Bulge displacement *)

Lemma bulgeNoise_range (uTime : R) (worldPos : vec3) :
  0.4 <= 1.0 + bulgeNoise uTime worldPos <= 1.6.
Proof.
  unfold bulgeNoise. cbv zeta.
  match goal with
  | |- context [pnoise ?p ?r] => pose proof (pnoise_bound p r) as H
  end.
  unfold within in H. lra.
Qed.

Lemma enhanced_falloff_nonneg (d r : R) : 0 <= EnhancedShader.smoothFalloff d r.
Proof.
  unfold EnhancedShader.smoothFalloff. cbv zeta.
  destruct (Rge_dec d r); [lra|].
  set (x := 1.0 - d / r). nra.
Qed.

Lemma bulgeAmount_nonneg (uTime : R) (worldPos : vec3)
    (strength falloff intensity : R) :
  0 <= strength -> 0 <= falloff -> 0 <= intensity ->
  0 <= bulgeAmount uTime worldPos strength falloff intensity.
Proof.
  intros Hs Hf Hi. unfold bulgeAmount. cbv zeta.
  pose proof (bulgeNoise_range uTime worldPos) as Hn.
  pose proof (SIN_bound (uTime * 1.5)) as Hsin.
  set (anim := sin (uTime * 1.5) * 0.05 + 0.95).
  set (nf := 1.0 + bulgeNoise uTime worldPos) in *.
  assert (Ha : 0 <= anim) by (subst anim; lra).
  assert (H1 : 0 <= strength * falloff) by (apply Rmult_le_pos; assumption).
  assert (H2 : 0 <= strength * falloff * intensity)
    by (apply Rmult_le_pos; assumption).
  assert (H3 : 0 <= strength * falloff * intensity * anim)
    by (apply Rmult_le_pos; assumption).
  assert (H4 : 0 <= strength * falloff * intensity * anim * nf)
    by (apply Rmult_le_pos; [assumption|lra]).
  lra.
Qed.

(** C3 (amended). With nonnegative strength and intensity and a nonzero
    normal: the vertex shader's bulge displacement is a nonnegative
    multiple of the surface normal, and its noise factor [1 + noise]
    lies in [0.4, 1.6], so the noise never inverts the sign of the
    magnitude.  The enhanced vertex shader's bulge displacement is a
    nonnegative multiple of the normal plus a wiggle vector whose
    components are at most [0.02 * falloff * strength] in absolute
    value. *)
Theorem bulge_displacement_direction (uTime : R)
    (worldPos normal mousePos : vec3) (strength radius intensity : R)
    (Hs : 0 <= strength) (Hi : 0 <= intensity) (Hn : 0 < length3 normal) :
  (exists k, 0 <= k /\
     VertexShader.calculateBulgeDisplacement uTime worldPos normal mousePos
       strength radius intensity = scale3 normal k) /\
  0.4 <= 1.0 + bulgeNoise uTime worldPos <= 1.6 /\
  (let falloff := EnhancedShader.smoothFalloff
                    (length3 (sub3 worldPos mousePos)) radius in
   exists k w, 0 <= k /\
     within3 (0.02 * falloff * strength) w /\
     EnhancedShader.calculateBulgeDisplacement uTime worldPos normal mousePos
       strength radius intensity = add3 (scale3 normal k) w).
Proof.
  split; [|split; [apply bulgeNoise_range|]].
  - unfold VertexShader.calculateBulgeDisplacement. cbv zeta.
    set (falloff := VertexShader.smoothFalloff _ _).
    destruct (Rle_dec falloff 0.001) as [Hf|Hf].
    + exists 0. split; [lra|].
      unfold splat3, scale3, map3. f_equal; lra.
    + exists (bulgeAmount uTime worldPos strength falloff intensity
              / length3 normal).
      split.
      * apply Rmult_le_pos.
        -- apply bulgeAmount_nonneg; lra.
        -- apply Rlt_le, Rinv_0_lt_compat, Hn.
      * unfold normalize3, scale3, map3; cbn [vx vy vz].
        f_equal; unfold Rdiv; ring.
  - intros falloff.
    pose proof (enhanced_falloff_nonneg (length3 (sub3 worldPos mousePos)) radius)
      as Hf0. fold falloff in Hf0.
    unfold EnhancedShader.calculateBulgeDisplacement. cbv zeta. fold falloff.
    destruct (Rle_dec falloff 0.001) as [Hf|Hf].
    + exists 0, (Vec3 0 0 0). split; [lra|]. split.
      * unfold within3, within; cbn [vx vy vz]. repeat split; nra.
      * unfold splat3, add3, zip3, scale3, map3; cbn [vx vy vz].
        f_equal; lra.
    + exists (strength * falloff * intensity * (sin (uTime * 2.0) * 0.1 + 0.9)).
      eexists. split; [|split; [|reflexivity]].
      * pose proof (SIN_bound (uTime * 2.0)).
        assert (0 <= strength * falloff) by (apply Rmult_le_pos; lra).
        assert (0 <= strength * falloff * intensity)
          by (apply Rmult_le_pos; lra).
        apply Rmult_le_pos; lra.
      * pose proof (SIN_bound (uTime * 3.0)).
        pose proof (COS_bound (uTime * 2.5)).
        pose proof (SIN_bound (uTime * 1.8)).
        assert (0 <= falloff * strength) by nra.
        unfold within3, within, scale3, map3; cbn [vx vy vz].
        repeat split; nra.
Qed.

Lemma length3_unit_z : length3 (Vec3 0 0 1) = 1.
Proof.
  unfold length3, dot3; cbn [vx vy vz].
  replace (0 * 0 + 0 * 0 + 1 * 1) with 1 by ring. apply sqrt_1.
Qed.

Lemma bulge_displacement_direction_witness :
  exists k, 0 <= k /\
    VertexShader.calculateBulgeDisplacement 0 (Vec3 0 0 2.75) (Vec3 0 0 1)
      (Vec3 0 0 2.75) 1 0.9 0.3 = scale3 (Vec3 0 0 1) k.
Proof.
  assert (Hs : 0 <= 1) by lra.
  assert (Hi : 0 <= 0.3) by lra.
  assert (Hn : 0 < length3 (Vec3 0 0 1)) by (rewrite length3_unit_z; lra).
  exact (proj1 (bulge_displacement_direction 0 (Vec3 0 0 2.75) (Vec3 0 0 1)
                  (Vec3 0 0 2.75) 1 0.9 0.3 Hs Hi Hn)).
Defined.

(** The enhanced bulge at time 0, at the pointer position, with radius
    1 and strength 1. *)
Lemma enhanced_bulge_at_pointer (normal : vec3) (intensity : R) :
  EnhancedShader.calculateBulgeDisplacement 0 (Vec3 0 0 0) normal
    (Vec3 0 0 0) 1 1 intensity
  = Vec3 (vx normal * (intensity * 0.9))
         (vy normal * (intensity * 0.9) + 0.02)
         (vz normal * (intensity * 0.9)).
Proof.
  unfold EnhancedShader.calculateBulgeDisplacement. cbv zeta.
  assert (L : length3 (sub3 (Vec3 0 0 0) (Vec3 0 0 0)) = 0).
  { unfold length3, dot3, sub3, zip3; cbn [vx vy vz].
    replace ((0 - 0) * (0 - 0) + (0 - 0) * (0 - 0) + (0 - 0) * (0 - 0))
      with 0 by ring.
    apply sqrt_0. }
  rewrite L.
  assert (F : EnhancedShader.smoothFalloff 0 1 = 1).
  { unfold EnhancedShader.smoothFalloff.
    destruct (Rge_dec 0 1); [lra|]. lra. }
  rewrite F. destruct (Rle_dec 1 0.001); [lra|].
  replace (0 * 2.0) with 0 by ring. replace (0 * 3.0) with 0 by ring.
  replace (0 * 2.5) with 0 by ring. replace (0 * 1.8) with 0 by ring.
  rewrite sin_0, cos_0.
  unfold add3, zip3, scale3, map3; cbn [vx vy vz].
  f_equal; lra.
Qed.

(** C3 as stated fails for the enhanced vertex shader.  At time 0, at
    the pointer position, with strength 1 and radius 1: with normal
    (1, 0, 0) and the script's intensity 0.3 the displacement is
    (0.27, 0.02, 0), not a multiple of the normal; with normal (0, -1, 0)
    and intensity 0.01 it is (0, 0.011, 0), which points out of the
    normal's half-space. *)
Lemma enhanced_bulge_leaves_normal :
  let n1 := Vec3 1 0 0 in
  let d1 := EnhancedShader.calculateBulgeDisplacement 0 (Vec3 0 0 0) n1
              (Vec3 0 0 0) 1 1 0.3 in
  let n2 := Vec3 0 (- 1) 0 in
  let d2 := EnhancedShader.calculateBulgeDisplacement 0 (Vec3 0 0 0) n2
              (Vec3 0 0 0) 1 1 0.01 in
  (d1 = Vec3 0.27 0.02 0 /\ ~ (exists k, 0 <= k /\ d1 = scale3 n1 k)) /\
  (d2 = Vec3 0 0.011 0 /\ ~ (exists k, 0 <= k /\ d2 = scale3 n2 k) /\
   dot3 d2 n2 < 0).
Proof.
  intros n1 d1 n2 d2.
  assert (H1 : d1 = Vec3 0.27 0.02 0).
  { subst d1 n1. rewrite enhanced_bulge_at_pointer; cbn [vx vy vz].
    f_equal; lra. }
  assert (H2 : d2 = Vec3 0 0.011 0).
  { subst d2 n2. rewrite enhanced_bulge_at_pointer; cbn [vx vy vz].
    f_equal; lra. }
  split; [split; [exact H1|]|split; [exact H2|split]].
  - rewrite H1. intros (k & Hk & E). subst n1.
    unfold scale3, map3 in E; cbn [vx vy vz] in E.
    injection E as _ E _. lra.
  - rewrite H2. intros (k & Hk & E). subst n2.
    unfold scale3, map3 in E; cbn [vx vy vz] in E.
    injection E as _ E _. lra.
  - rewrite H2. subst n2. unfold dot3; cbn [vx vy vz]. lra.
Qed.

End ShaderProps.

(* ================================================================== *)
(** * Further properties of the shaders *)

Module ShaderExtra.
Import Glsl.
Import ShaderSpec.
Import EnhancedShader.
Import EnhancedTerrain.
Import ShaderProps.
Import Lra.
Local Open Scope R_scope.

(** ** Range of the value noise *)

Lemma hash_range (a : R) : 0 <= hash a < 1.
Proof. unfold hash. apply fract_range. Qed.

(** The cubic weight [f * f * (3 - 2 f)] stays in [0, 1]. *)
Lemma smooth_weight_range (f : R) : 0 <= f < 1 -> 0 <= f * f * (3 - 2 * f) <= 1.
Proof.
  intros Hf.
  assert (E : 1 - f * f * (3 - 2 * f) = (1 - f) * (1 - f) * (1 + 2 * f)) by ring.
  assert (0 <= f * f) by nra.
  assert (0 <= (1 - f) * (1 - f)) by nra.
  assert (0 <= f * f * (3 - 2 * f)) by (apply Rmult_le_pos; lra).
  assert (0 <= (1 - f) * (1 - f) * (1 + 2 * f)) by (apply Rmult_le_pos; lra).
  lra.
Qed.

Lemma mix_unit (a b t : R) :
  0 <= a < 1 -> 0 <= b < 1 -> 0 <= t <= 1 -> 0 <= mix a b t < 1.
Proof.
  intros Ha Hb Ht. unfold mix.
  assert (0 <= a * (1 - t)) by (apply Rmult_le_pos; lra).
  assert (0 <= b * t) by (apply Rmult_le_pos; lra).
  assert (0 <= (1 - a) * (1 - t)) by (apply Rmult_le_pos; lra).
  assert (0 <= (1 - b) * t) by (apply Rmult_le_pos; lra).
  split; [lra|].
  destruct (Rle_lt_dec t (1 / 2)) as [Hs|Hs].
  - assert ((1 - a) * (1 / 2) <= (1 - a) * (1 - t))
      by (apply Rmult_le_compat_l; lra).
    lra.
  - assert ((1 - b) * (1 / 2) <= (1 - b) * t)
      by (apply Rmult_le_compat_l; lra).
    lra.
Qed.

Lemma perlinNoise_unit (pos : vec3) : 0 <= perlinNoise pos < 1.
Proof.
  unfold perlinNoise. cbv zeta.
  unfold mul3, zip3, map3; cbn [vx vy vz].
  pose proof (smooth_weight_range _ (fract_range (vx pos))) as Ux.
  pose proof (smooth_weight_range _ (fract_range (vy pos))) as Uy.
  pose proof (smooth_weight_range _ (fract_range (vz pos))) as Uz.
  repeat apply mix_unit; try assumption; apply hash_range.
Qed.

(** X1. [perlinNoise] takes its values in [0, 1): it interpolates
    lattice hashes [fract(sin(.) * 43758.5453)], which lie in [0, 1),
    with weights in [0, 1].  At a lattice point [(i, j, k)] it is
    exactly the hash of [i + 57 j + 21 k]. *)
Theorem perlinNoise_range (pos : vec3) (i j k : Z) :
  0 <= perlinNoise pos < 1 /\
  perlinNoise (Vec3 (IZR i) (IZR j) (IZR k))
  = hash (IZR i * 1 + IZR j * 57 + IZR k * 21).
Proof.
  split; [apply perlinNoise_unit|].
  unfold perlinNoise. cbv zeta.
  unfold mul3, add3, zip3, map3, dot3; cbn [vx vy vz].
  rewrite !fract_IZR, !floor_IZR.
  replace (0 * 0 * (3 - 2 * 0)) with 0 by ring.
  rewrite !mix_0.
  rewrite !Rplus_0_r, !floor_IZR. reflexivity.
Qed.

(** ** Bounds on fractal noise *)

Lemma geomSum_nonneg (a : R) (n : nat) : 0 <= a -> 0 <= geomSum a n.
Proof.
  intros Ha. induction n as [|n IH]; simpl; [lra|].
  pose proof (pow_le a n Ha). lra.
Qed.

(** [(1 - a) * (1 + a + ... + a^(n-1)) = 1 - a^n] *)
Lemma geomSum_closed (a : R) (n : nat) : (1 - a) * geomSum a n = 1 - a ^ n.
Proof.
  induction n as [|n IH]; simpl; [ring|].
  rewrite Rmult_plus_distr_l, IH. ring.
Qed.

Lemma octaveSum_bounds (p : vec3) (f a : R) (n : nat) :
  0 <= a -> 0 <= octaveSum p f a n <= geomSum a n.
Proof.
  intros Ha. induction n as [|n IH]; simpl; [lra|].
  pose proof (perlinNoise_unit (scale3 (scale3 p f) (2 ^ n))) as Hp.
  pose proof (pow_le a n Ha) as Hpow.
  assert (0 <= perlinNoise (scale3 (scale3 p f) (2 ^ n)) * a ^ n)
    by (apply Rmult_le_pos; lra).
  assert (perlinNoise (scale3 (scale3 p f) (2 ^ n)) * a ^ n <= 1 * a ^ n)
    by (apply Rmult_le_compat_r; lra).
  lra.
Qed.

Lemma fractalNoise_as_sum (p : vec3) (f a : R) (n : Z) :
  fractalNoise p f a n = octaveSum p f a (Z.to_nat n).
Proof.
  unfold fractalNoise.
  pose proof (fractalNoise_loop_sum p f a (Z.to_nat n) 0) as H.
  cbn [octaveSum pow Nat.add] in H.
  rewrite Rmult_1_r in H. exact H.
Qed.

Lemma fractalNoise_le_geomSum (p : vec3) (f a : R) (n : Z) :
  0 <= a -> 0 <= fractalNoise p f a n <= geomSum a (Z.to_nat n).
Proof.
  intros Ha. rewrite fractalNoise_as_sum. now apply octaveSum_bounds.
Qed.

(** X2. With a persistence [0 <= a < 1], [fractalNoise] is
    nonnegative, at most [1 + a + ... + a^(n-1)] for [n] octaves, and so
    below [1 / (1 - a)] whatever the octave count. *)
Theorem fractalNoise_bounds (p : vec3) (f a : R) (n : Z)
    (Ha : 0 <= a < 1) :
  0 <= fractalNoise p f a n <= geomSum a (Z.to_nat n) /\
  fractalNoise p f a n < / (1 - a).
Proof.
  rewrite fractalNoise_as_sum.
  pose proof (octaveSum_bounds p f a (Z.to_nat n) (proj1 Ha)) as Hb.
  split; [exact Hb|].
  pose proof (geomSum_closed a (Z.to_nat n)) as Hc.
  assert (Hpow : 0 <= a ^ Z.to_nat n) by (apply pow_le; lra).
  assert (Hi : 0 < / (1 - a)) by (apply Rinv_0_lt_compat; lra).
  assert (Hg : geomSum a (Z.to_nat n) = (1 - a ^ Z.to_nat n) * / (1 - a)).
  { rewrite <- Hc. field. lra. }
  assert (Hlt : geomSum a (Z.to_nat n) <= / (1 - a)).
  { rewrite Hg.
    assert ((1 - a ^ Z.to_nat n) * / (1 - a) <= 1 * / (1 - a))
      by (apply Rmult_le_compat_r; lra).
    lra. }
  destruct (Req_dec (octaveSum p f a (Z.to_nat n)) (geomSum a (Z.to_nat n)))
    as [E|E]; [|lra].
  (* equality forces n = 0 or a = 0 beyond the first octave; either way
     the sum stays below the limit *)
  destruct (Z.to_nat n) as [|k] eqn:Ek.
  - simpl. lra.
  - simpl in *.
    pose proof (perlinNoise_unit (scale3 (scale3 p f) (2 ^ k))) as Hp.
    pose proof (octaveSum_bounds p f a k (proj1 Ha)) as Hk.
    assert (Hak : 0 <= a ^ k) by (apply pow_le; lra).
    assert (Hz : a ^ k = 0) by nra.
    pose proof (geomSum_closed a k) as Hck. rewrite Hz in Hck.
    assert (Hgk : geomSum a k = / (1 - a)).
    { apply (Rmult_eq_reg_l (1 - a)); [|lra]. rewrite Hck. field. lra. }
    destruct k as [|k'].
    + simpl in Hz. lra.
    + (* a^(S k') = 0 means a = 0, so the limit is 1 and only the first
         octave counts *)
      assert (Ha0 : a = 0).
      { destruct (Req_dec a 0) as [|Hne]; [assumption|].
        exfalso. apply (pow_nonzero a (S k') Hne). exact Hz. }
      subst a. clear Hz Hck Hgk Hlt Hg Hi Hc Hb Hpow Hak.
      rewrite Rminus_0_r, Rinv_1.
      assert (Hrest : forall m, octaveSum p f 0 (S m) = octaveSum p f 0 1).
      { induction m as [|m IHm]; [reflexivity|].
        cbn [octaveSum]. cbn [octaveSum] in IHm. rewrite IHm.
        replace (0 ^ S m) with 0 by (simpl; ring). ring. }
      replace (octaveSum p f 0 (S k') + perlinNoise (scale3 (scale3 p f) (2 ^ S k')) * 0 ^ S k')
        with (octaveSum p f 0 (S (S k'))) by reflexivity.
      rewrite Hrest. cbn [octaveSum pow].
      pose proof (perlinNoise_unit (scale3 (scale3 p f) 1)) as H1. lra.
Qed.

Lemma fractalNoise_bounds_witness :
  0 <= fractalNoise (Vec3 1 2 3) 1.0 0.6 4 <= 2.176 /\
  fractalNoise (Vec3 1 2 3) 1.0 0.6 4 < / (1 - 0.6).
Proof.
  assert (Ha : 0 <= 0.6 < 1) by lra.
  destruct (fractalNoise_bounds (Vec3 1 2 3) 1.0 0.6 4 Ha) as [H1 H2].
  split; [|exact H2].
  change (Z.to_nat 4) with 4%nat in H1. simpl in H1. lra.
Defined.

(** ** Consequences for the terrain classifier *)

Lemma terrainValue_range (worldPos : vec3) (elevation : R) :
  elevation <= terrainValue worldPos elevation < elevation + 0.5.
Proof.
  unfold terrainValue. cbv zeta.
  pose proof (perlinNoise_unit (scale3 worldPos 4)).
  pose proof (perlinNoise_unit (scale3 worldPos 8)).
  lra.
Qed.

(** The bucket code as a function of the terrain value. *)
Lemma classify_land (uAlphaMap : sampler2D) (uv : vec2) (worldPos : vec3)
    (elevation : R) :
  0.5 <= chan_r (texture2D uAlphaMap uv) ->
  let tv := terrainValue worldPos elevation in
  let code := classifyEnhancedTerrain uAlphaMap uv worldPos elevation in
  (code = 1%Z <-> 0.8 < tv) /\
  (code = 6%Z <-> tv <= 0.0) /\
  (1 <= code <= 6)%Z /\
  (forall c, (c < code)%Z -> (1 <= c)%Z ->
     tv <= 1.0 - 0.2 * IZR c).
Proof.
  intros Ha tv code. subst code. unfold classifyEnhancedTerrain.
  fold tv.
  destruct (Rlt_dec (chan_r (texture2D uAlphaMap uv)) 0.5); [lra|].
  destruct (Rgt_dec tv 0.8); [|destruct (Rgt_dec tv 0.6);
    [|destruct (Rgt_dec tv 0.4); [|destruct (Rgt_dec tv 0.2);
      [|destruct (Rgt_dec tv 0.0)]]]];
    (split; [split; intros; try lia; try discriminate; lra|]);
    (split; [split; intros; try lia; try discriminate; lra|]);
    (split; [lia|]);
    intros c Hc1 Hc2;
    assert (Hc : c = 1%Z \/ c = 2%Z \/ c = 3%Z \/ c = 4%Z \/ c = 5%Z) by lia;
    destruct Hc as [->|[->|[->|[->| ->]]]]; try lia; lra.
Qed.

(** X3. On land (mask at least 0.5) the noise only raises the terrain
    value, by less than 0.5: a sample with elevation above 0.8 is always
    Mountain, a sample with positive elevation is never Canyon, a sample
    with elevation at most -0.5 is always Canyon, and raising the
    elevation at a fixed position never moves the sample to a lower
    bucket (a higher code). *)
Theorem classification_by_elevation (uAlphaMap : sampler2D) (uv : vec2)
    (worldPos : vec3) (elevation : R)
    (Hland : 0.5 <= chan_r (texture2D uAlphaMap uv)) :
  let classify := classifyEnhancedTerrain uAlphaMap uv worldPos in
  (0.8 < elevation -> category_of_code (classify elevation) = Some Mountain) /\
  (0.0 < elevation -> category_of_code (classify elevation) <> Some Canyon) /\
  (elevation <= - 0.5 -> category_of_code (classify elevation) = Some Canyon) /\
  (forall higher, elevation <= higher ->
     (classify higher <= classify elevation)%Z).
Proof.
  intros classify. subst classify.
  pose proof (terrainValue_range worldPos elevation) as Hr.
  destruct (classify_land uAlphaMap uv worldPos elevation Hland)
    as (H1 & H6 & Hrange & Hbelow).
  cbv zeta in *.
  split; [|split; [|split]].
  - intros He. replace (classifyEnhancedTerrain uAlphaMap uv worldPos elevation)
      with 1%Z by (symmetry; apply H1; lra). reflexivity.
  - intros He Hc.
    assert (classifyEnhancedTerrain uAlphaMap uv worldPos elevation <> 6%Z)
      by (intros E; apply H6 in E; lra).
    set (c := classifyEnhancedTerrain uAlphaMap uv worldPos elevation) in *.
    assert (Hcases : c = 1%Z \/ c = 2%Z \/ c = 3%Z \/ c = 4%Z \/ c = 5%Z) by lia.
    destruct Hcases as [E|[E|[E|[E|E]]]]; rewrite E in Hc; discriminate.
  - intros He. replace (classifyEnhancedTerrain uAlphaMap uv worldPos elevation)
      with 6%Z by (symmetry; apply H6; lra). reflexivity.
  - intros higher Hh.
    destruct (classify_land uAlphaMap uv worldPos higher Hland)
      as (_ & _ & Hrange' & Hbelow').
    cbv zeta in *.
    destruct (Z_le_gt_dec (classifyEnhancedTerrain uAlphaMap uv worldPos higher)
                (classifyEnhancedTerrain uAlphaMap uv worldPos elevation))
      as [Hle|Hgt]; [exact Hle|exfalso].
    set (c := classifyEnhancedTerrain uAlphaMap uv worldPos elevation) in *.
    (* the higher sample fell below the threshold that the lower passed *)
    assert (Hhi : terrainValue worldPos higher <= 1.0 - 0.2 * IZR c)
      by (apply Hbelow'; lia).
    assert (Hc5 : (c <= 5)%Z) by lia.
    assert (Hlo : 1.0 - 0.2 * IZR c < terrainValue worldPos elevation).
    { revert Hc5. subst c. clear Hhi Hgt Hbelow Hbelow' H1 H6 Hrange Hrange'.
      unfold classifyEnhancedTerrain.
      destruct (Rlt_dec (chan_r (texture2D uAlphaMap uv)) 0.5); [lra|].
      destruct (Rgt_dec (terrainValue worldPos elevation) 0.8);
        [|destruct (Rgt_dec (terrainValue worldPos elevation) 0.6);
          [|destruct (Rgt_dec (terrainValue worldPos elevation) 0.4);
            [|destruct (Rgt_dec (terrainValue worldPos elevation) 0.2);
              [|destruct (Rgt_dec (terrainValue worldPos elevation) 0.0)]]]];
        intros Hc5; try lra; lia. }
    assert (Hmono : terrainValue worldPos elevation <= terrainValue worldPos higher)
      by (unfold terrainValue; lra).
    lra.
Qed.

Lemma classification_by_elevation_witness :
  let land : sampler2D := fun _ => Vec4 0.9 0 0 1 in
  category_of_code
    (classifyEnhancedTerrain land (Vec2 0.2 0.3) (Vec3 1.5 0.5 2) 0.85)
  = Some Mountain.
Proof.
  intros land.
  assert (Hland : 0.5 <= chan_r (texture2D land (Vec2 0.2 0.3)))
    by (unfold land, chan_r, texture2D; simpl; lra).
  destruct (classification_by_elevation land (Vec2 0.2 0.3) (Vec3 1.5 0.5 2)
              0.85 Hland) as (H & _).
  apply H. lra.
Defined.

(** ** Terrain displacement *)

(** Whatever the terrain type, its noise is nonnegative and below 1.71
    (the canyon case comes closest). *)
Lemma terrainNoise_range (noisePos : vec3) (terrainType : Z) (noise : R) :
  terrainNoise noisePos terrainType = Some noise -> 0 <= noise < 1.71.
Proof.
  assert (P : forall q, 0 <= perlinNoise q < 1) by apply perlinNoise_unit.
  assert (F : forall q f a n, 0 <= a ->
            0 <= fractalNoise q f a n <= geomSum a (Z.to_nat n))
    by (intros; now apply fractalNoise_le_geomSum).
  intros E. unfold terrainNoise in E.
  destruct terrainType as [|p|p]; [| |discriminate E];
    [|do 3 (try (destruct p as [p|p|]; try discriminate E))];
    cbv zeta in E; injection E as <-;
    repeat match goal with
           | |- context [perlinNoise ?q] =>
               let H := fresh "Hp" in
               pose proof (P q) as H; generalize dependent (perlinNoise q); intros
           | |- context [fractalNoise ?q ?f ?a ?n] =>
               let H := fresh "Hf" in
               pose proof (F q f a n ltac:(lra)) as H;
               simpl in H;
               generalize dependent (fractalNoise q f a n); intros
           end; lra.
Qed.

(** X4. The terrain displacement is always along the normal, with a
    factor between [0.8 * elevation] and
    [0.8 * elevation + 1.71 * max(0, diversity) + 0.31 * max(0, animation)]:
    the noise never pulls a vertex below its elevation displacement.
    With the diversity at or below 0 the displacement is the elevation
    displacement alone, whatever the animation uniform is. *)
Theorem terrain_displacement_along_normal
    (uTime uTerrainDiversity uTerrainAnimation : R)
    (position normal : vec3) (uv : vec2) (elevation : R) (terrainType : Z) :
  let d := calculateEnhancedTerrain uTime uTerrainDiversity uTerrainAnimation
             position normal uv elevation terrainType in
  (exists k, d = scale3 normal k /\
     0.8 * elevation <= k
       <= 0.8 * elevation + 1.71 * Rmax 0 uTerrainDiversity
                          + 0.31 * Rmax 0 uTerrainAnimation) /\
  (uTerrainDiversity <= 0 -> d = scale3 normal (0.8 * elevation)).
Proof.
  intros d. subst d. unfold calculateEnhancedTerrain. cbv zeta.
  set (noisePos := adds3 position (uTime * 0.05)).
  assert (Hbase : add3 (splat3 0.0) (scale3 (scale3 normal elevation) 0.8)
                  = scale3 normal (0.8 * elevation)).
  { unfold add3, zip3, splat3, scale3, map3; cbn [vx vy vz]. f_equal; lra. }
  rewrite Hbase.
  assert (Hadd : forall k n m, add3 (scale3 normal k) (scale3 (scale3 normal n) m)
                               = scale3 normal (k + n * m)).
  { intros. unfold add3, zip3, scale3, map3; cbn [vx vy vz]. f_equal; ring. }
  destruct (Rgt_dec uTerrainDiversity 0.0) as [HD|HD].
  - split; [|intros; lra].
    assert (HmaxD : Rmax 0 uTerrainDiversity = uTerrainDiversity)
      by (apply Rmax_right; lra).
    rewrite HmaxD.
    assert (Hstep : exists N, 0 <= N < 1.71 /\
              match terrainNoise noisePos terrainType with
              | Some noise =>
                  add3 (scale3 normal (0.8 * elevation))
                    (scale3 (scale3 normal noise) uTerrainDiversity)
              | None => scale3 normal (0.8 * elevation)
              end = scale3 normal (0.8 * elevation + N * uTerrainDiversity)).
    { destruct (terrainNoise noisePos terrainType) as [noise|] eqn:E.
      - exists noise. split; [now apply (terrainNoise_range noisePos terrainType)|].
        apply Hadd.
      - exists 0. split; [lra|]. f_equal. ring. }
    destruct Hstep as (N & HN & ->).
    assert (0 <= N * uTerrainDiversity) by (apply Rmult_le_pos; lra).
    assert (N * uTerrainDiversity <= 1.71 * uTerrainDiversity)
      by (apply Rmult_le_compat_r; lra).
    destruct (Rgt_dec uTerrainAnimation 0.0) as [HA|HA].
    + assert (HmaxA : Rmax 0 uTerrainAnimation = uTerrainAnimation)
        by (apply Rmax_right; lra).
      rewrite HmaxA, Hadd.
      eexists. split; [reflexivity|].
      pose proof (perlinNoise_unit
                    (adds3 (scale3 noisePos 1.5) (uTime * 0.1))) as Hb.
      pose proof (fractalNoise_le_geomSum
                    (adds3 (scale3 noisePos 2.5) (uTime * 0.08)) 1.0 0.6 2
                    ltac:(lra)) as Ha.
      simpl in Ha.
      set (M := perlinNoise _ * 0.15 + fractalNoise _ _ _ _ * 0.1).
      assert (HM : 0 <= M <= 0.31) by (subst M; lra).
      assert (0 <= M * uTerrainAnimation) by (apply Rmult_le_pos; lra).
      assert (M * uTerrainAnimation <= 0.31 * uTerrainAnimation)
        by (apply Rmult_le_compat_r; lra).
      lra.
    + assert (HmaxA : Rmax 0 uTerrainAnimation = 0)
        by (apply Rmax_left; lra).
      rewrite HmaxA.
      eexists. split; [reflexivity|]. lra.
  - split; [|reflexivity].
    assert (HmaxD : Rmax 0 uTerrainDiversity = 0) by (apply Rmax_left; lra).
    rewrite HmaxD.
    exists (0.8 * elevation). split; [reflexivity|].
    pose proof (Rmax_l 0 uTerrainAnimation). lra.
Qed.

Lemma terrain_displacement_along_normal_witness :
  calculateEnhancedTerrain 3 0 1 (Vec3 0 0 2.75) (Vec3 0 0 1) (Vec2 0.5 0.5)
    0.5 1
  = scale3 (Vec3 0 0 1) (0.8 * 0.5).
Proof.
  destruct (terrain_displacement_along_normal 3 0 1 (Vec3 0 0 2.75)
              (Vec3 0 0 1) (Vec2 0.5 0.5) 0.5 1) as (_ & H).
  apply H. lra.
Defined.

(** ** Lighting *)

Lemma light_direction :
  normalize3 (Vec3 1.0 1.0 0.5) = Vec3 (2 / 3) (2 / 3) (1 / 3).
Proof.
  assert (L : length3 (Vec3 1.0 1.0 0.5) = 1.5).
  { unfold length3, dot3; cbn [vx vy vz].
    replace (1.0 * 1.0 + 1.0 * 1.0 + 0.5 * 0.5) with (1.5 * 1.5) by lra.
    apply sqrt_square. lra. }
  unfold normalize3, map3; cbn [vx vy vz]. rewrite L.
  f_equal; lra.
Qed.

(** X5. The lighting term lies in [0, 1].  With an ambient level in
    [0, 1] and a nonnegative directional weight it never drops below the
    ambient level, and a surface whose normal points away from the light
    direction (1, 1, 0.5) gets exactly the ambient level. *)
Theorem calculateLighting_range (uAmbientLight uDirectionalLight : R)
    (position normal : vec3) :
  let l := calculateLighting uAmbientLight uDirectionalLight position normal in
  0 <= l <= 1 /\
  (0 <= uAmbientLight <= 1 -> 0 <= uDirectionalLight -> uAmbientLight <= l) /\
  (0 <= uAmbientLight <= 1 ->
   2 * vx normal + 2 * vy normal + vz normal <= 0 -> l = uAmbientLight).
Proof.
  intros l. subst l. unfold calculateLighting, clamp. cbv zeta.
  rewrite light_direction. unfold dot3; cbn [vx vy vz].
  set (c := vx normal * (2 / 3) + vy normal * (2 / 3) + vz normal * (1 / 3)).
  split; [|split].
  - unfold Rmin, Rmax.
    repeat match goal with
           | |- context [Rle_dec ?x ?y] => destruct (Rle_dec x y)
           end; lra.
  - intros Ha Hd.
    assert (0 <= Rmax 0.0 c) by (apply Rmax_l || (pose proof (Rmax_l 0.0 c); lra)).
    assert (0 <= Rmax 0.0 c * uDirectionalLight) by (apply Rmult_le_pos; lra).
    unfold Rmin.
    destruct (Rle_dec (Rmax (uAmbientLight + Rmax 0.0 c * uDirectionalLight) 0.0) 1.0);
      [|lra].
    pose proof (Rmax_l (uAmbientLight + Rmax 0.0 c * uDirectionalLight) 0.0).
    lra.
  - intros Ha Hn.
    assert (Hc : c <= 0) by (subst c; lra).
    assert (E : Rmax 0.0 c = 0) by (unfold Rmax; destruct (Rle_dec 0.0 c); lra).
    rewrite E, Rmult_0_l, Rplus_0_r.
    unfold Rmax. destruct (Rle_dec uAmbientLight 0.0);
      unfold Rmin;
      match goal with
      | |- context [Rle_dec ?x ?y] => destruct (Rle_dec x y)
      end; lra.
Qed.

Lemma calculateLighting_range_witness :
  calculateLighting 0.7 1.0 (Vec3 0 0 (- 2.75)) (Vec3 0 0 (- 1)) = 0.7.
Proof.
  destruct (calculateLighting_range 0.7 1.0 (Vec3 0 0 (- 2.75)) (Vec3 0 0 (- 1)))
    as (_ & _ & H).
  apply H; cbn [vx vy vz]; lra.
Defined.

(** ** Colour adjustment *)

(** X6. Saturation adjustment keeps the luminance
    [0.299 r + 0.587 g + 0.114 b] of a colour (the three weights add up
    to 1), so two adjustments compose to one with the product of the
    factors; saturation 0 gives the grey of that luminance.  Contrast
    adjustments compose the same way and leave mid-grey 0.5 fixed. *)
Theorem colour_adjustments_compose (color : vec3) (s1 s2 c1 c2 : R) :
  let luminance v := dot3 v (Vec3 0.299 0.587 0.114) in
  luminance (adjustSaturation color s1) = luminance color /\
  adjustSaturation (adjustSaturation color s1) s2 = adjustSaturation color (s1 * s2) /\
  adjustSaturation color 0 = splat3 (luminance color) /\
  adjustContrast (adjustContrast color c1) c2 = adjustContrast color (c1 * c2) /\
  adjustContrast (splat3 0.5) c1 = splat3 0.5.
Proof.
  intros luminance. subst luminance.
  destruct color as [r g b].
  assert (L : dot3 (adjustSaturation (Vec3 r g b) s1) (Vec3 0.299 0.587 0.114)
              = dot3 (Vec3 r g b) (Vec3 0.299 0.587 0.114)).
  { unfold adjustSaturation, mix3, mix, zip3, splat3, dot3; cbn [vx vy vz]. lra. }
  split; [exact L|]. split; [|split; [|split]].
  - unfold adjustSaturation at 1. rewrite L.
    unfold adjustSaturation, mix3, mix, zip3, splat3; cbn [vx vy vz].
    f_equal; ring.
  - unfold adjustSaturation, mix3, mix, zip3, splat3; cbn [vx vy vz].
    f_equal; ring.
  - unfold adjustContrast, adds3, subs3, scale3, map3; cbn [vx vy vz].
    f_equal; ring.
  - unfold adjustContrast, adds3, subs3, scale3, splat3, map3; cbn [vx vy vz].
    f_equal; ring.
Qed.

(** ** Classic Perlin noise at lattice points *)

Import VertexShader.

Lemma fade1_0 : fade1 0 = 0.
Proof. unfold fade1. lra. Qed.

(** X7. [pnoise] is bounded by 11.88 in absolute value, and it is
    exactly 0 at every point with integer coordinates, whatever the
    period [rep]. *)
Theorem pnoise_lattice_zero (P rep : vec3) (i j k : Z) :
  - 11.88 <= pnoise P rep <= 11.88 /\
  pnoise (Vec3 (IZR i) (IZR j) (IZR k)) rep = 0.
Proof.
  split.
  - pose proof (pnoise_bound P rep) as H. unfold within in H. lra.
  - unfold pnoise. cbv zeta.
    match goal with
    | |- context [gradients ?i0] => destruct (gradients i0) as [[gx0 gy0] gz0]
    end.
    match goal with
    | |- context [gradients ?i1] => destruct (gradients i1) as [[gx1 gy1] gz1]
    end.
    unfold taylorInvSqrt, fade, sub3, splat3, zip4, zip3, map4, map3.
    cbn [x4 y4 z4 w4 vx vy vz x2 y2].
    rewrite !fract_IZR, fade1_0, !mix_0.
    unfold dot3, scale3, map3; cbn [vx vy vz]. ring.
Qed.

(** ** Reach and size of the bulge *)

(** X8. The bulge moves no vertex at or beyond the radius, in either
    shader; in the vertex shader, whose cubic falloff is cut off at
    0.001, it already stops at 90% of the radius.  Where the vertex
    shader does displace, the amount is between 0.792 and 3.52 times
    [strength * falloff * intensity]. *)
Theorem bulge_reach (uTime : R) (worldPos normal mousePos : vec3)
    (strength radius intensity : R) :
  let distance := length3 (sub3 worldPos mousePos) in
  (0.9 * radius <= distance ->
     VertexShader.calculateBulgeDisplacement uTime worldPos normal mousePos
       strength radius intensity = splat3 0.0) /\
  (radius <= distance ->
     EnhancedShader.calculateBulgeDisplacement uTime worldPos normal mousePos
       strength radius intensity = splat3 0.0) /\
  (forall falloff, 0 <= strength -> 0 <= falloff -> 0 <= intensity ->
     0.792 * (strength * falloff * intensity)
       <= bulgeAmount uTime worldPos strength falloff intensity
       <= 3.52 * (strength * falloff * intensity)).
Proof.
  intros distance.
  assert (Hd : 0 <= distance) by (apply sqrt_pos).
  split; [|split].
  - intros H. unfold VertexShader.calculateBulgeDisplacement. cbv zeta.
    fold distance.
    assert (Hf : VertexShader.smoothFalloff distance radius <= 0.001).
    { unfold VertexShader.smoothFalloff. cbv zeta.
      destruct (Rge_dec distance radius) as [Hge|Hlt]; [lra|].
      assert (Hr : 0 < radius) by lra.
      destruct (div_facts distance radius Hr) as (A & B & _).
      specialize (A Hd). specialize (B ltac:(lra)).
      assert (Hq : 0.9 <= distance / radius).
      { apply (Rmult_le_reg_r radius); [exact Hr|].
        unfold Rdiv. rewrite Rmult_assoc, Rinv_l by lra. lra. }
      set (x := 1.0 - distance / radius).
      assert (Hx : 0 <= x <= 0.1) by (subst x; lra).
      assert (x * x <= 0.1 * 0.1) by nra.
      assert (x * x * x <= 0.1 * 0.1 * 0.1) by nra.
      lra. }
    destruct (Rle_dec (VertexShader.smoothFalloff distance radius) 0.001);
      [reflexivity|lra].
  - intros H. unfold EnhancedShader.calculateBulgeDisplacement. cbv zeta.
    fold distance.
    assert (Hf : EnhancedShader.smoothFalloff distance radius = 0.0).
    { unfold EnhancedShader.smoothFalloff.
      destruct (Rge_dec distance radius); [reflexivity|lra]. }
    rewrite Hf. destruct (Rle_dec 0.0 0.001); [reflexivity|lra].
  - intros falloff Hs Hf Hi. unfold bulgeAmount. cbv zeta.
    pose proof (bulgeNoise_range uTime worldPos) as Hn.
    pose proof (SIN_bound (uTime * 1.5)) as Hsin.
    set (anim := sin (uTime * 1.5) * 0.05 + 0.95).
    set (nf := 1.0 + bulgeNoise uTime worldPos) in *.
    assert (Ha : 0.9 <= anim <= 1.0) by (subst anim; lra).
    assert (H1 : 0 <= strength * falloff) by (apply Rmult_le_pos; assumption).
    set (m := strength * falloff * intensity).
    assert (Hm : 0 <= m) by (subst m; apply Rmult_le_pos; assumption).
    assert (H2 : 0.9 * m <= m * anim <= 1.0 * m) by nra.
    assert (H3 : 0.4 * (m * anim) <= m * anim * nf <= 1.6 * (m * anim)) by nra.
    lra.
Qed.

Lemma bulge_reach_witness :
  VertexShader.calculateBulgeDisplacement 0 (Vec3 0 0 1) (Vec3 0 0 1)
    (Vec3 0 0 0) 1 1 0.3 = splat3 0.0.
Proof.
  destruct (bulge_reach 0 (Vec3 0 0 1) (Vec3 0 0 1) (Vec3 0 0 0) 1 1 0.3)
    as (H & _).
  apply H.
  assert (E : length3 (sub3 (Vec3 0 0 1) (Vec3 0 0 0)) = 1).
  { unfold length3, dot3, sub3, zip3; cbn [vx vy vz].
    replace ((0 - 0) * (0 - 0) + (0 - 0) * (0 - 0) + (1 - 0) * (1 - 0))
      with 1 by ring.
    apply sqrt_1. }
  rewrite E. lra.
Defined.

(** ** Interpolation *)

Import Interpolation.

(** The cap [Math.min(1.0, .)] never applies: the factor is below 1. *)
Lemma smooth_factor (x : R) : Rmin 1.0 (1.0 - exp x) = 1 - exp x.
Proof.
  pose proof (exp_pos x). unfold Rmin.
  destruct (Rle_dec 1.0 (1.0 - exp x)); lra.
Qed.

Lemma smooth_residual (current target deltaTime speed : R) :
  smoothInterpolation current target deltaTime speed - target
  = (current - target) * exp (- speed * deltaTime).
Proof.
  unfold smoothInterpolation, lerp. cbv zeta. rewrite smooth_factor. ring.
Qed.



End ShaderExtra.

(* ================================================================== *)
(** * Properties of the terrain cache *)

Module CacheProps.
Import TerrainCache.
Import Lqa.
Local Open Scope Q_scope.

Lemma underscore_string : String underscore EmptyString = "_"%string.
Proof. reflexivity. Qed.

Lemma string_of_uint_digits (d : Decimal.uint) :
  ~ hasChar underscore (DecimalString.NilEmpty.string_of_uint d).
Proof.
  induction d; cbn [DecimalString.NilEmpty.string_of_uint hasChar];
    try tauto; intros [E | E]; try tauto; discriminate E.
Qed.

Lemma showInt_no_underscore (z : Z) : ~ hasChar underscore (showInt z).
Proof.
  unfold showInt.
  destruct z as [|p|p]; cbn [Z.to_int DecimalString.NilZero.string_of_int].
  - cbn. intros [E | []]. discriminate E.
  - unfold DecimalString.NilZero.string_of_uint.
    destruct (Pos.to_uint p) eqn:E; try apply string_of_uint_digits.
    cbn. intros [E' | []]. discriminate E'.
  - unfold DecimalString.NilZero.string_of_uint.
    cbn [hasChar]. intros [E | H]; [discriminate E|].
    revert H. destruct (Pos.to_uint p) eqn:E; try apply string_of_uint_digits.
    cbn. intros [E' | []]. discriminate E'.
Qed.

Lemma showInt_inj (a b : Z) : showInt a = showInt b -> a = b.
Proof.
  unfold showInt. intros E.
  assert (nonnil : forall z, Z.to_int z <> Decimal.Pos Decimal.Nil /\
                             Z.to_int z <> Decimal.Neg Decimal.Nil).
  { intros [|p|p]; cbn [Z.to_int]; split; try discriminate;
      intros [= H]; exact (DecimalPos.Unsigned.to_uint_nonnil p H). }
  assert (Ha := DecimalString.NilZero.isi (Z.to_int a)
                  (proj1 (nonnil a)) (proj2 (nonnil a))).
  assert (Hb := DecimalString.NilZero.isi (Z.to_int b)
                  (proj1 (nonnil b)) (proj2 (nonnil b))).
  rewrite E, Hb in Ha. injection Ha as Ha.
  rewrite <- (DecimalZ.of_to a), <- (DecimalZ.of_to b). now rewrite Ha.
Qed.

(** A separator splits a string uniquely when the part before it has
    no separator. *)
Lemma split_at_separator (s1 s2 r1 r2 : string) :
  ~ hasChar underscore s1 -> ~ hasChar underscore s2 ->
  (s1 ++ String underscore r1 = s2 ++ String underscore r2)%string ->
  s1 = s2 /\ r1 = r2.
Proof.
  revert s2. induction s1 as [|a s1 IH]; intros [|b s2] H1 H2 E;
    cbn [String.append hasChar] in *.
  - injection E as E. now split.
  - injection E as Eb _. exfalso. apply H2. left. now symmetry.
  - injection E as Ea _. exfalso. apply H1. now left.
  - injection E as Eab E. subst b.
    destruct (IH s2 ltac:(tauto) ltac:(tauto) E) as [-> ->]. now split.
Qed.

Lemma generateKey_sameCell (u v d u' v' d' : Q) :
  generateKey u v d = generateKey u' v' d' <-> sameCell u v d u' v' d'.
Proof.
  unfold generateKey, sameCell. cbv zeta. split.
  - rewrite <- underscore_string. cbn [String.append]. intros E.
    apply split_at_separator in E; try apply showInt_no_underscore.
    destruct E as [E1 E].
    apply split_at_separator in E; try apply showInt_no_underscore.
    destruct E as [E2 E3].
    repeat split; now apply showInt_inj.
  - intros (-> & -> & ->). reflexivity.
Qed.

Section CacheLemmas.
Variable TerrainData : Type.

Let JsMap := JsMap TerrainData.
Let Cache := EnhancedTerrainCache TerrainData.

Lemma mapGet_mapSet_same (k : string) (d : TerrainData) (m : JsMap) :
  mapGet k (mapSet k d m) = Some d.
Proof.
  unfold mapGet. induction m as [|[k0 d0] m IH]; cbn [mapSet find fst].
  - now rewrite String.eqb_refl.
  - destruct (String.eqb k0 k) eqn:E; cbn [find fst]; rewrite E; [reflexivity|].
    exact IH.
Qed.

Lemma mapGet_mapSet_other (k k' : string) (d : TerrainData) (m : JsMap) :
  k <> k' -> mapGet k' (mapSet k d m) = mapGet k' m.
Proof.
  intros Hne. unfold mapGet.
  induction m as [|[k0 d0] m IH]; cbn [mapSet find fst].
  - apply String.eqb_neq in Hne. now rewrite Hne.
  - destruct (String.eqb k0 k) eqn:E; cbn [find fst].
    + apply String.eqb_eq in E. subst k0.
      apply String.eqb_neq in Hne. now rewrite Hne.
    + destruct (String.eqb k0 k'); [reflexivity | exact IH].
Qed.

Lemma mapGet_None (k : string) (m : JsMap) :
  ~ In k (mapKeys m) -> mapGet k m = None.
Proof.
  unfold mapGet, mapKeys.
  induction m as [|[k0 d0] m IH]; cbn [map In find fst]; [reflexivity|].
  intros H. destruct (String.eqb k0 k) eqn:E.
  - apply String.eqb_eq in E. tauto.
  - apply IH. tauto.
Qed.

Lemma mapGet_Some (k : string) (m : JsMap) :
  In k (mapKeys m) -> exists d, mapGet k m = Some d.
Proof.
  unfold mapGet, mapKeys.
  induction m as [|[k0 d0] m IH]; cbn [map In find fst]; [tauto|].
  intros H. destruct (String.eqb k0 k) eqn:E.
  - now exists d0.
  - apply String.eqb_neq in E. apply IH. tauto.
Qed.

Lemma mapKeys_mapSet_present (k : string) (d : TerrainData) (m : JsMap) :
  In k (mapKeys m) -> mapKeys (mapSet k d m) = mapKeys m.
Proof.
  unfold mapKeys.
  induction m as [|[k0 d0] m IH]; cbn [map In mapSet fst]; [tauto|].
  intros H. destruct (String.eqb k0 k) eqn:E; cbn [map fst]; [reflexivity|].
  apply String.eqb_neq in E. f_equal. apply IH. tauto.
Qed.

Lemma mapKeys_mapSet_absent (k : string) (d : TerrainData) (m : JsMap) :
  ~ In k (mapKeys m) -> mapKeys (mapSet k d m) = mapKeys m ++ [k].
Proof.
  unfold mapKeys.
  induction m as [|[k0 d0] m IH]; cbn [map In mapSet fst app]; [reflexivity|].
  intros H. destruct (String.eqb k0 k) eqn:E.
  - apply String.eqb_eq in E. tauto.
  - cbn [map fst]. f_equal. apply IH. tauto.
Qed.

Lemma mapSet_NoDup (k : string) (d : TerrainData) (m : JsMap) :
  NoDup (mapKeys m) -> NoDup (mapKeys (mapSet k d m)).
Proof.
  intros H. destruct (in_dec string_dec k (mapKeys m)) as [Hin | Hnin].
  - now rewrite mapKeys_mapSet_present.
  - rewrite mapKeys_mapSet_absent by assumption.
    apply NoDup_app; [assumption | repeat constructor; intros [] | ].
    intros x Hx [<- | []]. tauto.
Qed.

Lemma mapSet_length (k : string) (d : TerrainData) (m : JsMap) :
  List.length (mapSet k d m) =
  if in_dec string_dec k (mapKeys m) then List.length m
  else S (List.length m).
Proof.
  rewrite <- !(length_map fst). fold (mapKeys (mapSet k d m)) (mapKeys m).
  destruct (in_dec string_dec k (mapKeys m)).
  - now rewrite mapKeys_mapSet_present.
  - rewrite mapKeys_mapSet_absent, length_app by assumption. cbn. lia.
Qed.

Lemma mapDelete_absent (k : string) (m : JsMap) :
  ~ In k (mapKeys m) -> mapDelete k m = m.
Proof.
  unfold mapDelete, mapKeys.
  induction m as [|[k0 d0] m IH]; cbn [map In filter fst]; [reflexivity|].
  intros H. destruct (String.eqb k0 k) eqn:E; cbn [negb].
  - apply String.eqb_eq in E. tauto.
  - f_equal. apply IH. tauto.
Qed.

(** Deleting the first [n] keys of a map with unique keys drops its
    first [n] entries. *)
Lemma evict_skipn (n : nat) (m : JsMap) :
  NoDup (mapKeys m) ->
  fold_left (fun m key => mapDelete key m) (firstn n (mapKeys m)) m =
  skipn n m.
Proof.
  revert m. induction n as [|n IH]; intros m H; [reflexivity|].
  destruct m as [|[k0 d0] m]; [reflexivity|].
  cbn [mapKeys map fst firstn fold_left skipn].
  inversion H as [|? ? Hnin Hnd]; subst.
  unfold mapDelete at 2. cbn [filter fst]. rewrite String.eqb_refl. cbn [negb].
  fold (mapDelete k0 m). rewrite mapDelete_absent by assumption.
  now apply IH.
Qed.

Lemma skipn_NoDup {A} (n : nat) (l : list A) : NoDup l -> NoDup (skipn n l).
Proof.
  intros H. rewrite <- (firstn_skipn n l) in H.
  now apply NoDup_app_remove_l in H.
Qed.

Lemma NoDup_app_disjoint {A} (l1 l2 : list A) :
  NoDup (l1 ++ l2) -> forall a, In a l1 -> ~ In a l2.
Proof.
  induction l1 as [|x l1 IH]; cbn [app In]; [tauto|].
  intros H a [<- | Hin] H2.
  - inversion H as [|? ? Hnin _]; subst. apply Hnin. apply in_or_app. now right.
  - inversion H; subst. now apply (IH ltac:(assumption) a).
Qed.

Lemma mapGet_app_absent (k : string) (m1 m2 : JsMap) :
  ~ In k (mapKeys m1) -> mapGet k (m1 ++ m2) = mapGet k m2.
Proof.
  unfold mapGet, mapKeys.
  induction m1 as [|[k0 d0] m1 IH]; cbn [map In find fst app]; [reflexivity|].
  intros H. destruct (String.eqb k0 k) eqn:E.
  - apply String.eqb_eq in E. tauto.
  - apply IH. tauto.
Qed.

Lemma mapKeys_firstn (n : nat) (m : JsMap) :
  mapKeys (firstn n m) = firstn n (mapKeys m).
Proof. unfold mapKeys. now rewrite firstn_map. Qed.

Lemma mapKeys_skipn (n : nat) (m : JsMap) :
  mapKeys (skipn n m) = skipn n (mapKeys m).
Proof. unfold mapKeys. now rewrite skipn_map. Qed.

Lemma set_evicting (u v d : Q) (data : TerrainData) (c : Cache) :
  NoDup (mapKeys (terrainCache c)) ->
  (maxCacheSize <= cacheSize c)%Z ->
  set u v d data c =
  mkCache (mapSet (generateKey u v d) data (skipn 1000 (terrainCache c)))
    (cacheSize c - 1000 + 1) (cacheHitRate c) (totalRequests c).
Proof.
  intros Hnd Hfull. unfold set.
  apply Z.leb_le in Hfull. rewrite Hfull.
  cbn [terrainCache cacheSize cacheHitRate totalRequests].
  now rewrite evict_skipn.
Qed.

Lemma set_plain (u v d : Q) (data : TerrainData) (c : Cache) :
  (cacheSize c < maxCacheSize)%Z ->
  set u v d data c =
  mkCache (mapSet (generateKey u v d) data (terrainCache c))
    (cacheSize c + 1) (cacheHitRate c) (totalRequests c).
Proof.
  intros Hroom. unfold set.
  apply Z.leb_gt in Hroom. now rewrite Hroom.
Qed.

Lemma cacheInv_new : cacheInv (newCache TerrainData).
Proof.
  unfold cacheInv, newCache, maxCacheSize. cbn. repeat split; try lia; try lra.
  constructor.
Qed.

Lemma cacheInv_get (truthy : TerrainData -> bool) (u v d : Q) (c : Cache) :
  cacheInv c -> cacheInv (snd (get truthy u v d c)).
Proof.
  unfold cacheInv, get.
  cbn [snd terrainCache cacheSize cacheHitRate totalRequests].
  intros (Hnd & Hsz & Hr). repeat split; try tauto; try lia;
    destruct (match mapGet _ _ with Some r => truthy r | None => false end);
    lra.
Qed.

Lemma cacheInv_set (u v d : Q) (data : TerrainData) (c : Cache) :
  cacheInv c -> cacheInv (set u v d data c).
Proof.
  unfold cacheInv. intros (Hnd & Hsz & Hr).
  destruct (Z_lt_le_dec (cacheSize c) maxCacheSize) as [Hroom | Hfull].
  - rewrite set_plain by assumption.
    cbn [terrainCache cacheSize cacheHitRate].
    split; [now apply mapSet_NoDup|]. split; [|assumption].
    rewrite mapSet_length. destruct (in_dec _ _ _); lia.
  - rewrite set_evicting by assumption.
    cbn [terrainCache cacheSize cacheHitRate].
    split; [apply mapSet_NoDup; rewrite mapKeys_skipn; now apply skipn_NoDup|].
    split; [|assumption].
    rewrite mapSet_length, length_skipn. unfold maxCacheSize in *.
    destruct (in_dec _ _ _); lia.
Qed.

Lemma cacheInv_step (truthy : TerrainData -> bool) (c : Cache)
    (op : CacheOp TerrainData) :
  cacheInv c -> cacheInv (cacheStep truthy c op).
Proof.
  destruct op; cbn [cacheStep].
  - apply cacheInv_get.
  - apply cacheInv_set.
  - intros _. apply cacheInv_new.
Qed.

Lemma cacheInv_run (truthy : TerrainData -> bool)
    (ops : list (CacheOp TerrainData)) (c : Cache) :
  cacheInv c -> cacheInv (cacheRun truthy ops c).
Proof.
  unfold cacheRun. revert c.
  induction ops as [|op ops IH]; intros c H; [exact H|].
  cbn [fold_left]. apply IH. now apply cacheInv_step.
Qed.

End CacheLemmas.

Example generateKey_sample :
  generateKey 0.5 0.257 1.5 = "50_25_15"%string /\
  generateKey (-0.001) 0 1 = "-1_0_10"%string.
Proof. split; reflexivity. Qed.

(** X10. Two lookups use the same cache key exactly when [u * 100],
    [v * 100] and [terrainDiversity * 10] have the same integer parts:
    the key text determines the three integers, and the integers
    determine the key. *)
Theorem generateKey_cells (u v d u' v' d' : Q) :
  generateKey u v d = generateKey u' v' d' <->
  Qround.Qfloor (u * 100) = Qround.Qfloor (u' * 100) /\
  Qround.Qfloor (v * 100) = Qround.Qfloor (v' * 100) /\
  Qround.Qfloor (d * 10) = Qround.Qfloor (d' * 10).
Proof. exact (generateKey_sameCell u v d u' v' d'). Qed.

(** X11. Whatever calls of [get], [set] and [clear] are made on a new
    cache, its keys stay distinct, the number of entries never exceeds
    the counter [cacheSize], the counter never exceeds 20000, and the
    hit rate stays between 0 and 1. *)
Theorem cache_invariant_reachable {TerrainData : Type}
    (truthy : TerrainData -> bool) (ops : list (CacheOp TerrainData)) :
  let c := cacheRun truthy ops (newCache TerrainData) in
  NoDup (mapKeys (terrainCache c)) /\
  (Z.of_nat (List.length (terrainCache c)) <= cacheSize c)%Z /\
  (cacheSize c <= 20000)%Z /\
  0 <= cacheHitRate c <= 1.
Proof.
  cbv zeta.
  destruct (cacheInv_run TerrainData truthy ops (newCache TerrainData)
              (cacheInv_new TerrainData)) as (Hnd & [Hlen Hmax] & Hr).
  unfold maxCacheSize in Hmax. tauto.
Qed.

(** X12. A value stored for one sample point is returned by the next
    lookup of any point of the same cell, whether or not the store had
    to evict entries first.  The lookup counts one request, and moves
    the hit rate to [rate * 0.9 + 0.1] only when the stored value is
    truthy: a falsy stored value is returned but not counted as a hit. *)
Theorem cache_set_then_get {TerrainData : Type}
    (truthy : TerrainData -> bool) (u v d u' v' d' : Q)
    (data : TerrainData) (c : EnhancedTerrainCache TerrainData) :
  sameCell u v d u' v' d' ->
  let r := get truthy u' v' d' (set u v d data c) in
  fst r = Some data /\
  totalRequests (snd r) = (totalRequests c + 1)%Z /\
  cacheHitRate (snd r) =
    (if truthy data then cacheHitRate c * 0.9 + 0.1 else cacheHitRate c) /\
  terrainCache (snd r) = terrainCache (set u v d data c).
Proof.
  intros Hcell. apply generateKey_sameCell in Hcell.
  cbv zeta. unfold get. cbn [fst snd totalRequests cacheHitRate terrainCache].
  rewrite <- Hcell.
  assert (Hget : mapGet (generateKey u v d)
                   (terrainCache (set u v d data c)) = Some data).
  { unfold set. cbn [terrainCache]. apply mapGet_mapSet_same. }
  rewrite Hget. repeat split.
  - unfold set. cbn [totalRequests]. now destruct (maxCacheSize <=? cacheSize c)%Z.
  - unfold set. cbn [cacheHitRate].
    now destruct (maxCacheSize <=? cacheSize c)%Z.
Qed.

Lemma cache_set_then_get_witness :
  sameCell 0.5 0.25 1.5 0.509 0.2501 1.59 /\
  fst (get (fun z => negb (z =? 0)%Z) 0.509 0.2501 1.59
         (set 0.5 0.25 1.5 7%Z (newCache Z))) = Some 7%Z.
Proof.
  assert (H : sameCell 0.5 0.25 1.5 0.509 0.2501 1.59)
    by (repeat split; reflexivity).
  split; [exact H|].
  exact (proj1 (cache_set_then_get (fun z => negb (z =? 0)%Z)
                  0.5 0.25 1.5 0.509 0.2501 1.59 7%Z (newCache Z) H)).
Defined.

(** X13. While the counter is below 20000, storing a value leaves the
    lookups of every other cell as they were. *)
Theorem cache_set_other_cell {TerrainData : Type}
    (truthy : TerrainData -> bool) (u v d u' v' d' : Q)
    (data : TerrainData) (c : EnhancedTerrainCache TerrainData) :
  ~ sameCell u v d u' v' d' ->
  (cacheSize c < maxCacheSize)%Z ->
  fst (get truthy u' v' d' (set u v d data c)) = fst (get truthy u' v' d' c).
Proof.
  intros Hcell Hroom. rewrite set_plain by assumption.
  unfold get. cbn [fst terrainCache].
  apply mapGet_mapSet_other. intros E. apply Hcell.
  now apply generateKey_sameCell.
Qed.

Lemma cache_set_other_cell_witness :
  fst (get (fun z => negb (z =? 0)%Z) 0.51 0.25 1.5
         (set 0.5 0.25 1.5 7%Z (set 0.51 0.25 1.5 3%Z (newCache Z)))) =
  fst (get (fun z => negb (z =? 0)%Z) 0.51 0.25 1.5
         (set 0.51 0.25 1.5 3%Z (newCache Z))).
Proof.
  apply cache_set_other_cell.
  - intros (H & _). discriminate H.
  - reflexivity.
Defined.

(** X14. A store made when the counter has reached 20000 first drops
    the 1000 oldest entries of the map (all of them when there are
    fewer) and takes 1000 off the counter, which becomes 19001: the
    dropped keys, other than the one being stored, are no longer found,
    and every later entry keeps its value. *)
Theorem cache_eviction {TerrainData : Type} (u v d : Q)
    (data : TerrainData) (c : EnhancedTerrainCache TerrainData) :
  cacheInv c ->
  cacheSize c = maxCacheSize ->
  let c' := set u v d data c in
  terrainCache c' =
    mapSet (generateKey u v d) data (skipn 1000 (terrainCache c)) /\
  cacheSize c' = 19001%Z /\
  (forall k, In k (firstn 1000 (mapKeys (terrainCache c))) ->
             k <> generateKey u v d -> mapGet k (terrainCache c') = None) /\
  (forall k, In k (skipn 1000 (mapKeys (terrainCache c))) ->
             k <> generateKey u v d ->
             mapGet k (terrainCache c') = mapGet k (terrainCache c) /\
             mapGet k (terrainCache c') <> None).
Proof.
  intros (Hnd & Hsz & Hr) Hfull. cbv zeta.
  rewrite set_evicting by (try assumption; lia).
  cbn [terrainCache cacheSize]. rewrite Hfull.
  split; [reflexivity|]. split; [reflexivity|].
  assert (Hsplit := firstn_skipn 1000 (mapKeys (terrainCache c))).
  assert (Hnd' := Hnd). rewrite <- Hsplit in Hnd'.
  assert (Hdisj := NoDup_app_disjoint _ _ Hnd').
  split.
  - intros k Hk Hne. rewrite mapGet_mapSet_other by congruence.
    apply mapGet_None. rewrite mapKeys_skipn. now apply Hdisj.
  - intros k Hk Hne. rewrite mapGet_mapSet_other by congruence.
    assert (Hlater : mapGet k (skipn 1000 (terrainCache c)) =
                     mapGet k (terrainCache c)).
    { rewrite <- (firstn_skipn 1000 (terrainCache c)) at 2.
      symmetry. apply mapGet_app_absent. rewrite mapKeys_firstn.
      intros H1. exact (Hdisj k H1 Hk). }
    rewrite Hlater. split; [reflexivity|].
    destruct (mapGet_Some TerrainData k (terrainCache c)) as [x Hx];
      [|congruence].
    rewrite <- Hsplit. apply in_or_app. now right.
Qed.

Lemma cache_eviction_witness :
  let c := mkCache [("1_2_3"%string, 5%Z); ("4_5_6"%string, 6%Z)] 20000 0 0 in
  cacheSize (set 0.5 0.25 1.5 7%Z c) = 19001%Z.
Proof.
  cbv zeta.
  refine (proj1 (proj2 (cache_eviction 0.5 0.25 1.5 7%Z
            (mkCache [("1_2_3"%string, 5%Z); ("4_5_6"%string, 6%Z)] 20000 0 0)
            _ _))).
  - unfold cacheInv, maxCacheSize. cbn.
    split; [|split; [lia | lra]].
    repeat constructor; cbn; intros H; intuition discriminate.
  - reflexivity.
Defined.

(** X15. The counter counts stores, not entries: storing twice into the
    same cell adds two to [cacheSize] but only one entry to the map, so
    from then on the counter is larger than the number of entries and
    eviction starts before the map holds 20000 of them. *)
Theorem cache_overwrite_counted {TerrainData : Type} (u v d u' v' d' : Q)
    (data1 data2 : TerrainData) (c : EnhancedTerrainCache TerrainData) :
  cacheInv c ->
  sameCell u v d u' v' d' ->
  (cacheSize c + 1 < maxCacheSize)%Z ->
  let c1 := set u v d data1 c in
  let c2 := set u' v' d' data2 c1 in
  List.length (terrainCache c2) = List.length (terrainCache c1) /\
  cacheSize c2 = (cacheSize c + 2)%Z /\
  (Z.of_nat (List.length (terrainCache c2)) < cacheSize c2)%Z /\
  mapGet (generateKey u v d) (terrainCache c2) = Some data2.
Proof.
  intros Hinv Hcell Hroom. cbv zeta.
  apply generateKey_sameCell in Hcell.
  assert (Hinv1 := cacheInv_set TerrainData u v d data1 c Hinv).
  rewrite (set_plain _ u v d data1 c) in * by lia.
  rewrite set_plain by (cbn [cacheSize]; lia).
  rewrite <- Hcell. unfold cacheInv in Hinv1.
  cbn [terrainCache cacheSize] in *.
  destruct Hinv1 as (_ & Hlen & _).
  assert (Hl : List.length
            (mapSet (generateKey u v d) data2
               (mapSet (generateKey u v d) data1 (terrainCache c))) =
          List.length (mapSet (generateKey u v d) data1 (terrainCache c))).
  { rewrite (mapSet_length _ _ data2).
    destruct (in_dec _ _ _) as [|Hnin]; [reflexivity|].
    exfalso. apply Hnin.
    destruct (in_dec string_dec (generateKey u v d)
                (mapKeys (terrainCache c))).
    - now rewrite mapKeys_mapSet_present.
    - rewrite mapKeys_mapSet_absent by assumption.
      apply in_or_app. right. now left. }
  repeat split.
  - exact Hl.
  - lia.
  - rewrite Hl. lia.
  - apply mapGet_mapSet_same.
Qed.

Lemma cache_overwrite_counted_witness :
  cacheSize (set 0.509 0.25 1.5 8%Z (set 0.5 0.25 1.5 7%Z (newCache Z))) = 2%Z.
Proof.
  refine (proj1 (proj2 (cache_overwrite_counted
            0.5 0.25 1.5 0.509 0.25 1.5 7%Z 8%Z (newCache Z) _ _ _))).
  - apply cacheInv_new.
  - repeat split; reflexivity.
  - reflexivity.
Defined.

End CacheProps.

(* ================================================================== *)
(** * Further properties of the driver script *)

Module ScriptExtra.
Import Script ScriptSpec Controls PageSpec ScriptProps.
Import Lqa.
Local Open Scope Q_scope.

(** ** Texture loading and initialisation *)

Lemma loader_outcome (es : list LoadEvent) (n : nat) :
  (n < totalTextures)%nat ->
  settled (fold_left loaderStep es (mkLoader n false None)) =
    if existsb isError (firstn (totalTextures - n) es) then Some Rejected
    else if (totalTextures - n <=? List.length es)%nat then Some Resolved
    else None.
Proof.
  revert n. induction es as [|e es IH]; intros n Hn.
  - cbn [fold_left settled List.length]. rewrite firstn_nil. cbn [existsb].
    replace (totalTextures - n <=? 0)%nat with false; [reflexivity|].
    symmetry. apply Nat.leb_gt. lia.
  - destruct (totalTextures - n)%nat as [|k] eqn:Ek; [lia|].
    cbn [firstn existsb List.length fold_left].
    destruct e; cbn [isError orb loaderStep].
    + unfold checkAllLoaded. cbn [loadedCount hasError settled negb].
      rewrite andb_true_r.
      destruct (Nat.eqb (S n) totalTextures) eqn:E.
      * apply Nat.eqb_eq in E. assert (k = 0%nat) by lia. subst k.
        rewrite firstn_O. cbn [existsb]. cbn [Nat.leb].
        apply settled_sticky. reflexivity.
      * apply Nat.eqb_neq in E. rewrite IH by lia.
        replace (totalTextures - S n)%nat with k by lia. reflexivity.
    + apply settled_sticky. reflexivity.
Qed.

Lemma canvasWaitLoop_scan (env : Env) (n c : nat) (s : State) :
  canvasWaitLoop env n c s =
    if existsb (canvasPresent env) (seq c (S n))
    then (Normal tt, set_canvas true s)
    else (Throw CanvasNotFound, s).
Proof.
  revert c. induction n as [|n IH]; intros c.
  - cbn [canvasWaitLoop seq existsb]. unfold bind, waitForCanvas.
    destruct (canvasPresent env c); reflexivity.
  - cbn [canvasWaitLoop]. unfold bind, waitForCanvas.
    change (seq c (S (S n))) with (c :: seq (S c) (S n)). cbn [existsb].
    destruct (canvasPresent env c); [reflexivity|].
    cbn [orb]. apply IH.
Qed.

(** X16. The promise of [loadTextures] is decided by the first four
    callbacks: it is rejected when one of them is an error, resolved
    when all four are loads, and stays pending while fewer than four
    callbacks have run without an error.  Later callbacks change
    nothing. *)
Theorem loadTextures_outcome (events : list LoadEvent) :
  loadTextures events =
    if existsb isError (firstn 4 events) then Some Rejected
    else if (4 <=? List.length events)%nat then Some Resolved
    else None.
Proof.
  unfold loadTextures.
  rewrite (loader_outcome events 0) by (unfold totalTextures; lia).
  reflexivity.
Qed.

(** X17. The wait loop of [init] looks for the canvas 51 times (the
    counter is tested after it is incremented, with [> 50]): it throws
    exactly when the lookups 0 to 50 all fail, and what later lookups
    would find plays no part. *)
Theorem canvas_wait_limit (env : Env) (s : State) :
  (canvasWaitLoop env 50 0 s = (Throw CanvasNotFound, s) <->
   forall k, (k <= 50)%nat -> canvasPresent env k = false) /\
  (canvasWaitLoop env 50 0 s = (Normal tt, set_canvas true s) <->
   exists k, (k <= 50)%nat /\ canvasPresent env k = true) /\
  (forall env',
     (forall k, (k <= 50)%nat -> canvasPresent env' k = canvasPresent env k) ->
     canvasWaitLoop env' 50 0 s = canvasWaitLoop env 50 0 s).
Proof.
  assert (Hex : forall e : Env,
            existsb (canvasPresent e) (seq 0 51) = true <->
            exists k, (k <= 50)%nat /\ canvasPresent e k = true).
  { intros e. rewrite existsb_exists. split.
    - intros (k & Hin & Hk). apply in_seq in Hin. exists k. split; [lia|exact Hk].
    - intros (k & Hle & Hk). exists k. split; [apply in_seq; lia|exact Hk]. }
  rewrite canvasWaitLoop_scan. split; [|split].
  - destruct (existsb (canvasPresent env) (seq 0 51)) eqn:E.
    + split; [discriminate|]. intros Hall.
      apply Hex in E. destruct E as (k & Hle & Hk).
      rewrite (Hall k Hle) in Hk. discriminate.
    + split; [|reflexivity]. intros _ k Hle.
      destruct (canvasPresent env k) eqn:Ek; [|reflexivity].
      assert (Ht : existsb (canvasPresent env) (seq 0 51) = true)
        by (apply Hex; exists k; split; assumption).
      rewrite Ht in E. discriminate.
  - rewrite <- Hex.
    destruct (existsb (canvasPresent env) (seq 0 51)); split;
      try reflexivity; discriminate.
  - intros env' Hagree. rewrite canvasWaitLoop_scan.
    replace (existsb (canvasPresent env') (seq 0 51))
      with (existsb (canvasPresent env) (seq 0 51)); [reflexivity|].
    apply eq_true_iff_eq. rewrite !Hex.
    split; intros (k & Hle & Hk); exists k; (split; [exact Hle|]).
    + now rewrite Hagree.
    + now rewrite <- Hagree.
Qed.


(** ** Invariants of the running page *)

Ltac split_state s :=
  destruct s as [pm lm cv rd ct em ht tm io tb lr ors tr];
  cbn [performanceMonitor lodManager canvas renderer controls earthMesh
       hoverTracking targetMouse isMouseOverEarth targetBulgeStrength
       lastRaycastTime optimizingResets trace] in *.

Lemma writeDiversity_writeUniforms (f : Q -> Q) (m : option Mesh) :
  writeDiversity f m =
  writeUniforms (fun u => set_uTerrainDiversity (f (uTerrainDiversity u)) u) m.
Proof. destruct m as [[g [u|c sz]]|]; reflexivity. Qed.

Lemma sceneInv_writeUniforms (f : Uniforms -> Uniforms) (s : State) :
  (forall u, uniformsInRange u -> uniformsInRange (f u)) ->
  sceneInv s ->
  sceneInv (set_earthMesh (writeUniforms f (earthMesh s)) s).
Proof.
  intros Hf ((g & u & Hm & Hr) & Ht & Hfl). split_state s. subst em.
  split; [|split; assumption].
  exists g, (f u). split; [reflexivity|now apply Hf].
Qed.

Lemma sceneInv_lodManager (l : LODManager) (s : State) :
  onTable (currentLOD l) -> sceneInv s -> sceneInv (set_lodManager l s).
Proof.
  intros Hl (Hm & _ & Hfl). split_state s.
  split; [exact Hm|]. split; [exact Hl|exact Hfl].
Qed.

Lemma range_diversity (v : Q) (u : Uniforms) :
  0 <= v <= 1.5 -> uniformsInRange u ->
  uniformsInRange (set_uTerrainDiversity v u).
Proof. intros Hv (_ & Hb & Hc & Ha). repeat split; cbn; tauto. Qed.

Lemma range_brightness (v : Q) (u : Uniforms) :
  0.5 <= v <= 2 -> uniformsInRange u -> uniformsInRange (set_uBrightness v u).
Proof. intros Hv (Hd & _ & Hc & Ha). repeat split; cbn; tauto. Qed.

Lemma range_contrast (v : Q) (u : Uniforms) :
  0.5 <= v <= 2 -> uniformsInRange u -> uniformsInRange (set_uContrast v u).
Proof. intros Hv (Hd & Hb & _ & Ha). repeat split; cbn; tauto. Qed.

Lemma jsMin_range (cap lo x : Q) :
  lo <= cap -> lo <= x -> lo <= jsMin cap (x + 0.1) <= cap.
Proof.
  intros Hc Hx. unfold jsMin.
  destruct (Qle_bool cap (x + 0.1)) eqn:E; qbool; lra.
Qed.

Lemma jsMax_range (floor_ hi x : Q) :
  floor_ <= hi -> x <= hi -> floor_ <= jsMax floor_ (x - 0.1) <= hi.
Proof.
  intros Hc Hx. unfold jsMax.
  destruct (Qle_bool floor_ (x - 0.1)) eqn:E; qbool; lra.
Qed.

Lemma sceneInv_hover (intersectObject : Mesh -> Q -> Q -> list Vector3)
    (worldToLocal : Vector3 -> Vector3) (rl rt rw rh t x y : Q) (s : State) :
  sceneInv s ->
  sceneInv (updateHoverPosition intersectObject worldToLocal rl rt rw rh
              t x y s).
Proof.
  intros Hinv. unfold updateHoverPosition.
  destruct (Qltb _ _); [exact Hinv|].
  assert (H1 : sceneInv (set_lastRaycastTime t s)).
  { destruct Hinv as (Hm & Ht & Hfl). split_state s. repeat split; assumption. }
  revert H1. generalize (set_lastRaycastTime t s). intros s1 H1.
  destruct (earthMesh s1) as [mesh|] eqn:Em; [|exact H1].
  destruct (intersectObject mesh _ _) as [|pt rest].
  - cbv zeta. rewrite writeDiversity_writeUniforms.
    match goal with
    | |- sceneInv (set_earthMesh (writeUniforms ?f (earthMesh ?st)) ?st) =>
        apply (sceneInv_writeUniforms f st)
    end.
    + intros u. apply range_diversity. lra.
    + destruct H1 as (Hm & Ht & Hfl). split_state s1. repeat split; assumption.
  - cbv zeta. rewrite writeDiversity_writeUniforms.
    match goal with
    | |- sceneInv (set_earthMesh (writeUniforms ?f (earthMesh ?st)) ?st) =>
        apply (sceneInv_writeUniforms f st)
    end.
    + intros u. apply range_diversity. lra.
    + destruct H1 as (Hm & Ht & Hfl). split_state s1. repeat split; assumption.
Qed.

Lemma sceneInv_leave (s : State) : sceneInv s -> sceneInv (onMouseLeave s).
Proof.
  intros (Hm & Ht & Hfl). split_state s. repeat split; assumption.
Qed.

Lemma sceneInv_monitor (now : Q) (s : State) :
  sceneInv s -> sceneInv (PerformanceMonitor_update now s).
Proof.
  intros ((g & u & Hm & Hr) & Ht & Hfl). unfold PerformanceMonitor_update.
  split_state s. destruct pm as [fc lu fps opt]. subst em.
  unfold flagMatchesTimer in Hfl.
  cbn [performanceMonitor frameCount lastFPSUpdate currentFPS isOptimizing
       optimizingResets] in *.
  assert (Hkeep : forall pm', sceneInv
            (set_performanceMonitor
               (mkPerformanceMonitor (frameCount pm') (lastFPSUpdate pm')
                  (currentFPS pm') opt)
               (mkState (mkPerformanceMonitor fc lu fps opt) lm cv rd ct
                  (Some (mkMesh g (ShaderMaterial u))) ht tm io tb lr ors tr))).
  { intros pm'. split; [exists g, u; split; [reflexivity|exact Hr]|].
    split; [exact Ht|exact Hfl]. }
  destruct (Qle_bool 1000 (now - lu)).
  - destruct ((fc + 1 <? 45)%Z && negb opt) eqn:E.
    + apply andb_true_iff in E. destruct E as [_ E].
      apply negb_true_iff in E. subst opt. subst ors.
      unfold triggerOptimization. cbn.
      split; [|split; [exact Ht|]].
      * exists g. eexists. split; [reflexivity|].
        apply range_diversity; [|exact Hr].
        destruct Hr as (Hd & _). lra.
      * unfold flagMatchesTimer. cbn. eexists. reflexivity.
    + exact (Hkeep (mkPerformanceMonitor 0 now (fc + 1) opt)).
  - exact (Hkeep (mkPerformanceMonitor (fc + 1) lu fps opt)).
Qed.

Lemma onTable_optimal (d : Q) : onTable (calculateOptimalLOD d).
Proof. exact (calculateOptimalLOD_values d). Qed.

Lemma sceneInv_animate_LOD (d : Q) (s : State) :
  sceneInv s -> sceneInv (animate_LOD d s).
Proof.
  intros ((g & u & Hm & Hr) & Ht & Hfl).
  unfold animate_LOD, LODManager_update, createGeometry.
  split_state s. destruct lm as [cur tgt needs]. subst em.
  cbn [lodManager currentLOD targetLOD needsGeometryUpdate] in *.
  destruct (50 <=? Z.abs (calculateOptimalLOD d - cur))%Z.
  - cbn. split; [eexists; exists u; split; [reflexivity|exact Hr]|].
    split; [apply onTable_optimal|exact Hfl].
  - cbn. destruct needs; cbn;
      (split; [eexists; exists u; split; [reflexivity|exact Hr]|]);
      (split; [exact Ht|exact Hfl]).
Qed.

Lemma sceneInv_timers (now : Q) (s : State) :
  sceneInv s -> sceneInv (runTimers now s).
Proof.
  intros (Hm & Ht & Hfl). unfold runTimers.
  split_state s. destruct pm as [fc lu fps opt].
  unfold flagMatchesTimer in Hfl.
  cbn [performanceMonitor frameCount lastFPSUpdate currentFPS isOptimizing
       optimizingResets] in *.
  destruct opt.
  - destruct Hfl as (t & ->). cbn [filter].
    destruct (Qle_bool t now); cbn [negb].
    + split; [exact Hm|]. split; [exact Ht|]. reflexivity.
    + split; [exact Hm|]. split; [exact Ht|]. exists t. reflexivity.
  - subst ors. cbn [filter]. split; [exact Hm|]. split; [exact Ht|reflexivity].
Qed.

Lemma onTable_values (v : Z) :
  onTable v <-> v = 100%Z \/ v = 150%Z \/ v = 200%Z \/ v = 300%Z.
Proof. unfold onTable. cbn. intuition congruence. Qed.

Lemma sceneInv_keydown {TerrainData} (key : Key) (p : Page TerrainData) :
  pageInv p -> pageInv (keydown key p).
Proof.
  unfold pageInv. intros Hinv.
  destruct key; cbn [keydown onUniforms onScene scene resetToEnhancedDefaults];
    try exact Hinv;
    try (apply sceneInv_writeUniforms; [|exact Hinv]; intros u Hu).
  - apply range_diversity; [|exact Hu]. destruct (Qltb _ _); lra.
  - apply range_diversity; [|exact Hu]. destruct Hu as (Hd & _).
    assert (H := jsMin_range 1.0 0 (uTerrainDiversity u)). lra.
  - apply range_diversity; [|exact Hu]. destruct Hu as (Hd & _).
    assert (H := jsMax_range 0.0 1.5 (uTerrainDiversity u)). lra.
  - apply range_brightness; [|exact Hu]. destruct Hu as (_ & Hb & _).
    assert (H := jsMin_range 2.0 0.5 (uBrightness u)). lra.
  - apply range_brightness; [|exact Hu]. destruct Hu as (_ & Hb & _).
    assert (H := jsMax_range 0.5 2 (uBrightness u)). lra.
  - apply range_contrast; [|exact Hu]. destruct Hu as (_ & _ & Hc & _).
    assert (H := jsMin_range 2.0 0.5 (uContrast u)). lra.
  - apply range_contrast; [|exact Hu]. destruct Hu as (_ & _ & Hc & _).
    assert (H := jsMax_range 0.5 2 (uContrast u)). lra.
  - apply sceneInv_lodManager; [|exact Hinv]. cbn [currentLOD].
    apply onTable_values.
    destruct (300 <=? _)%Z; [tauto|]. destruct (150 <=? _)%Z; tauto.
  - apply sceneInv_lodManager; [apply onTable_values; cbn; tauto|].
    apply sceneInv_writeUniforms; [|exact Hinv]. intros u Hu.
    destruct Hu as (_ & _ & _ & Ha).
    unfold uniformsInRange, resetUniforms. cbn. repeat split; try lra. exact Ha.
  - destruct Hu as (Hd & Hb & Hc & _).
    unfold uniformsInRange. cbn. repeat split; try tauto.
    destruct (Qltb _ _); tauto.
Qed.

Lemma pageInv_step {TerrainData}
    (intersectObject : Mesh -> Q -> Q -> list Vector3)
    (worldToLocal : Vector3 -> Vector3) (rl rt rw rh : Q)
    (p : Page TerrainData) (e : PageEvent) :
  pageInv p ->
  pageInv (pageStep intersectObject worldToLocal rl rt rw rh p e).
Proof.
  intros Hinv. destruct e; cbn [pageStep].
  - now apply sceneInv_keydown.
  - unfold pageInv. cbn [onScene scene]. now apply sceneInv_hover.
  - unfold pageInv. cbn [onScene scene]. now apply sceneInv_leave.
  - unfold pageInv. cbn [onScene scene]. unfold animate_systems.
    now apply sceneInv_animate_LOD, sceneInv_monitor.
  - unfold pageInv. cbn [onScene scene]. now apply sceneInv_timers.
Qed.

Lemma pageInv_run {TerrainData}
    (intersectObject : Mesh -> Q -> Q -> list Vector3)
    (worldToLocal : Vector3 -> Vector3) (rl rt rw rh : Q)
    (es : list PageEvent) (p : Page TerrainData) :
  pageInv p ->
  pageInv (pageRun intersectObject worldToLocal rl rt rw rh es p).
Proof.
  unfold pageRun. revert p.
  induction es as [|e es IH]; intros p Hinv; [exact Hinv|].
  cbn [fold_left]. apply IH. now apply pageInv_step.
Qed.

Lemma pageInv_afterInit {TerrainData} :
  pageInv (@pageAfterInit TerrainData).
Proof.
  unfold pageInv, pageAfterInit. cbn [scene].
  split; [|split].
  - eexists. exists initialUniforms. split; [reflexivity|].
    unfold uniformsInRange. cbn. repeat split; try lra. now right.
  - apply onTable_values. cbn. tauto.
  - reflexivity.
Qed.

(** X19. However key presses, hover updates, mouse-leave events,
    animation frames and timer callbacks follow each other after a
    successful [init], the earth mesh remains a shader mesh, the terrain
    diversity stays in [0, 1.5], brightness and contrast stay in
    [0.5, 2], the animation switch is 0 or 1, the current resolution is
    one of the four of the level table, and the optimizing flag is set
    exactly while one reset timer is pending (so the flag cannot stay
    set for ever and timers do not pile up). *)
Theorem page_invariant {TerrainData : Type}
    (intersectObject : Mesh -> Q -> Q -> list Vector3)
    (worldToLocal : Vector3 -> Vector3)
    (rect_left rect_top rect_width rect_height : Q)
    (es : list PageEvent) :
  let p := pageRun intersectObject worldToLocal
             rect_left rect_top rect_width rect_height es
             (@pageAfterInit TerrainData) in
  (exists g u,
     earthMesh (scene p) = Some (mkMesh g (ShaderMaterial u)) /\
     0 <= uTerrainDiversity u <= 1.5 /\
     0.5 <= uBrightness u <= 2 /\
     0.5 <= uContrast u <= 2 /\
     (uTerrainAnimation u = 0.0 \/ uTerrainAnimation u = 1.0)) /\
  In (currentLOD (lodManager (scene p))) [100; 150; 200; 300]%Z /\
  (isOptimizing (performanceMonitor (scene p)) = true <->
   exists t, optimizingResets (scene p) = [t]) /\
  (isOptimizing (performanceMonitor (scene p)) = false <->
   optimizingResets (scene p) = []).
Proof.
  cbv zeta.
  destruct (pageInv_run intersectObject worldToLocal
              rect_left rect_top rect_width rect_height es
              (@pageAfterInit TerrainData) pageInv_afterInit)
    as ((g & u & Hm & Hr) & Ht & Hfl).
  split; [exists g, u; split; [exact Hm|exact Hr]|].
  split; [exact Ht|].
  unfold flagMatchesTimer in Hfl.
  destruct (isOptimizing _).
  - destruct Hfl as (t & Ht'). rewrite Ht'. split; split; eauto; discriminate.
  - rewrite Hfl. split; split; try reflexivity; try discriminate.
    intros (t & Ht'). discriminate.
Qed.

(** X20. With the current resolution on the level table (which the
    table's spacing guarantees is at least 50 away from every other
    table value), one frame always brings the current resolution to the
    optimum for the camera distance: the 50-vertex threshold never holds
    a change back.  When there is a mesh, its geometry is rebuilt at
    that resolution exactly when the resolution changed or a rebuild was
    requested, and the request flag is cleared. *)
Theorem lod_tracks_camera (d : Q) (s : State) (mesh : Mesh) :
  onTable (currentLOD (lodManager s)) ->
  earthMesh s = Some mesh ->
  let s' := animate_LOD d s in
  let optimal := calculateOptimalLOD d in
  let rebuilt := negb (optimal =? currentLOD (lodManager s))%Z
                 || needsGeometryUpdate (lodManager s) in
  currentLOD (lodManager s') = optimal /\
  targetLOD (lodManager s') = optimal /\
  needsGeometryUpdate (lodManager s') = false /\
  earthMesh s' =
    Some (if rebuilt
          then mkMesh (mkGeometry 2.75 optimal optimal) (material mesh)
          else mesh) /\
  regenerations (trace s') =
    (regenerations (trace s) + (if rebuilt then 1 else 0))%nat.
Proof.
  intros Ht Hm. cbv zeta.
  unfold animate_LOD, LODManager_update, createGeometry.
  split_state s. destruct lm as [cur tgt needs]. subst em.
  cbn [lodManager currentLOD targetLOD needsGeometryUpdate] in *.
  destruct (50 <=? Z.abs (calculateOptimalLOD d - cur))%Z eqn:E.
  - apply Z.leb_le in E.
    assert (Hne : (calculateOptimalLOD d =? cur)%Z = false)
      by (apply Z.eqb_neq; lia).
    rewrite Hne. cbn.
    repeat split; try reflexivity. rewrite !regenerations_app. cbn. lia.
  - apply Z.leb_gt in E.
    assert (Heq : calculateOptimalLOD d = cur)
      by (apply hysteresis_on_table; assumption).
    rewrite Heq, Z.eqb_refl. cbn [negb orb].
    destruct needs; cbn.
    + rewrite !regenerations_app. cbn. repeat split; try reflexivity. lia.
    + repeat split; try reflexivity. lia.
Qed.

Lemma lod_tracks_camera_witness :
  currentLOD (lodManager (animate_LOD 12 sceneWithShaderMesh)) = 150%Z.
Proof.
  refine (proj1 (lod_tracks_camera 12 sceneWithShaderMesh
            (mkMesh (mkGeometry 2.75 300 300) (ShaderMaterial initialUniforms))
            _ _)).
  - apply onTable_values. cbn. tauto.
  - reflexivity.
Defined.

(** X21. The L key steps the resolution 300 -> 150 -> 100 -> 300 (and
    200 -> 100); it never selects 200.  Its choice does not outlast the
    next frame: that frame puts the resolution back to the optimum for
    the camera distance, and because the key also requests a rebuild,
    the frame builds exactly one new geometry, at the optimal
    resolution. *)
Theorem manual_lod_overridden {TerrainData : Type} (p : Page TerrainData)
    (d : Q) (mesh : Mesh) :
  onTable (currentLOD (lodManager (scene p))) ->
  earthMesh (scene p) = Some mesh ->
  let current := currentLOD (lodManager (scene p)) in
  let p1 := keydown KeyL p in
  let next := currentLOD (lodManager (scene p1)) in
  let s2 := animate_LOD d (scene p1) in
  let optimal := calculateOptimalLOD d in
  (current = 300%Z -> next = 150%Z) /\
  (current = 200%Z \/ current = 150%Z -> next = 100%Z) /\
  (current = 100%Z -> next = 300%Z) /\
  next <> 200%Z /\
  currentLOD (lodManager s2) = optimal /\
  earthMesh s2 =
    Some (mkMesh (mkGeometry 2.75 optimal optimal) (material mesh)) /\
  regenerations (trace s2) = S (regenerations (trace (scene p))).
Proof.
  intros Ht Hm. cbv zeta.
  destruct p as [s dbg cache]. cbn [keydown onScene scene] in *.
  apply onTable_values in Ht.
  set (next := if (300 <=? currentLOD (lodManager s))%Z then 150%Z
               else if (150 <=? currentLOD (lodManager s))%Z then 100%Z
               else 300%Z).
  assert (Hnext : next = 150%Z \/ next = 100%Z \/ next = 300%Z)
    by (unfold next; destruct (300 <=? _)%Z; [tauto|];
        destruct (150 <=? _)%Z; tauto).
  assert (Hcycle :
    (currentLOD (lodManager s) = 300%Z -> next = 150%Z) /\
    (currentLOD (lodManager s) = 200%Z \/ currentLOD (lodManager s) = 150%Z ->
     next = 100%Z) /\
    (currentLOD (lodManager s) = 100%Z -> next = 300%Z)).
  { unfold next.
    repeat split; intros H; [|destruct H as [H|H]|]; rewrite H; reflexivity. }
  destruct Hcycle as (H1 & H2 & H3).
  split; [exact H1|]. split; [exact H2|]. split; [exact H3|].
  split; [cbn [lodManager set_lodManager currentLOD]; fold next; lia|].
  assert (Hm' : earthMesh
            (set_lodManager (mkLODManager next (targetLOD (lodManager s)) true)
               s) = Some mesh) by (split_state s; exact Hm).
  assert (Hon : onTable (currentLOD (lodManager
            (set_lodManager (mkLODManager next (targetLOD (lodManager s)) true)
               s)))).
  { split_state s. cbn [currentLOD]. apply onTable_values. tauto. }
  unfold animate_LOD, LODManager_update, createGeometry.
  fold next.
  split_state s. destruct lm as [cur tgt needs]. subst em.
  cbn [lodManager set_lodManager currentLOD targetLOD needsGeometryUpdate
       earthMesh] in *.
  destruct (50 <=? Z.abs (calculateOptimalLOD d - next))%Z eqn:E.
  - cbn. rewrite !regenerations_app. cbn.
    repeat split; try reflexivity. lia.
  - apply Z.leb_gt in E.
    assert (Heq : calculateOptimalLOD d = next).
    { apply hysteresis_on_table; [|exact E]. cbn. intuition congruence. }
    rewrite Heq. cbn. rewrite !regenerations_app. cbn.
    repeat split; try reflexivity. lia.
Qed.

Lemma manual_lod_overridden_witness :
  currentLOD (lodManager
    (animate_LOD 3 (scene (keydown KeyL (@pageAfterInit unit))))) = 300%Z.
Proof.
  refine (proj1 (proj2 (proj2 (proj2 (proj2
    (manual_lod_overridden (@pageAfterInit unit) 3
       (mkMesh (mkGeometry 2.75 300 300) (ShaderMaterial initialUniforms))
       _ _)))))).
  - apply onTable_values. cbn. tauto.
  - reflexivity.
Defined.




End ScriptExtra.

(* ================================================================== *)
(** * Properties of the helper modules *)

Module HelpersProps.
Import Helpers Interpolation.
Import Lra.
Local Open Scope R_scope.

Lemma frame_decay (currentTime lastTime : R) :
  let e := exp (Ropp 8.0 * frameDeltaTime currentTime lastTime) in
  0.872 <= e /\ 0 < e /\ (lastTime <= currentTime -> e <= 1).
Proof.
  cbv zeta. set (dt := frameDeltaTime currentTime lastTime).
  assert (Hdt : dt <= 0.016) by (unfold dt, frameDeltaTime; apply Rmin_r).
  pose proof (exp_ineq1_le (Ropp 8.0 * dt)) as H1.
  pose proof (exp_pos (Ropp 8.0 * dt)) as H2.
  split; [lra|]. split; [exact H2|].
  intros Hle.
  assert (Hdt0 : 0 <= dt).
  { unfold dt, frameDeltaTime. apply Rmin_glb; lra. }
  pose proof (exp_ineq1_le (8.0 * dt)) as H3.
  assert (Hprod : exp (Ropp 8.0 * dt) * exp (8.0 * dt) = 1).
  { rewrite <- exp_plus. replace (Ropp 8.0 * dt + 8.0 * dt) with 0 by lra.
    apply exp_0. }
  assert (H4 : 1 <= exp (8.0 * dt)) by lra.
  assert (H5 : exp (Ropp 8.0 * dt) * 1 <= exp (Ropp 8.0 * dt) * exp (8.0 * dt))
    by (apply Rmult_le_compat_l; lra).
  lra.
Qed.

Lemma animate_bulge_residual (currentTime lastTime b target : R) :
  animate_bulgeStrength currentTime lastTime b target - target =
  (b - target) * exp (Ropp 8.0 * frameDeltaTime currentTime lastTime).
Proof.
  unfold animate_bulgeStrength. apply ShaderExtra.smooth_residual.
Qed.

Lemma bulgeFrames_factor (times : list R) (lastTime b target : R) :
  exists k,
    bulgeFrames times lastTime b target - target = (b - target) * k /\
    0.872 ^ List.length times <= k /\ 0 < k /\
    (framesInOrder lastTime times -> k <= 1).
Proof.
  revert lastTime b. induction times as [|t times IH]; intros lastTime b.
  - exists 1. cbn. repeat split; try lra.
  - cbn [bulgeFrames List.length framesInOrder].
    destruct (IH t (animate_bulgeStrength t lastTime b target))
      as (k & Hk & Hlo & Hpos & Hhi).
    destruct (frame_decay t lastTime) as (He1 & He2 & He3).
    set (e := exp (Ropp 8.0 * frameDeltaTime t lastTime)) in *.
    exists (e * k). split; [|split; [|split]].
    + rewrite Hk, animate_bulge_residual. fold e. ring.
    + cbn [pow].
      assert (H0 : 0 <= 0.872 ^ List.length times) by (apply pow_le; lra).
      apply Rmult_le_compat; lra.
    + apply Rmult_lt_0_compat; assumption.
    + intros [Hle Hrest].
      assert (Hk1 := Hhi Hrest). assert (He := He3 Hle).
      replace 1 with (1 * 1) by ring.
      apply Rmult_le_compat; lra.
Qed.

(** X23. One frame of [animate] removes at most 12.8 % of the distance
    between the bulge strength and its target, because the frame
    interval is capped at 0.016 s: after [n] frames at least
    [0.872 ^ n] of the initial distance is left, whatever the clock
    values.  The strength never crosses the target, and when the clock
    does not go back it never moves away from it. *)
Theorem bulge_rate_limited (times : list R) (lastTime b target : R) :
  let b' := bulgeFrames times lastTime b target in
  0.872 ^ List.length times * Rabs (b - target) <= Rabs (b' - target) /\
  0 <= (b - target) * (b' - target) /\
  (b <> target -> b' <> target) /\
  (framesInOrder lastTime times -> Rabs (b' - target) <= Rabs (b - target)).
Proof.
  cbv zeta.
  destruct (bulgeFrames_factor times lastTime b target)
    as (k & Hk & Hlo & Hpos & Hhi).
  assert (Habs : Rabs (bulgeFrames times lastTime b target - target) =
                 Rabs (b - target) * k).
  { rewrite Hk, Rabs_mult. f_equal. apply Rabs_pos_eq. lra. }
  pose proof (Rabs_pos (b - target)) as Hnn.
  split; [|split; [|split]].
  - rewrite Habs, Rmult_comm. apply Rmult_le_compat_l; assumption.
  - rewrite Hk.
    replace ((b - target) * ((b - target) * k))
      with ((b - target) * (b - target) * k) by ring.
    apply Rmult_le_pos; [|lra].
    replace ((b - target) * (b - target)) with ((b - target)²) by reflexivity.
    apply Rle_0_sqr.
  - intros Hne Heq.
    assert (H0 : (b - target) * k = 0) by (rewrite <- Hk; lra).
    apply Rmult_integral in H0. destruct H0; lra.
  - intros Hord. rewrite Habs.
    replace (Rabs (b - target)) with (Rabs (b - target) * 1) at 2 by ring.
    apply Rmult_le_compat_l; [assumption|now apply Hhi].
Qed.

(** ** Numeric helpers *)

(** X24. [clamp] never returns more than [max]; with [min <= max] it
    returns a value of [[min, max]] and leaves values of that interval
    alone; with the bounds the wrong way round it returns [max] whatever
    the value; clamping twice is clamping once. *)
Theorem clamp_props (value min max : R) :
  clamp value min max <= max /\
  (min <= max -> min <= clamp value min max) /\
  (min <= value <= max -> clamp value min max = value) /\
  (max < min -> clamp value min max = max) /\
  clamp (clamp value min max) min max = clamp value min max.
Proof.
  unfold clamp, Rmin, Rmax.
  repeat match goal with
         | |- context [Rle_dec ?a ?b] =>
             lazymatch a with
             | context [Rle_dec] => fail
             | _ => lazymatch b with
                    | context [Rle_dec] => fail
                    | _ => destruct (Rle_dec a b)
                    end
             end
         end;
    (split; [|split; [|split; [|split]]]); try intros [? ?]; intros; lra.
Qed.

(** X25. Over the reals the two angle conversions are inverse to each
    other; [degToRad] maps 180 to [PI] and 360 to [2 * PI] and keeps
    the order. *)
Theorem angle_round_trip (x y : R) :
  radToDeg (degToRad x) = x /\
  degToRad (radToDeg x) = x /\
  degToRad 180 = PI /\
  degToRad 360 = 2 * PI /\
  (x <= y -> degToRad x <= degToRad y).
Proof.
  pose proof PI_RGT_0 as Hpi.
  unfold radToDeg, degToRad.
  repeat split; try (field; lra).
  intros Hxy. apply Rmult_le_compat_r; [|exact Hxy].
  apply Rlt_le. apply Rdiv_lt_0_compat; lra.
Qed.




End HelpersProps.

(* ================================================================== *)
(** * Properties of throttle and debounce *)

Module TimingProps.
Import Timing.
Import Lqa.
Local Open Scope Q_scope.

Lemma Qle_bool_spec (a b : Q) :
  (Qle_bool a b = true /\ a <= b) \/ (Qle_bool a b = false /\ b < a).
Proof.
  destruct (Qle_bool a b) eqn:E.
  - left. split; [reflexivity|]. now apply Qle_bool_iff.
  - right. split; [reflexivity|]. apply Qnot_le_lt. intros H.
    apply Qle_bool_iff in H. congruence.
Qed.

(** X27. The calls that get through a throttled function are at least
    [delay] apart on the clock (the first one counted from 0), each
    returns what the wrapped function returns on its arguments, and a
    call is dropped exactly when less than [delay] has passed since the
    last call that got through; a dropped call is never run later. *)
Theorem throttle_spacing {A B : Type} (func : A -> B) (delay : Q)
    (calls : list (Q * A)) (lastCall : Q) :
  let through := throttledRun func delay calls lastCall in
  spaced delay lastCall (map fst through) /\
  (forall t b, In (t, b) through ->
     exists args, In (t, args) calls /\ b = func args) /\
  (List.length through <= List.length calls)%nat /\
  (forall now args rest, calls = (now, args) :: rest ->
     (delay <= now - lastCall ->
      through = (now, func args) :: throttledRun func delay rest now) /\
     (now - lastCall < delay ->
      through = throttledRun func delay rest lastCall)).
Proof.
  cbv zeta. split; [|split; [|split]].
  - revert lastCall. induction calls as [|[now args] rest IH]; intros lastCall;
      [exact I|].
    cbn [throttledRun]. unfold throttled.
    destruct (Qle_bool_spec delay (now - lastCall)) as [[-> H]|[-> H]].
    + cbn [map fst spaced]. split; [exact H|apply IH].
    + apply IH.
  - revert lastCall. induction calls as [|[now args] rest IH]; intros lastCall;
      [intros t b []|].
    cbn [throttledRun]. unfold throttled.
    destruct (Qle_bool delay (now - lastCall)).
    + intros t b [E|Hin].
      * injection E as <- <-. exists args. split; [now left|reflexivity].
      * destruct (IH _ t b Hin) as (a & Ha & Hb). exists a.
        split; [now right|exact Hb].
    + intros t b Hin. destruct (IH _ t b Hin) as (a & Ha & Hb). exists a.
      split; [now right|exact Hb].
  - revert lastCall. induction calls as [|[now args] rest IH]; intros lastCall;
      [apply Nat.le_refl|].
    cbn [throttledRun List.length]. unfold throttled.
    destruct (Qle_bool delay (now - lastCall)); cbn [List.length].
    + apply le_n_S, IH.
    + apply Nat.le_trans with (List.length rest); [apply IH|lia].
  - intros now args rest ->. cbn [throttledRun]. unfold throttled.
    destruct (Qle_bool_spec delay (now - lastCall)) as [[-> H]|[-> H]];
      split; intros H'; try reflexivity; lra.
Qed.

Lemma debounce_calls {A B : Type} (func : A -> B) (delay : Q)
    (calls : list (Q * A)) (t : Q) (args : A) (d : Debounced A B) :
  debounceRun func delay
    (map (fun c => Call (fst c) (snd c)) calls ++ [Call t args]) d =
  mkDebounced (Some (t + delay, args)) (results d).
Proof.
  unfold debounceRun. revert d.
  induction calls as [|[t0 a0] calls IH]; intros d; [reflexivity|].
  cbn [map app fold_left fst snd debounceStep]. rewrite IH. reflexivity.
Qed.

(** X28. After a burst of calls of a debounced function the wrapped
    function has not run for any of them.  When the timers next run, it
    runs once, on the arguments of the last call of the burst, provided
    [delay] has passed since that call; otherwise the timer stays
    pending and nothing runs.  The earlier calls of the burst are never
    run. *)
Theorem debounce_burst {A B : Type} (func : A -> B) (delay : Q)
    (calls : list (Q * A)) (t : Q) (args : A) (now : Q) (d : Debounced A B) :
  let burst := map (fun c => Call (fst c) (snd c)) calls ++ [Call t args] in
  results (debounceRun func delay burst d) = results d /\
  debounceRun func delay (burst ++ [Tick now]) d =
    (if Qle_bool (t + delay) now
     then mkDebounced None (results d ++ [func args])
     else mkDebounced (Some (t + delay, args)) (results d)) /\
  (t + delay <= now ->
   forall later, now <= later ->
     debounceRun func delay (burst ++ [Tick now; Tick later]) d =
     mkDebounced None (results d ++ [func args])).
Proof.
  cbv zeta. split; [|split].
  - now rewrite debounce_calls.
  - unfold debounceRun. rewrite fold_left_app.
    fold (debounceRun func delay
            (map (fun c => Call (fst c) (snd c)) calls ++ [Call t args]) d).
    rewrite debounce_calls. cbn [fold_left debounceStep pending results].
    destruct (Qle_bool (t + delay) now); reflexivity.
  - intros Hdue later Hlater.
    unfold debounceRun. rewrite fold_left_app.
    fold (debounceRun func delay
            (map (fun c => Call (fst c) (snd c)) calls ++ [Call t args]) d).
    rewrite debounce_calls. cbn [fold_left debounceStep pending results].
    apply Qle_bool_iff in Hdue. rewrite Hdue. reflexivity.
Qed.

End TimingProps.

(* ================================================================== *)
(** * Properties of the error handler *)

Module ErrorHandlingProps.
Import ErrorHandling.
Local Open Scope Z_scope.

Lemma lastn_all {A} (n : nat) (l : list A) :
  (List.length l <= n)%nat -> lastn n l = l.
Proof.
  intros H. unfold lastn. replace (List.length l - n)%nat with 0%nat by lia.
  reflexivity.
Qed.

Lemma lastn_length {A} (n : nat) (l : list A) :
  List.length (lastn n l) = Nat.min n (List.length l).
Proof. unfold lastn. rewrite length_skipn. lia. Qed.

Lemma lastn_app_lastn {A} (n : nat) (a b : list A) :
  lastn n (lastn n a ++ b) = lastn n (a ++ b).
Proof.
  destruct (Nat.le_gt_cases (List.length a) n) as [H|H].
  - now rewrite (lastn_all n a).
  - unfold lastn. rewrite !length_app, length_skipn.
    replace (List.length a - (List.length a - n) + List.length b - n)%nat
      with (List.length b) by lia.
    replace (List.length a + List.length b - n)%nat
      with (List.length b + (List.length a - n))%nat by lia.
    rewrite <- (skipn_skipn (List.length b) (List.length a - n)).
    rewrite (skipn_app (List.length a - n) a b).
    replace (List.length a - n - List.length a)%nat with 0%nat by lia.
    reflexivity.
Qed.

Lemma logError_lastn (now : Z) (error : JsErrorObject) (ctx : string)
    (h : ErrorHandler) :
  (List.length (errorLog h) <= 50)%nat ->
  errorLog (logError now error ctx h) =
  lastn 50 (errorLog h ++
            [mkLogEntry now ctx (message error) (stack error) (errorCount h)]).
Proof.
  intros Hlen. unfold logError. cbn [errorLog].
  set (log := errorLog h ++ _).
  assert (Hl : List.length log = S (List.length (errorLog h)))
    by (unfold log; rewrite length_app; cbn; lia).
  destruct (50 <? Z.of_nat (List.length log)) eqn:E.
  - apply Z.ltb_lt in E. unfold lastn.
    replace (List.length log - 50)%nat with 1%nat by lia.
    destruct log; reflexivity.
  - apply Z.ltb_ge in E. symmetry. apply lastn_all. lia.
Qed.

Lemma handle_fields (env : HandlerEnv) (now : Z) (error : JsErrorObject)
    (ctx : string) (h : ErrorHandler) :
  let h' := snd (handle env now error ctx h) in
  errorCount h' = errorCount h + 1 /\
  errorLog h' =
    errorLog (logError now error ctx
                (mkErrorHandler (errorCount h + 1) (errorLog h) (isSafeMode h))) /\
  (maxErrors < errorCount h + 1 -> isSafeMode h' = true) /\
  (isSafeMode h = true -> isSafeMode h' = true) /\
  (isSafeMode h = false -> errorCount h + 1 <= maxErrors ->
   (rendererSceneCamera env && renderThrows env = false
    \/ ctx <> "Globe Rendering"%string) ->
   isSafeMode h' = false).
Proof.
  cbv zeta. unfold handle, logError, enterSafeMode, attemptRecovery,
    recoverGlobeRendering, fallbackToBasicGlobe.
  cbn [errorCount errorLog isSafeMode].
  destruct (maxErrors <? errorCount h + 1) eqn:E.
  - apply Z.ltb_lt in E.
    destruct (monitorOnWindow env); cbn [snd errorCount errorLog isSafeMode];
      repeat split; try reflexivity; try lia;
      try (destruct (String.eqb ctx _); cbn;
           destruct (rendererSceneCamera env); cbn;
           try destruct (renderThrows env); reflexivity);
      intros; lia.
  - apply Z.ltb_ge in E. cbn [snd].
    destruct (String.eqb ctx "Globe Rendering") eqn:Ec.
    + destruct (rendererSceneCamera env); [destruct (renderThrows env)|];
        cbn [errorCount errorLog isSafeMode andb];
        repeat split; try reflexivity; try lia; try tauto;
        try (intros _ _ [H|H]; [discriminate H|];
             apply String.eqb_eq in Ec; contradiction).
    + cbn [errorCount errorLog isSafeMode].
      repeat split; try reflexivity; try lia; tauto.
Qed.

Lemma handlerInv_step (h : ErrorHandler) (c : HandlerCall) :
  handlerInv h -> handlerInv (handlerStep h c).
Proof.
  intros (Hlen & Hc & Hs). destruct c as [env now error ctx| |].
  - cbn [handlerStep].
    destruct (handle_fields env now error ctx h) as (H1 & H2 & H3 & _).
    unfold handlerInv. rewrite H1, H2, logError_lastn by exact Hlen.
    rewrite lastn_length. split; [lia|]. split; [lia|exact H3].
  - unfold handlerInv, maxErrors. cbn. split; [exact Hlen|]. split; lia.
  - unfold handlerInv, maxErrors. cbn. split; [lia|]. split; lia.
Qed.

Lemma handlerInv_run (cs : list HandlerCall) (h : ErrorHandler) :
  handlerInv h -> handlerInv (handlerRun cs h).
Proof.
  unfold handlerRun. revert h.
  induction cs as [|c cs IH]; intros h H; [exact H|].
  cbn [fold_left]. apply IH. now apply handlerInv_step.
Qed.

Lemma handleAll_log (inputs : list (HandlerEnv * Z * JsErrorObject * string))
    (h : ErrorHandler) :
  (List.length (errorLog h) <= 50)%nat ->
  errorCount (handleAll inputs h) =
    errorCount h + Z.of_nat (List.length inputs) /\
  errorLog (handleAll inputs h) =
    lastn 50 (errorLog h ++ entriesFrom (errorCount h) inputs).
Proof.
  unfold handleAll. revert h.
  induction inputs as [|[[[env now] error] ctx] inputs IH]; intros h Hlen.
  - cbn [fold_left entriesFrom List.length]. rewrite app_nil_r.
    split; [lia|]. symmetry. now apply lastn_all.
  - cbn [fold_left entriesFrom List.length].
    destruct (handle_fields env now error ctx h) as (H1 & H2 & _).
    rewrite logError_lastn in H2 by exact Hlen. cbn [errorCount errorLog] in H2.
    destruct (IH (snd (handle env now error ctx h))) as (IH1 & IH2).
    { rewrite H2, lastn_length. lia. }
    rewrite IH1, IH2, H1, H2. split; [lia|].
    rewrite lastn_app_lastn, <- app_assoc. reflexivity.
Qed.

Lemma handleAll_safe (inputs : list (HandlerEnv * Z * JsErrorObject * string))
    (h : ErrorHandler) :
  (isSafeMode h = true -> isSafeMode (handleAll inputs h) = true) /\
  (maxErrors < errorCount h + Z.of_nat (List.length inputs) ->
   inputs <> [] -> isSafeMode (handleAll inputs h) = true) /\
  (isSafeMode h = false ->
   errorCount h + Z.of_nat (List.length inputs) <= maxErrors ->
   Forall (fun i => let '(env, _, _, ctx) := i in
                    rendererSceneCamera env && renderThrows env = false \/
                    ctx <> "Globe Rendering"%string) inputs ->
   isSafeMode (handleAll inputs h) = false).
Proof.
  unfold handleAll. revert h.
  induction inputs as [|[[[env now] error] ctx] inputs IH]; intros h.
  - cbn [fold_left List.length].
    split; [tauto|]. split; [intros _ H; congruence|tauto].
  - cbn [fold_left List.length].
    destruct (handle_fields env now error ctx h) as (H1 & _ & H3 & H4 & H5).
    destruct (IH (snd (handle env now error ctx h))) as (I1 & I2 & I3).
    split; [|split].
    + intros Hs. apply I1. now apply H4.
    + intros Hc _. destruct inputs as [|i inputs'].
      * cbn [fold_left]. apply H3. cbn [List.length] in Hc. lia.
      * apply I2; [|discriminate]. rewrite H1. lia.
    + intros Hs Hc Hall. inversion Hall as [|? ? Hi Hrest]; subst.
      apply I3; [|rewrite H1; lia|exact Hrest].
      apply H5; [exact Hs|lia|exact Hi].
Qed.

(** X29. Whatever calls of [handle], [exitSafeMode] and [reset] are made
    on a new error handler, and whatever is on [window] at each call,
    the log never holds more than 50 entries and the handler is in safe
    mode whenever its counter is above 5.  [handle] itself throws only
    in one situation: the counter has passed 5 and the call of
    [window.performanceMonitor.disable()] throws; the error is then
    already counted and logged and safe mode already entered. *)
Theorem error_handler_invariant (cs : list HandlerCall) (env : HandlerEnv)
    (now : Z) (error : JsErrorObject) (ctx : string) :
  let h := handlerRun cs newErrorHandler in
  (List.length (errorLog h) <= 50)%nat /\
  0 <= errorCount h /\
  (5 < errorCount h -> isSafeMode h = true) /\
  (fst (handle env now error ctx h) = Threw <->
   monitorOnWindow env = DisableThrows /\ 5 <= errorCount h) /\
  (fst (handle env now error ctx h) = Threw ->
   errorCount (snd (handle env now error ctx h)) = errorCount h + 1 /\
   isSafeMode (snd (handle env now error ctx h)) = true).
Proof.
  cbv zeta.
  assert (H0 : handlerInv newErrorHandler)
    by (unfold handlerInv, maxErrors; cbn; repeat split; lia).
  destruct (handlerInv_run cs newErrorHandler H0) as (Hlen & Hc & Hs).
  split; [exact Hlen|]. split; [exact Hc|]. split; [exact Hs|].
  generalize (handlerRun cs newErrorHandler). intros h.
  unfold handle, logError, enterSafeMode, maxErrors.
  cbn [errorCount errorLog isSafeMode].
  destruct (5 <? errorCount h + 1) eqn:E.
  - apply Z.ltb_lt in E.
    destruct (monitorOnWindow env); cbn [fst snd errorCount isSafeMode];
      split; try (split; [intros H; discriminate H|intros [H _]; discriminate H]);
      try (intros H; discriminate H).
    + split; [intros _; split; [reflexivity|lia]|reflexivity].
    + intros _. split; reflexivity.
  - apply Z.ltb_ge in E. cbn [fst snd].
    split; [|intros H; discriminate H].
    split; [intros H; discriminate H|intros [_ H]; lia].
Qed.

(** X30. After [n] calls of [handle] on a new handler the counter is
    [n] and the log holds the entries of the last [min n 50] calls, in
    order and numbered by the counter.  From the sixth call on the
    handler is in safe mode; up to the fifth it is not, unless a call
    for the globe rendering found that rendering throws. *)
Theorem error_log_keeps_last_50
    (inputs : list (HandlerEnv * Z * JsErrorObject * string)) :
  let h := handleAll inputs newErrorHandler in
  errorCount h = Z.of_nat (List.length inputs) /\
  errorLog h = lastn 50 (entriesFrom 0 inputs) /\
  List.length (errorLog h) = Nat.min 50 (List.length inputs) /\
  ((6 <= List.length inputs)%nat -> isSafeMode h = true) /\
  ((List.length inputs <= 5)%nat ->
   Forall (fun i => let '(env, _, _, ctx) := i in
                    rendererSceneCamera env && renderThrows env = false \/
                    ctx <> "Globe Rendering"%string) inputs ->
   isSafeMode h = false).
Proof.
  cbv zeta.
  assert (Hel : forall b, List.length (entriesFrom b inputs) =
                          List.length inputs).
  { induction inputs as [|[[[e0 n0] er0] c0] inputs IH]; intros b;
      [reflexivity|]. cbn [entriesFrom List.length]. now rewrite IH. }
  destruct (handleAll_log inputs newErrorHandler) as (H1 & H2);
    [cbn; lia|].
  destruct (handleAll_safe inputs newErrorHandler) as (_ & H3 & H4).
  cbn [newErrorHandler errorCount errorLog isSafeMode app] in *.
  split; [lia|]. split; [exact H2|].
  split; [rewrite H2, lastn_length, Hel; reflexivity|].
  split.
  - intros Hn. apply H3; [unfold maxErrors; lia|].
    destruct inputs; [cbn in Hn; lia|discriminate].
  - intros Hn Hall. apply H4; [reflexivity|unfold maxErrors; lia|exact Hall].
Qed.

End ErrorHandlingProps.
